(** * TinyGocha battle engine: a shallow embedding of the simulation core

    The development embeds the Go packages [internal/math] (vectors),
    [internal/graphics] (animation state), and [internal/game] (units, AI
    behaviours, groups, armies and the battle manager) and proves properties
    of the per-tick pipeline.

    Modelling conventions.
    - Go's [float64] is idealised as the real numbers [R]: every float
      operation is the exact real operation, comparisons are the real
      comparisons, there is no rounding, no infinity and no NaN.
    - Go's [int] is a 64-bit two's complement integer; it is a [Z] and every
      addition and subtraction the code performs is followed by [wrap64].
    - [*Unit] pointers are references ([UnitRef]) into a store ([Heap]); every
      field write of the source is an update of the store at that reference,
      in the order the source performs them, so aliasing is preserved.
    - [*AIBehavior] and [*AnimationState] are owned by exactly one unit and
      are embedded in it; [*Group] is owned by exactly one army.
    - [fmt.Printf] tracing has no effect on the state and is left out. *)

From Stdlib Require Import Reals Lra Lia ZArith List Bool String.
Import ListNotations.

Open Scope R_scope.

(** ** Numbers *)

Module GoNum.

(** Two's complement wrap-around of a 64-bit [int]. *)
Definition wrap64 (z : Z) : Z :=
  ((z + 2 ^ 63) mod 2 ^ 64 - 2 ^ 63)%Z.

Definition int_add (a b : Z) : Z := wrap64 (a + b).
Definition int_sub (a b : Z) : Z := wrap64 (a - b).

Definition in_int (z : Z) : Prop := (- 2 ^ 63 <= z < 2 ^ 63)%Z.

(** Comparisons of [float64] values as booleans. *)
Definition fle (a b : R) : bool := if Rle_dec a b then true else false.
Definition flt (a b : R) : bool := if Rlt_dec a b then true else false.
Definition fge (a b : R) : bool := fle b a.
Definition fgt (a b : R) : bool := flt b a.
Definition feq (a b : R) : bool := if Req_dec_T a b then true else false.

(** [int(x)] for a [float64] [x]: the fraction is discarded (truncation
    towards zero).  Go leaves the result open when the value does not fit
    an [int]; the embedding returns the truncated value as it is. *)
Definition int_of_float (x : R) : Z :=
  if Rle_dec 0 x then Int_part x else (- Int_part (- x))%Z.

End GoNum.
Import GoNum.

(** ** internal/math: Vector2D *)

Record Vector2D : Type := mkVector2D { X : R; Y : R }.

Module Vec.

Definition zero : Vector2D := mkVector2D 0 0.

Definition Add (v other : Vector2D) : Vector2D :=
  mkVector2D (X v + X other) (Y v + Y other).

Definition Sub (v other : Vector2D) : Vector2D :=
  mkVector2D (X v - X other) (Y v - Y other).

Definition Mul (v : Vector2D) (scalar : R) : Vector2D :=
  mkVector2D (X v * scalar) (Y v * scalar).

Definition Distance (v other : Vector2D) : R :=
  let dx := X v - X other in
  let dy := Y v - Y other in
  sqrt (dx * dx + dy * dy).

Definition Length (v : Vector2D) : R :=
  sqrt (X v * X v + Y v * Y v).

Definition Normalize (v : Vector2D) : Vector2D :=
  let length := Length v in
  if feq length 0 then mkVector2D 0 0
  else mkVector2D (X v / length) (Y v / length).

Definition Dot (v other : Vector2D) : R :=
  X v * X other + Y v * Y other.

End Vec.

(** ** internal/graphics: AnimationState *)

Inductive AnimationType : Type :=
| AnimationIdle
| AnimationWalk
| AnimationAttack
| AnimationDeath.

Definition AnimationType_eqb (a b : AnimationType) : bool :=
  match a, b with
  | AnimationIdle, AnimationIdle
  | AnimationWalk, AnimationWalk
  | AnimationAttack, AnimationAttack
  | AnimationDeath, AnimationDeath => true
  | _, _ => false
  end.

Record AnimationState : Type := mkAnimationState {
  AnimType : AnimationType;
  Frame : Z;
  FrameTime : R;
  FrameDuration : R;
  TotalFrames : Z;
  Loop : bool;
  Finished : bool
}.

Module Anim.

Definition NewAnimationState (animType : AnimationType) : AnimationState :=
  match animType with
  | AnimationIdle => mkAnimationState animType 0 0 0.5 4 true false
  | AnimationWalk => mkAnimationState animType 0 0 0.15 4 true false
  | AnimationAttack => mkAnimationState animType 0 0 0.1 3 false false
  | AnimationDeath => mkAnimationState animType 0 0 0.2 5 false false
  end.

Definition Update (a : AnimationState) (deltaTime : R) : AnimationState :=
  if Finished a && negb (Loop a) then a
  else
    let frameTime := FrameTime a + deltaTime in
    if fge frameTime (FrameDuration a) then
      let frame := int_add (Frame a) 1 in
      if (frame >=? TotalFrames a)%Z then
        if Loop a then
          mkAnimationState (AnimType a) 0 0 (FrameDuration a)
                           (TotalFrames a) (Loop a) (Finished a)
        else
          mkAnimationState (AnimType a) (int_sub (TotalFrames a) 1) 0
                           (FrameDuration a) (TotalFrames a) (Loop a) true
      else
        mkAnimationState (AnimType a) frame 0 (FrameDuration a)
                         (TotalFrames a) (Loop a) (Finished a)
    else
      mkAnimationState (AnimType a) (Frame a) frameTime (FrameDuration a)
                       (TotalFrames a) (Loop a) (Finished a).

(** [Reset] followed by the per-type parameters, as [SetAnimation] does. *)
Definition SetAnimation (a : AnimationState) (animType : AnimationType)
  : AnimationState :=
  if AnimationType_eqb (AnimType a) animType then a
  else
    match animType with
    | AnimationIdle => mkAnimationState animType 0 0 0.5 4 true false
    | AnimationWalk => mkAnimationState animType 0 0 0.15 4 true false
    | AnimationAttack => mkAnimationState animType 0 0 0.1 3 false false
    | AnimationDeath => mkAnimationState animType 0 0 0.2 5 false false
    end.

Definition Reset (a : AnimationState) : AnimationState :=
  mkAnimationState (AnimType a) 0 0 (FrameDuration a) (TotalFrames a)
                   (Loop a) false.

Definition GetAnimationOffset (a : AnimationState) : R * R :=
  match AnimType a with
  | AnimationIdle =>
    let bob := sin (IZR (Frame a) * PI / 2) * 1 in
    (0, bob)
  | AnimationWalk =>
    let bounce := Rabs (sin (IZR (Frame a) * PI / 2)) * 2 in
    (0, - bounce)
  | AnimationAttack =>
    let thrust := if (Frame a =? 1)%Z then 3 else 0 in
    (thrust, 0)
  | AnimationDeath =>
    let fall := IZR (Frame a) * 2 in
    (0, fall)
  end.

Definition GetScaleModifier (a : AnimationState) : R :=
  match AnimType a with
  | AnimationAttack => if (Frame a =? 1)%Z then 1.2 else 1
  | AnimationDeath => 1 - (IZR (Frame a) / IZR (TotalFrames a) * 0.3)
  | _ => 1
  end.

Definition GetRotationModifier (a : AnimationState) : R :=
  match AnimType a with
  | AnimationDeath => IZR (Frame a) * PI / 8
  | _ => 0
  end.

End Anim.

(** ** internal/game: data model *)

Definition UnitType : Type := string.
Definition UnitTypeInfantry : UnitType := "infantry"%string.
Definition UnitTypeArcher : UnitType := "archer"%string.
Definition UnitTypeMage : UnitType := "mage"%string.

(** A [*Unit]. *)
Definition UnitRef : Type := nat.

Inductive AIAction : Type :=
| AIActionIdle
| AIActionApproach
| AIActionRetreat
| AIActionAttack
| AIActionHold.

Record AIBehavior : Type := mkAIBehavior {
  TargetEnemy : option UnitRef;
  PreferredRange : R;
  AggressionLevel : R;
  LastDecisionTime : R;
  DecisionCooldown : R;
  CurrentAction : AIAction;
  ActionStartTime : R;
  ActionDuration : R
}.

Record UnitTypeConfig : Type := mkUnitTypeConfig {
  cfgName : string;
  cfgHP : Z;
  cfgAttack : Z;
  cfgDefense : Z;
  cfgSpeed : R;
  cfgRange : R;
  cfgMagicPower : Z;
  cfgSize : R
}.

Record Unit : Type := mkUnit {
  ID : Z;
  Type_ : UnitType;
  Name : string;
  HP : Z;
  MaxHP : Z;
  AttackPower : Z;
  Defense : Z;
  Speed : R;
  Range : R;
  MagicPower : Z;
  Size : R;
  Position : Vector2D;
  Target : Vector2D;
  IsLeader : bool;
  IsAlive : bool;
  IsRetreating : bool;
  GroupID : Z;
  ArmyID : Z;
  LastAttackTime : R;
  AttackCooldown : R;
  Animation : AnimationState;
  AI : option AIBehavior
}.

(** Field assignments. *)

Definition set_HP (u : Unit) (v : Z) : Unit :=
  mkUnit (ID u) (Type_ u) (Name u) v (MaxHP u) (AttackPower u) (Defense u)
         (Speed u) (Range u) (MagicPower u) (Size u) (Position u) (Target u)
         (IsLeader u) (IsAlive u) (IsRetreating u) (GroupID u) (ArmyID u)
         (LastAttackTime u) (AttackCooldown u) (Animation u) (AI u).

Definition set_Position (u : Unit) (v : Vector2D) : Unit :=
  mkUnit (ID u) (Type_ u) (Name u) (HP u) (MaxHP u) (AttackPower u) (Defense u)
         (Speed u) (Range u) (MagicPower u) (Size u) v (Target u)
         (IsLeader u) (IsAlive u) (IsRetreating u) (GroupID u) (ArmyID u)
         (LastAttackTime u) (AttackCooldown u) (Animation u) (AI u).

Definition set_Target (u : Unit) (v : Vector2D) : Unit :=
  mkUnit (ID u) (Type_ u) (Name u) (HP u) (MaxHP u) (AttackPower u) (Defense u)
         (Speed u) (Range u) (MagicPower u) (Size u) (Position u) v
         (IsLeader u) (IsAlive u) (IsRetreating u) (GroupID u) (ArmyID u)
         (LastAttackTime u) (AttackCooldown u) (Animation u) (AI u).

Definition set_IsAlive (u : Unit) (v : bool) : Unit :=
  mkUnit (ID u) (Type_ u) (Name u) (HP u) (MaxHP u) (AttackPower u) (Defense u)
         (Speed u) (Range u) (MagicPower u) (Size u) (Position u) (Target u)
         (IsLeader u) v (IsRetreating u) (GroupID u) (ArmyID u)
         (LastAttackTime u) (AttackCooldown u) (Animation u) (AI u).

Definition set_IsRetreating (u : Unit) (v : bool) : Unit :=
  mkUnit (ID u) (Type_ u) (Name u) (HP u) (MaxHP u) (AttackPower u) (Defense u)
         (Speed u) (Range u) (MagicPower u) (Size u) (Position u) (Target u)
         (IsLeader u) (IsAlive u) v (GroupID u) (ArmyID u)
         (LastAttackTime u) (AttackCooldown u) (Animation u) (AI u).

Definition set_LastAttackTime (u : Unit) (v : R) : Unit :=
  mkUnit (ID u) (Type_ u) (Name u) (HP u) (MaxHP u) (AttackPower u) (Defense u)
         (Speed u) (Range u) (MagicPower u) (Size u) (Position u) (Target u)
         (IsLeader u) (IsAlive u) (IsRetreating u) (GroupID u) (ArmyID u)
         v (AttackCooldown u) (Animation u) (AI u).

Definition set_Animation (u : Unit) (v : AnimationState) : Unit :=
  mkUnit (ID u) (Type_ u) (Name u) (HP u) (MaxHP u) (AttackPower u) (Defense u)
         (Speed u) (Range u) (MagicPower u) (Size u) (Position u) (Target u)
         (IsLeader u) (IsAlive u) (IsRetreating u) (GroupID u) (ArmyID u)
         (LastAttackTime u) (AttackCooldown u) v (AI u).

Definition set_AI (u : Unit) (v : option AIBehavior) : Unit :=
  mkUnit (ID u) (Type_ u) (Name u) (HP u) (MaxHP u) (AttackPower u) (Defense u)
         (Speed u) (Range u) (MagicPower u) (Size u) (Position u) (Target u)
         (IsLeader u) (IsAlive u) (IsRetreating u) (GroupID u) (ArmyID u)
         (LastAttackTime u) (AttackCooldown u) (Animation u) v.

Definition set_TargetEnemy (ai : AIBehavior) (v : option UnitRef) : AIBehavior :=
  mkAIBehavior v (PreferredRange ai) (AggressionLevel ai) (LastDecisionTime ai)
               (DecisionCooldown ai) (CurrentAction ai) (ActionStartTime ai)
               (ActionDuration ai).

Definition set_LastDecisionTime (ai : AIBehavior) (v : R) : AIBehavior :=
  mkAIBehavior (TargetEnemy ai) (PreferredRange ai) (AggressionLevel ai) v
               (DecisionCooldown ai) (CurrentAction ai) (ActionStartTime ai)
               (ActionDuration ai).

Definition set_CurrentAction (ai : AIBehavior) (v : AIAction) : AIBehavior :=
  mkAIBehavior (TargetEnemy ai) (PreferredRange ai) (AggressionLevel ai)
               (LastDecisionTime ai) (DecisionCooldown ai) v
               (ActionStartTime ai) (ActionDuration ai).

Definition set_Speed (u : Unit) (v : R) : Unit :=
  mkUnit (ID u) (Type_ u) (Name u) (HP u) (MaxHP u) (AttackPower u) (Defense u)
         v (Range u) (MagicPower u) (Size u) (Position u) (Target u)
         (IsLeader u) (IsAlive u) (IsRetreating u) (GroupID u) (ArmyID u)
         (LastAttackTime u) (AttackCooldown u) (Animation u) (AI u).

Definition set_Defense (u : Unit) (v : Z) : Unit :=
  mkUnit (ID u) (Type_ u) (Name u) (HP u) (MaxHP u) (AttackPower u) v
         (Speed u) (Range u) (MagicPower u) (Size u) (Position u) (Target u)
         (IsLeader u) (IsAlive u) (IsRetreating u) (GroupID u) (ArmyID u)
         (LastAttackTime u) (AttackCooldown u) (Animation u) (AI u).

Definition set_AttackPower (u : Unit) (v : Z) : Unit :=
  mkUnit (ID u) (Type_ u) (Name u) (HP u) (MaxHP u) v (Defense u)
         (Speed u) (Range u) (MagicPower u) (Size u) (Position u) (Target u)
         (IsLeader u) (IsAlive u) (IsRetreating u) (GroupID u) (ArmyID u)
         (LastAttackTime u) (AttackCooldown u) (Animation u) (AI u).

Definition set_MagicPower (u : Unit) (v : Z) : Unit :=
  mkUnit (ID u) (Type_ u) (Name u) (HP u) (MaxHP u) (AttackPower u) (Defense u)
         (Speed u) (Range u) v (Size u) (Position u) (Target u)
         (IsLeader u) (IsAlive u) (IsRetreating u) (GroupID u) (ArmyID u)
         (LastAttackTime u) (AttackCooldown u) (Animation u) (AI u).

(** [data.TerrainConfig]. *)
Record TerrainConfig : Type := mkTerrainConfig {
  TerrainName : string;
  MovementModifier : R;
  DefenseModifier : R;
  ArcherBonus : R;
  MageBonus : R;
  InfantryBonus : R
}.

(** The store of units. *)
Definition Heap : Type := UnitRef -> Unit.

Definition upd (h : Heap) (r : UnitRef) (u : Unit) : Heap :=
  fun r' => if Nat.eqb r' r then u else h r'.

(** [modify h r f] is the in-place update [*r = f( *r)]. *)
Definition modify (h : Heap) (r : UnitRef) (f : Unit -> Unit) : Heap :=
  upd h r (f (h r)).

(** ** unit.go *)

Module UnitOps.

Definition NewAIBehavior (unitType : UnitType) : AIBehavior :=
  let mk (preferredRange aggressionLevel : R) :=
    mkAIBehavior None preferredRange aggressionLevel 0 0.1 AIActionIdle 0 0 in
  if String.eqb unitType UnitTypeInfantry then mk 15 0.7
  else if String.eqb unitType UnitTypeArcher then mk 600 0.5
  else if String.eqb unitType UnitTypeMage then mk 480 0.4
  else if String.eqb unitType "heavy_infantry" then mk 20 0.8
  else if String.eqb unitType "cavalry" then mk 25 0.9
  else mk 15 0.6.

Definition NewUnit (id : Z) (unitType : UnitType) (config : UnitTypeConfig)
  (isLeader : bool) (groupID armyID : Z) : Unit :=
  mkUnit id unitType (cfgName config) (cfgHP config) (cfgHP config)
         (cfgAttack config) (cfgDefense config) (cfgSpeed config)
         (cfgRange config) (cfgMagicPower config) (cfgSize config)
         Vec.zero Vec.zero isLeader true false groupID armyID 0 1
         (Anim.NewAnimationState AnimationIdle)
         (Some (NewAIBehavior unitType)).

Definition GetCollisionRadius (u : Unit) : R :=
  let baseRadius := 3 in
  baseRadius * Size u.

Definition GetSightRange (u : Unit) : R := 5000.

Definition GetHealthPercentage (u : Unit) : R :=
  if (MaxHP u =? 0)%Z then 0
  else IZR (HP u) / IZR (MaxHP u).

Definition CanAttack (u : Unit) : bool :=
  IsAlive u && fle (LastAttackTime u) 0.

Definition MoveTo (u : Unit) (target : Vector2D) : Unit :=
  set_Target u target.

(** [Unit.Update]: only the receiver is read and written. *)
Definition Update (u : Unit) (deltaTime : R) : Unit :=
  if negb (IsAlive u) then
    let a :=
      if negb (AnimationType_eqb (AnimType (Animation u)) AnimationDeath)
      then Anim.SetAnimation (Animation u) AnimationDeath
      else Animation u in
    set_Animation u (Anim.Update a deltaTime)
  else
    let lastAttackTime :=
      if fgt (LastAttackTime u) 0 then
        let t := LastAttackTime u - deltaTime in
        if flt t 0 then 0 else t
      else LastAttackTime u in
    let u1 := set_LastAttackTime u lastAttackTime in
    let isMoving :=
      fgt (Vec.Distance (Position u1) (Target u1)) (GetCollisionRadius u1) in
    let a0 := Animation u1 in
    let a1 :=
      if fgt (LastAttackTime u1) (AttackCooldown u1 * 0.7) then
        if negb (AnimationType_eqb (AnimType a0) AnimationAttack)
        then Anim.SetAnimation a0 AnimationAttack else a0
      else if isMoving then
        if negb (AnimationType_eqb (AnimType a0) AnimationWalk)
        then Anim.SetAnimation a0 AnimationWalk else a0
      else
        if negb (AnimationType_eqb (AnimType a0) AnimationIdle)
        then Anim.SetAnimation a0 AnimationIdle else a0 in
    let u2 := set_Animation u1 (Anim.Update a1 deltaTime) in
    if isMoving then
      let direction := Vec.Normalize (Vec.Sub (Target u2) (Position u2)) in
      let movement := Vec.Mul direction (Speed u2 * deltaTime) in
      set_Position u2 (Vec.Add (Position u2) movement)
    else u2.

Definition TakeDamage (u : Unit) (damage : Z) : Unit :=
  if negb (IsAlive u) then u
  else
    let u1 := set_HP u (int_sub (HP u) damage) in
    if (HP u1 <=? 0)%Z then set_IsAlive (set_HP u1 0) false
    else u1.

Definition StartRetreating (u : Unit) (exitPoint : Vector2D) : Unit :=
  set_Target (set_IsRetreating u true) exitPoint.

(** [u.Attack(target)] for [u = *a] and [target = *t]; the writes go through
    the store, so [a = t] behaves as in the source. *)
Definition Attack (h : Heap) (a t : UnitRef) : Heap * Z :=
  if negb (CanAttack (h a)) || negb (IsAlive (h t)) then (h, 0%Z)
  else
    let distance := Vec.Distance (Position (h a)) (Position (h t)) in
    let effectiveRange :=
      Range (h a) + GetCollisionRadius (h a) + GetCollisionRadius (h t) in
    if fgt distance effectiveRange then (h, 0%Z)
    else
      let h1 :=
        modify h a (fun u =>
          set_Animation u (Anim.SetAnimation (Animation u) AnimationAttack)) in
      let baseDamage :=
        if String.eqb (Type_ (h1 a)) UnitTypeMage
        then int_add (AttackPower (h1 a)) (MagicPower (h1 a))
        else AttackPower (h1 a) in
      let damage0 := int_sub baseDamage (Defense (h1 t)) in
      let damage := if (damage0 <? 1)%Z then 1%Z else damage0 in
      let h2 := modify h1 t (fun u => TakeDamage u damage) in
      let h3 :=
        modify h2 a (fun u => set_LastAttackTime u (AttackCooldown u)) in
      (h3, damage).

Definition IsCollidingWith (u other : Unit) : bool :=
  if negb (IsAlive u) || negb (IsAlive other) then false
  else
    let distance := Vec.Distance (Position u) (Position other) in
    let combinedRadius := GetCollisionRadius u + GetCollisionRadius other in
    flt distance combinedRadius.

(** [u.ResolveCollision(other)] for [u = *a] and [other = *b]. *)
Definition ResolveCollision (h : Heap) (a b : UnitRef) : Heap :=
  if negb (IsAlive (h a)) || negb (IsAlive (h b)) then h
  else
    let distance := Vec.Distance (Position (h a)) (Position (h b)) in
    let combinedRadius :=
      GetCollisionRadius (h a) + GetCollisionRadius (h b) in
    if flt distance combinedRadius && fgt distance 0 then
      let overlap := combinedRadius - distance in
      let direction :=
        Vec.Normalize (Vec.Sub (Position (h b)) (Position (h a))) in
      let pushDistance := overlap * 0.5 in
      let h1 :=
        modify h a (fun u =>
          set_Position u (Vec.Sub (Position u) (Vec.Mul direction pushDistance))) in
      modify h1 b (fun u =>
        set_Position u (Vec.Add (Position u) (Vec.Mul direction pushDistance)))
    else h.

End UnitOps.

(** ** ai.go *)

Module AIOps.

Import UnitOps.

Definition isRangedUnit (unit : Unit) : bool :=
  String.eqb (Type_ unit) UnitTypeArcher || String.eqb (Type_ unit) UnitTypeMage.

Definition calculateTargetScore (unit enemy : Unit) (distance : R) : R :=
  let score := 1000 in
  let score := score - distance * 0.05 in
  let healthPercent := GetHealthPercentage enemy in
  let score := score + (1 - healthPercent) * 30 in
  let score := if IsLeader enemy then score + 50 else score in
  let score := if fle distance (Range unit) then score + 100 else score in
  if String.eqb (Type_ enemy) UnitTypeMage then score + 20
  else if String.eqb (Type_ enemy) UnitTypeArcher then score + 15
  else if String.eqb (Type_ enemy) UnitTypeInfantry then score + 10
  else score.

(** One iteration of the loop of [selectTarget]; the accumulator is
    [(bestTarget, bestScore)]. *)
Definition selectTarget_step (h : Heap) (unit : Unit)
  (acc : option UnitRef * R) (e : UnitRef) : option UnitRef * R :=
  let enemy := h e in
  if negb (IsAlive enemy) || IsRetreating enemy then acc
  else
    let distance := Vec.Distance (Position unit) (Position enemy) in
    let sightRange := GetSightRange unit in
    if fgt distance sightRange then acc
    else
      let score := calculateTargetScore unit enemy distance in
      if fgt score (snd acc) then (Some e, score) else acc.

Definition selectTarget_loop (h : Heap) (unit : Unit) (enemies : list UnitRef)
  : option UnitRef * R :=
  fold_left (selectTarget_step h unit) enemies (None, -1).

Definition selectTarget (ai : AIBehavior) (h : Heap) (r : UnitRef)
  (enemies : list UnitRef) : AIBehavior :=
  set_TargetEnemy ai (fst (selectTarget_loop h (h r) enemies)).

(** [decideAction] dereferences [ai.TargetEnemy]; its only caller has checked
    that it is not nil, and the [None] branch stands for that case. *)
Definition decideAction (ai : AIBehavior) (h : Heap) (r : UnitRef)
  (distance : R) : AIBehavior :=
  match TargetEnemy ai with
  | None => ai
  | Some t =>
    let unit := h r in
    let effectiveDistance :=
      distance - GetCollisionRadius unit - GetCollisionRadius (h t) in
    if fle effectiveDistance (Range unit) && CanAttack unit then
      set_CurrentAction ai AIActionAttack
    else if fgt effectiveDistance (PreferredRange ai * 1.2) then
      set_CurrentAction ai AIActionApproach
    else if flt effectiveDistance (PreferredRange ai * 0.8) && isRangedUnit unit then
      set_CurrentAction ai AIActionRetreat
    else if fle effectiveDistance (Range unit) then
      set_CurrentAction ai AIActionHold
    else
      set_CurrentAction ai AIActionApproach
  end.

Definition moveTowardsTarget (ai : AIBehavior) (h : Heap) (r : UnitRef)
  (intensity : R) : Heap :=
  match TargetEnemy ai with
  | None => h
  | Some t =>
    let unit := h r in
    let direction := Vec.Normalize (Vec.Sub (Position (h t)) (Position unit)) in
    let currentDistance := Vec.Distance (Position unit) (Position (h t)) in
    let collisionBuffer := GetCollisionRadius unit + GetCollisionRadius (h t) in
    let targetDistance := PreferredRange ai * 0.9 + collisionBuffer in
    if fgt currentDistance targetDistance then
      let moveDistance := Rmin (currentDistance - targetDistance) 50 in
      let targetPos :=
        Vec.Add (Position unit) (Vec.Mul direction (moveDistance * intensity)) in
      modify h r (fun u => MoveTo u targetPos)
    else
      let targetPos :=
        Vec.Add (Position unit) (Vec.Mul direction (20 * intensity)) in
      modify h r (fun u => MoveTo u targetPos)
  end.

Definition moveAwayFromTarget (ai : AIBehavior) (h : Heap) (r : UnitRef)
  (intensity : R) : Heap :=
  match TargetEnemy ai with
  | None => h
  | Some t =>
    let unit := h r in
    let direction := Vec.Normalize (Vec.Sub (Position unit) (Position (h t))) in
    let currentDistance := Vec.Distance (Position unit) (Position (h t)) in
    let collisionBuffer := GetCollisionRadius unit + GetCollisionRadius (h t) in
    let targetDistance := PreferredRange ai * 1.1 + collisionBuffer in
    let moveDistance := targetDistance - currentDistance in
    if fgt moveDistance 0 then
      let targetPos :=
        Vec.Add (Position unit) (Vec.Mul direction (moveDistance * intensity)) in
      let targetPos :=
        mkVector2D (Rmax 50 (Rmin 974 (X targetPos)))
                   (Rmax 100 (Rmin 700 (Y targetPos))) in
      modify h r (fun u => MoveTo u targetPos)
    else h
  end.

Definition executeAction (ai : AIBehavior) (h : Heap) (r : UnitRef)
  (distance : R) : Heap :=
  match CurrentAction ai with
  | AIActionApproach => moveTowardsTarget ai h r 1
  | AIActionRetreat => moveAwayFromTarget ai h r 1
  | AIActionAttack => h
  | AIActionHold => modify h r (fun u => set_Target u (Position u))
  | AIActionIdle => modify h r (fun u => set_Target u (Position u))
  end.

(** [ai.Update(unit, enemies, deltaTime)] for [unit = *r]: the behaviour
    object is threaded next to the store and written back by the caller. *)
Definition Update (ai : AIBehavior) (h : Heap) (r : UnitRef)
  (enemies : list UnitRef) (deltaTime : R) : AIBehavior * Heap :=
  if negb (IsAlive (h r)) || IsRetreating (h r) then (ai, h)
  else
    let ai1 := set_LastDecisionTime ai (LastDecisionTime ai + deltaTime) in
    if flt (LastDecisionTime ai1) (DecisionCooldown ai1) then (ai1, h)
    else
      let ai2 := set_LastDecisionTime ai1 0 in
      let ai3 := selectTarget ai2 h r enemies in
      match TargetEnemy ai3 with
      | None => (set_CurrentAction ai3 AIActionIdle, h)
      | Some t =>
        if negb (IsAlive (h t)) then (set_CurrentAction ai3 AIActionIdle, h)
        else
          let distance := Vec.Distance (Position (h r)) (Position (h t)) in
          let ai4 := decideAction ai3 h r distance in
          (ai4, executeAction ai4 h r distance)
      end.

(** [unit.AI.Update(unit, enemies, deltaTime)] guarded by [unit.AI != nil],
    as the battle manager calls it. *)
Definition runAI (h : Heap) (r : UnitRef) (enemies : list UnitRef)
  (deltaTime : R) : Heap :=
  match AI (h r) with
  | None => h
  | Some ai =>
    let '(ai', h') := Update ai h r enemies deltaTime in
    modify h' r (fun u => set_AI u (Some ai'))
  end.

End AIOps.

(** ** group.go *)

Inductive FormationType : Type := CircleFormation.

Record Formation : Type := mkFormation {
  FormType : FormationType;
  Radius : R;
  Spacing : R
}.

Record Group : Type := mkGroup {
  GID : Z;
  Leader : option UnitRef;
  Members : list UnitRef;
  GFormation : Formation;
  GArmyID : Z;
  targetPosition : Vector2D
}.

Definition set_targetPosition (g : Group) (v : Vector2D) : Group :=
  mkGroup (GID g) (Leader g) (Members g) (GFormation g) (GArmyID g) v.

Module GroupOps.

Definition NewGroup (h : Heap) (id armyID : Z) (leader : UnitRef)
  (members : list UnitRef) : Group :=
  mkGroup id (Some leader) members (mkFormation CircleFormation 50 20) armyID
          (Position (h leader)).

Definition leaderAlive (h : Heap) (g : Group) : bool :=
  match Leader g with
  | None => false
  | Some l => IsAlive (h l)
  end.

Definition getAliveMembers (h : Heap) (g : Group) : list UnitRef :=
  filter (fun m => IsAlive (h m) && negb (IsRetreating (h m))) (Members g).

(** The slot of the member at index [i] of [n] alive members. *)
Definition formationPos (g : Group) (n i : nat) : Vector2D :=
  let angleStep := 2 * PI / INR n in
  let angle := INR i * angleStep in
  let offsetX := cos angle * Radius (GFormation g) in
  let offsetY := sin angle * Radius (GFormation g) in
  Vec.Add (targetPosition g) (mkVector2D offsetX offsetY).

(** The loop of [updateCircleFormation] from index [i] on. *)
Fixpoint circleLoop (g : Group) (n i : nat) (l : list UnitRef) (h : Heap)
  : Heap :=
  match l with
  | [] => h
  | m :: rest =>
    let h' :=
      if IsRetreating (h m) then h
      else modify h m (fun u => UnitOps.MoveTo u (formationPos g n i)) in
    circleLoop g n (S i) rest h'
  end.

Definition updateCircleFormation (g : Group) (h : Heap) : Heap :=
  let aliveMembers := getAliveMembers h g in
  match aliveMembers with
  | [] => h
  | _ => circleLoop g (List.length aliveMembers) 0 aliveMembers h
  end.

Definition updateFormation (g : Group) (h : Heap) : Heap :=
  if negb (leaderAlive h g) then h
  else
    match FormType (GFormation g) with
    | CircleFormation => updateCircleFormation g h
    end.

Definition exitPoint (u : Unit) : Vector2D :=
  let p := mkVector2D (-100) (Y (Position u)) in
  if (ArmyID u =? 1)%Z then mkVector2D 1124 (Y p) else p.

Definition handleLeaderDeath (g : Group) (h : Heap) : Heap :=
  fold_left
    (fun h m =>
       if IsAlive (h m) && negb (IsRetreating (h m))
       then modify h m (fun u => UnitOps.StartRetreating u (exitPoint u))
       else h)
    (Members g) h.

Definition updateMembers (deltaTime : R) (l : list UnitRef) (h : Heap) : Heap :=
  fold_left
    (fun h m =>
       if IsAlive (h m) then modify h m (fun u => UnitOps.Update u deltaTime)
       else h)
    l h.

Definition Update (g : Group) (h : Heap) (deltaTime : R) : Group * Heap :=
  match Leader g with
  | None => (g, handleLeaderDeath g h)
  | Some l =>
    if negb (IsAlive (h l)) then (g, handleLeaderDeath g h)
    else
      let h1 := modify h l (fun u => UnitOps.Update u deltaTime) in
      let g1 :=
        if fgt (Vec.Distance (Position (h1 l)) (Target (h1 l))) 5
        then set_targetPosition g (Target (h1 l))
        else set_targetPosition g (Position (h1 l)) in
      let h2 := updateFormation g1 h1 in
      (g1, updateMembers deltaTime (Members g1) h2)
  end.

Definition GetAllUnits (g : Group) : list UnitRef :=
  match Leader g with
  | None => Members g
  | Some l => l :: Members g
  end.

Definition GetAliveCount (h : Heap) (g : Group) : nat :=
  (if leaderAlive h g then 1 else 0)%nat
  + List.length (filter (fun m => IsAlive (h m)) (Members g)).

Definition IsDefeated (h : Heap) (g : Group) : bool :=
  Nat.eqb (GetAliveCount h g) 0.

Definition MoveGroup (g : Group) (h : Heap) (target : Vector2D) : Heap :=
  match Leader g with
  | Some l =>
    if IsAlive (h l) then modify h l (fun u => UnitOps.MoveTo u target) else h
  | None => h
  end.

End GroupOps.

(** ** army.go *)

Record Army : Type := mkArmy {
  AID : Z;
  AName : string;
  Groups : list Group;
  Side : Z
}.

Definition set_Groups (a : Army) (gs : list Group) : Army :=
  mkArmy (AID a) (AName a) gs (Side a).

Module ArmyOps.

Definition NewArmy (id : Z) (name : string) (side : Z) : Army :=
  mkArmy id name [] side.

Definition AddGroup (a : Army) (g : Group) : Army :=
  set_Groups a (Groups a ++ [g]).

Fixpoint updateGroups (gs : list Group) (h : Heap) (deltaTime : R)
  : list Group * Heap :=
  match gs with
  | [] => ([], h)
  | g :: rest =>
    let '(g', h') := GroupOps.Update g h deltaTime in
    let '(rest', h'') := updateGroups rest h' deltaTime in
    (g' :: rest', h'')
  end.

Definition Update (a : Army) (h : Heap) (deltaTime : R) : Army * Heap :=
  let '(gs, h') := updateGroups (Groups a) h deltaTime in
  (set_Groups a gs, h').

Definition GetAllUnits (a : Army) : list UnitRef :=
  flat_map GroupOps.GetAllUnits (Groups a).

Definition GetAliveUnits (h : Heap) (a : Army) : list UnitRef :=
  filter (fun u => IsAlive (h u) && negb (IsRetreating (h u))) (GetAllUnits a).

Definition GetAliveCount (h : Heap) (a : Army) : nat :=
  List.length (GetAliveUnits h a).

Definition GetTotalHealth (h : Heap) (a : Army) : R :=
  let units := GetAllUnits a in
  match units with
  | [] => 0
  | _ =>
    let totalHealth :=
      fold_left (fun acc u => acc + UnitOps.GetHealthPercentage (h u)) units 0 in
    totalHealth / INR (List.length units)
  end.

Definition IsDefeated (h : Heap) (a : Army) : bool :=
  forallb (GroupOps.IsDefeated h) (Groups a).

Definition GetActiveGroups (h : Heap) (a : Army) : list Group :=
  filter (fun g => negb (GroupOps.IsDefeated h g)) (Groups a).

End ArmyOps.

(** ** battle.go *)

(** The stage and terrain configuration are read at construction only; of
    the stage the manager keeps the time limit. *)
Record BattleManager : Type := mkBattleManager {
  ArmyA : Army;
  ArmyB : Army;
  BattleTime : R;
  TimeLimit : R;
  IsActive : bool;
  Winner : Z;
  nextUnitID : Z
}.

Module Battle.

Import UnitOps.

Definition StartBattle (bm : BattleManager) : BattleManager :=
  mkBattleManager (ArmyA bm) (ArmyB bm) 0 (TimeLimit bm) true (-1) (nextUnitID bm).

(** The search loop of [processCombat]; the accumulator is
    [(target, minDistance)]. *)
Definition findTarget_step (h : Heap) (attacker : UnitRef)
  (acc : option UnitRef * R) (e : UnitRef) : option UnitRef * R :=
  let distance := Vec.Distance (Position (h attacker)) (Position (h e)) in
  if fle distance (Range (h attacker)) && flt distance (snd acc)
  then (Some e, distance) else acc.

Definition findTarget (h : Heap) (attacker : UnitRef) (enemies : list UnitRef)
  : option UnitRef :=
  fst (fold_left (findTarget_step h attacker) enemies
                 (None, Range (h attacker) + 1)).

(** The body of one iteration of an attack loop of [processCombat]. *)
Definition combatStep (enemies : list UnitRef) (h : Heap) (attacker : UnitRef)
  : Heap :=
  if negb (CanAttack (h attacker)) then h
  else
    match findTarget h attacker enemies with
    | Some target => fst (Attack h attacker target)
    | None => h
    end.

Definition attackPass (attackers enemies : list UnitRef) (h : Heap) : Heap :=
  fold_left (combatStep enemies) attackers h.

Definition processCombat (bm : BattleManager) (h : Heap) : Heap :=
  let unitsA := ArmyOps.GetAliveUnits h (ArmyA bm) in
  let unitsB := ArmyOps.GetAliveUnits h (ArmyB bm) in
  attackPass unitsB unitsA (attackPass unitsA unitsB h).

Definition set_outcome (bm : BattleManager) (active : bool) (winner : Z)
  : BattleManager :=
  mkBattleManager (ArmyA bm) (ArmyB bm) (BattleTime bm) (TimeLimit bm)
                  active winner (nextUnitID bm).

Definition checkWinConditions (bm : BattleManager) (h : Heap) : BattleManager :=
  if fge (BattleTime bm) (TimeLimit bm) then
    let healthA := ArmyOps.GetTotalHealth h (ArmyA bm) in
    let healthB := ArmyOps.GetTotalHealth h (ArmyB bm) in
    if fgt healthA healthB then set_outcome bm false 0
    else if fgt healthB healthA then set_outcome bm false 1
    else set_outcome bm false 2
  else if ArmyOps.IsDefeated h (ArmyA bm) && ArmyOps.IsDefeated h (ArmyB bm) then
    set_outcome bm false 2
  else if ArmyOps.IsDefeated h (ArmyA bm) then set_outcome bm false 1
  else if ArmyOps.IsDefeated h (ArmyB bm) then set_outcome bm false 0
  else bm.

Definition aiPass (units enemies : list UnitRef) (deltaTime : R) (h : Heap)
  : Heap :=
  fold_left (fun h u => AIOps.runAI h u enemies deltaTime) units h.

Definition updateAI (bm : BattleManager) (h : Heap) (deltaTime : R) : Heap :=
  let unitsA := ArmyOps.GetAliveUnits h (ArmyA bm) in
  let unitsB := ArmyOps.GetAliveUnits h (ArmyB bm) in
  aiPass unitsB unitsA deltaTime (aiPass unitsA unitsB deltaTime h).

(** The inner loop of [handleCollisions] for a fixed [unit1]. *)
Definition collideWith (unit1 : UnitRef) (rest : list UnitRef) (h : Heap)
  : Heap :=
  fold_left
    (fun h unit2 =>
       if IsCollidingWith (h unit1) (h unit2)
       then ResolveCollision h unit1 unit2 else h)
    rest h.

Fixpoint collidePairs (allUnits : list UnitRef) (h : Heap) : Heap :=
  match allUnits with
  | [] => h
  | unit1 :: rest => collidePairs rest (collideWith unit1 rest h)
  end.

Definition handleCollisions (bm : BattleManager) (h : Heap) : Heap :=
  let allUnits :=
    ArmyOps.GetAliveUnits h (ArmyA bm) ++ ArmyOps.GetAliveUnits h (ArmyB bm) in
  collidePairs allUnits h.

Definition set_armies (bm : BattleManager) (a b : Army) (t : R)
  : BattleManager :=
  mkBattleManager a b t (TimeLimit bm) (IsActive bm) (Winner bm) (nextUnitID bm).

(** The armies and the store after the movement step of a tick. *)
Definition updateArmies (bm : BattleManager) (h : Heap) (deltaTime : R)
  : BattleManager * Heap :=
  let '(a, h1) := ArmyOps.Update (ArmyA bm) h deltaTime in
  let '(b, h2) := ArmyOps.Update (ArmyB bm) h1 deltaTime in
  (set_armies bm a b (BattleTime bm + deltaTime), h2).

Definition Update (bm : BattleManager) (h : Heap) (deltaTime : R)
  : BattleManager * Heap :=
  if negb (IsActive bm) then (bm, h)
  else
    let '(bm1, h2) := updateArmies bm h deltaTime in
    let h3 := updateAI bm1 h2 deltaTime in
    let h4 := handleCollisions bm1 h3 in
    let h5 := processCombat bm1 h4 in
    (checkWinConditions bm1 h5, h5).

Definition GetWinnerName (bm : BattleManager) : string :=
  if (Winner bm =? 0)%Z then "軍勢A"
  else if (Winner bm =? 1)%Z then "軍勢B"
  else if (Winner bm =? 2)%Z then "引き分け"
  else "未決定".

(** [NewBattleManager]; of the stage only the time limit is kept. *)
Definition NewBattleManager (timeLimit : R) : BattleManager :=
  mkBattleManager (ArmyOps.NewArmy 0 "軍勢A" 0) (ArmyOps.NewArmy 1 "軍勢B" 1)
                  0 timeLimit false (-1) 1.

Definition applyTerrainModifiers (terrain : TerrainConfig) (unit : Unit) : Unit :=
  let u1 := set_Speed unit (Speed unit * MovementModifier terrain) in
  let u2 :=
    set_Defense u1 (int_of_float (IZR (Defense u1) * DefenseModifier terrain)) in
  if String.eqb (Type_ u2) UnitTypeInfantry then
    set_AttackPower u2
      (int_of_float (IZR (AttackPower u2) * InfantryBonus terrain))
  else if String.eqb (Type_ u2) UnitTypeArcher then
    set_AttackPower u2
      (int_of_float (IZR (AttackPower u2) * ArcherBonus terrain))
  else if String.eqb (Type_ u2) UnitTypeMage then
    let u3 :=
      set_AttackPower u2
        (int_of_float (IZR (AttackPower u2) * MageBonus terrain)) in
    set_MagicPower u3 (int_of_float (IZR (MagicPower u3) * MageBonus terrain))
  else u2.

(** [createUnit]; [terrain] is the manager's [TerrainData]. *)
Definition createUnit (terrain : TerrainConfig) (bm : BattleManager)
  (unitType : UnitType) (config : UnitTypeConfig) (isLeader : bool)
  (armyID : Z) : Unit * BattleManager :=
  let unit := NewUnit (nextUnitID bm) unitType config isLeader 0 armyID in
  let bm' :=
    mkBattleManager (ArmyA bm) (ArmyB bm) (BattleTime bm) (TimeLimit bm)
                    (IsActive bm) (Winner bm) (int_add (nextUnitID bm) 1) in
  (applyTerrainModifiers terrain unit, bm').

End Battle.

(** ** Sample data

    The scenario of the specification: infantry with 100 hit points, attack
    15, defence 10, range 15 and size 1. *)

Module Sample.

Definition infantryCfg : UnitTypeConfig :=
  mkUnitTypeConfig "infantry" 100 15 10 50 15 0 1.

(** [leader.Position = position; leader.Target = position] of [createGroup]. *)
Definition place (u : Unit) (p : Vector2D) : Unit :=
  set_Target (set_Position u p) p.

Definition soldier (id : Z) (isLeader : bool) (armyID : Z) (x y : R) : Unit :=
  place (UnitOps.NewUnit id UnitTypeInfantry infantryCfg isLeader 0 armyID)
        (mkVector2D x y).

(** Two leaders ten units apart, one per army. *)
Definition duel : Heap :=
  fun r =>
    match r with
    | O => soldier 1 true 0 0 0
    | _ => soldier 2 true 1 10 0
    end.

(** The duel as a battle: one group per army, each a lone leader. *)
Definition duelBattle : BattleManager :=
  mkBattleManager
    (ArmyOps.AddGroup (ArmyOps.NewArmy 0 "A" 0)
                      (GroupOps.NewGroup duel 0 0 0%nat []))
    (ArmyOps.AddGroup (ArmyOps.NewArmy 1 "B" 1)
                      (GroupOps.NewGroup duel 1 1 1%nat []))
    0 60 true (-1) 3.

(** A lone unit at the origin that is walking to [(100, 0)]. *)
Definition marching : Heap :=
  fun _ => set_Target (soldier 1 true 0 0 0) (mkVector2D 100 0).

(** One unit of the first army at the origin facing two of the second: a
    plain soldier at distance 18 and a leader at distance 100. *)
Definition skirmish : Heap :=
  fun r =>
    match r with
    | O => soldier 1 true 0 0 0
    | S O => soldier 2 false 1 18 0
    | _ => soldier 3 true 1 100 0
    end.

(** Two soldiers of one group on the same spot, as the random jitter of
    [createGroup] can place them. *)
Definition stacked : Heap :=
  fun r =>
    match r with
    | O => soldier 1 false 0 5 5
    | _ => soldier 2 false 0 5 5
    end.

(** Two soldiers four units apart: their collision circles of radius 3
    overlap by 2. *)
Definition crowded : Heap :=
  fun r =>
    match r with
    | O => soldier 1 false 0 0 0
    | _ => soldier 2 false 0 4 0
    end.



(** A group of the first army whose leader [0] has fallen, with one
    member [1], against the lone leader [2] of the second army. *)
Definition orphaned : Heap :=
  fun r =>
    match r with
    | O => UnitOps.TakeDamage (soldier 1 true 0 0 0) 100
    | S O => soldier 2 false 0 10 0
    | _ => soldier 3 true 1 200 0
    end.

Definition orphanGroup : Group := GroupOps.NewGroup orphaned 0 0 0%nat [1%nat].

Definition orphanBattle : BattleManager :=
  mkBattleManager
    (ArmyOps.AddGroup (ArmyOps.NewArmy 0 "A" 0) orphanGroup)
    (ArmyOps.AddGroup (ArmyOps.NewArmy 1 "B" 1)
                      (GroupOps.NewGroup orphaned 1 1 2%nat []))
    0 60 true (-1) 4.

(** A leader [0] with one member [1] of the first army, and the lone
    leader [2] of the second army 200 units away. *)
Definition squad : Heap :=
  fun r =>
    match r with
    | O => soldier 1 true 0 0 0
    | S O => soldier 2 false 0 10 0
    | _ => soldier 3 true 1 200 0
    end.

Definition squadGroup : Group := GroupOps.NewGroup squad 0 0 0%nat [1%nat].

Definition squadBattle : BattleManager :=
  mkBattleManager
    (ArmyOps.AddGroup (ArmyOps.NewArmy 0 "A" 0) squadGroup)
    (ArmyOps.AddGroup (ArmyOps.NewArmy 1 "B" 1)
                      (GroupOps.NewGroup squad 1 1 2%nat []))
    0 60 true (-1) 4.

(** A behaviour whose last decision was to approach the unit [1]. *)
Definition approaching : AIBehavior :=
  mkAIBehavior (Some 1%nat) 15 0.7 0 0.1 AIActionApproach 0 0.

End Sample.

(** ** Statements of the specification *)

Module SpecDefs.

Import UnitOps.

(** The failure condition in the words of the specification. *)
Definition spec_attackFails (h : Heap) (a t : UnitRef) : bool :=
  (negb (IsAlive (h a)) || fgt (LastAttackTime (h a)) 0)
  || negb (IsAlive (h t))
  || fgt (Vec.Distance (Position (h a)) (Position (h t)))
         (Range (h a) + GetCollisionRadius (h a) + GetCollisionRadius (h t)).

(** The damage in the words of the specification, in [int] arithmetic. *)
Definition spec_damage (attacker target : Unit) : Z :=
  Z.max 1
    (int_sub
       (if String.eqb (Type_ attacker) UnitTypeMage
        then int_add (AttackPower attacker) (MagicPower attacker)
        else AttackPower attacker)
       (Defense target)).

(** The mean over the units of an army of [HP / maxHP]. *)
Definition spec_healthFraction (h : Heap) (units : list UnitRef) : R :=
  fold_right (fun u acc => IZR (HP (h u)) / IZR (MaxHP (h u)) + acc) 0 units
  / INR (List.length units).

(** An enemy passes the filters of target selection. *)
Definition visible (h : Heap) (r e : UnitRef) : bool :=
  IsAlive (h e) && negb (IsRetreating (h e))
  && fle (Vec.Distance (Position (h r)) (Position (h e))) (GetSightRange (h r)).

(** "Movement execution occurs on every tick from the last decided
    action": after [Update] the movement target is the one that executing
    the action held on entry produces. *)
Definition spec_executes_every_tick : Prop :=
  forall (ai : AIBehavior) (h : Heap) (r t : UnitRef) (enemies : list UnitRef)
         (dt : R),
    IsAlive (h r) = true -> IsRetreating (h r) = false ->
    (CurrentAction ai = AIActionApproach \/ CurrentAction ai = AIActionRetreat) ->
    TargetEnemy ai = Some t -> IsAlive (h t) = true -> In t enemies ->
    0 < dt ->
    Target (snd (AIOps.Update ai h r enemies dt) r)
    = Target (AIOps.executeAction ai h r
                (Vec.Distance (Position (h r)) (Position (h t))) r).

(** [res] is the first element of [l] that passes [ok] and whose key no
    other passing element beats: those before it are strictly worse, those
    after it are not better.  [None] when no element passes. *)
Definition first_best (better : R -> R -> Prop) (ok : UnitRef -> bool)
  (key : UnitRef -> R) (l : list UnitRef) (res : option UnitRef) : Prop :=
  match res with
  | None => forall e, In e l -> ok e = false
  | Some t =>
    exists pre post,
      l = pre ++ t :: post /\ ok t = true /\
      (forall e, In e pre -> ok e = true -> better (key t) (key e)) /\
      (forall e, In e post -> ok e = true -> ~ better (key e) (key t))
  end.


Definition spec_typeBonus (t : UnitType) : R :=
  if String.eqb t UnitTypeMage then 20
  else if String.eqb t UnitTypeArcher then 15
  else if String.eqb t UnitTypeInfantry then 10
  else 0.

(** The score of the specification: the bonus of 100 goes to an enemy within
    the effective range [range + both collision radii]. *)
Definition spec_score (h : Heap) (r e : UnitRef) : R :=
  let distance := Vec.Distance (Position (h r)) (Position (h e)) in
  1000 - distance * 0.05
  + (1 - GetHealthPercentage (h e)) * 30
  + (if IsLeader (h e) then 50 else 0)
  + (if fle distance
            (Range (h r) + GetCollisionRadius (h r) + GetCollisionRadius (h e))
     then 100 else 0)
  + spec_typeBonus (Type_ (h e)).

(** "selectTarget keeps the first visible enemy that maximises the score of
    the specification." *)
Definition spec_selects_max_effective : Prop :=
  forall (ai : AIBehavior) (h : Heap) (r : UnitRef) (enemies : list UnitRef),
    (forall e, In e enemies -> (0 <= HP (h e) <= MaxHP (h e))%Z) ->
    first_best Rgt (visible h r) (spec_score h r) enemies
               (TargetEnemy (AIOps.selectTarget ai h r enemies)).

(** "After [resolveCollision] two overlapping living units touch." *)
Definition spec_collision_touching : Prop :=
  forall (h : Heap) (a b : UnitRef),
    a <> b -> IsAlive (h a) = true -> IsAlive (h b) = true ->
    Vec.Distance (Position (h a)) (Position (h b))
    < GetCollisionRadius (h a) + GetCollisionRadius (h b) ->
    Vec.Distance (Position (ResolveCollision h a b a))
                 (Position (ResolveCollision h a b b))
    = GetCollisionRadius (h a) + GetCollisionRadius (h b).

(** [h'] relates to [h] unit by unit. *)
Definition heap_rel (Rel : Unit -> Unit -> Prop) (h h' : Heap) : Prop :=
  forall r, Rel (h r) (h' r).

(** The hit-point invariants of a unit. *)
Definition unit_ok (u : Unit) : Prop :=
  (0 <= HP u <= MaxHP u)%Z /\ in_int (MaxHP u) /\
  (IsAlive u = true <-> (0 < HP u)%Z).

(** What a unit can go through: the maximum is fixed, the invariants are
    kept, hit points do not grow, death and retreat are latched. *)
Definition unit_step (u u' : Unit) : Prop :=
  MaxHP u' = MaxHP u /\
  (unit_ok u -> unit_ok u' /\ (HP u' <= HP u)%Z) /\
  (IsAlive u = false -> IsAlive u' = false) /\
  (IsRetreating u = true -> IsRetreating u' = true).


(** The states of a battle: [StartBattle] and [Update] from a first one. *)
Inductive reachable (bm0 : BattleManager) (h0 : Heap)
  : BattleManager -> Heap -> Prop :=
| reach_init : reachable bm0 h0 bm0 h0
| reach_start (bm : BattleManager) (h : Heap) :
    reachable bm0 h0 bm h -> reachable bm0 h0 (Battle.StartBattle bm) h
| reach_update (bm : BattleManager) (h : Heap) (dt : R) :
    reachable bm0 h0 bm h ->
    reachable bm0 h0 (fst (Battle.Update bm h dt)) (snd (Battle.Update bm h dt)).


(** A unit that takes part in the battle: alive and not retreating, the
    filter of [GetAliveUnits]. *)
Definition active (u : Unit) : bool := IsAlive u && negb (IsRetreating u).

Definition allGroups (bm : BattleManager) : list Group :=
  Groups (ArmyA bm) ++ Groups (ArmyB bm).

(** Every unit is the leader or a member of one group only and is listed
    once, as [createGroup] builds the groups. *)
Definition disjoint_groups (bm : BattleManager) : Prop :=
  NoDup (ArmyOps.GetAllUnits (ArmyA bm) ++ ArmyOps.GetAllUnits (ArmyB bm)).

(** The anchor [Group.Update] computes from the leader after its update. *)
Definition anchorOf (leader : Unit) : Vector2D :=
  if fgt (Vec.Distance (Position leader) (Target leader)) 5
  then Target leader else Position leader.

(** The decision cooldown of the unit has not elapsed after [dt] more
    seconds (or the unit has no behaviour attached). *)
Definition ai_gated (u : Unit) (dt : R) : Prop :=
  match AI u with
  | None => True
  | Some ai => LastDecisionTime ai + dt < DecisionCooldown ai
  end.

(** The formation slot of the member at index [i] of the alive members of
    [g], around the anchor the group computes in the tick that takes [h] to
    [h2] by the movement step. *)
Definition slotOf (g : Group) (h h2 : Heap) (l : UnitRef) (i : nat) : Vector2D :=
  GroupOps.formationPos (set_targetPosition g (anchorOf (h2 l)))
                        (List.length (GroupOps.getAliveMembers h g)) i.

(** "At the end of [BattleManager.Update] the movement target of every
    alive, non-retreating member of a group whose leader lives is its
    formation slot." *)
Definition spec_formation_overrides_ai : Prop :=
  forall (bm : BattleManager) (h : Heap) (dt : R) (g : Group) (l m : UnitRef)
         (i : nat),
    IsActive bm = true -> disjoint_groups bm -> In g (allGroups bm) ->
    Leader g = Some l -> IsAlive (h l) = true ->
    nth_error (GroupOps.getAliveMembers h g) i = Some m ->
    Target (snd (Battle.Update bm h dt) m)
    = slotOf g h (snd (Battle.updateArmies bm h dt)) l i.

(** The sum of the positions of the units of a list; divided by the
    number of units it is their centroid. *)
Definition positionSum (h : Heap) (l : list UnitRef) : Vector2D :=
  fold_right (fun r acc => Vec.Add (Position (h r)) acc) Vec.zero l.

(** A well-formed animation state: the frame is one of the frames of the
    animation, the time spent in it is below the frame duration, and only
    an animation that does not loop is ever finished, on its last frame. *)
Definition anim_ok (a : AnimationState) : Prop :=
  (0 <= Frame a < TotalFrames a)%Z /\ in_int (TotalFrames a) /\
  FrameTime a < FrameDuration a /\ 0 < FrameDuration a /\
  (Finished a = true -> Loop a = false /\ Frame a = (TotalFrames a - 1)%Z).

End SpecDefs.
Import SpecDefs.

(** * Properties *)

(** ** Numbers and vectors *)

Section NumFacts.

Lemma fle_true_iff (a b : R) : fle a b = true <-> a <= b.
Proof. unfold fle. destruct (Rle_dec a b); split; intros; congruence || lra. Qed.

Lemma fle_false_iff (a b : R) : fle a b = false <-> b < a.
Proof. unfold fle. destruct (Rle_dec a b); split; intros; congruence || lra. Qed.

Lemma flt_true_iff (a b : R) : flt a b = true <-> a < b.
Proof. unfold flt. destruct (Rlt_dec a b); split; intros; congruence || lra. Qed.

Lemma flt_false_iff (a b : R) : flt a b = false <-> b <= a.
Proof. unfold flt. destruct (Rlt_dec a b); split; intros; congruence || lra. Qed.

Lemma feq_true_iff (a b : R) : feq a b = true <-> a = b.
Proof. unfold feq. destruct (Req_dec_T a b); split; intros; congruence. Qed.

Lemma feq_false_iff (a b : R) : feq a b = false <-> a <> b.
Proof. unfold feq. destruct (Req_dec_T a b); split; intros; congruence. Qed.

Lemma wrap64_id (z : Z) : in_int z -> wrap64 z = z.
Proof.
  unfold in_int, wrap64. intros Hz.
  rewrite Z.mod_small by lia. lia.
Qed.

Lemma wrap64_in_int (z : Z) : in_int (wrap64 z).
Proof.
  unfold in_int, wrap64.
  pose proof (Z.mod_pos_bound (z + 2 ^ 63) (2 ^ 64) ltac:(lia)). lia.
Qed.

Lemma Distance_nonneg (v w : Vector2D) : 0 <= Vec.Distance v w.
Proof. unfold Vec.Distance. apply sqrt_pos. Qed.

Lemma Distance_sym (v w : Vector2D) : Vec.Distance v w = Vec.Distance w v.
Proof. unfold Vec.Distance. cbv zeta. f_equal. ring. Qed.

Lemma Distance_Length (v w : Vector2D) :
  Vec.Distance v w = Vec.Length (Vec.Sub v w).
Proof. reflexivity. Qed.

Lemma Length_sqr (v : Vector2D) :
  Vec.Length v * Vec.Length v = X v * X v + Y v * Y v.
Proof. unfold Vec.Length. apply sqrt_sqrt. nra. Qed.

(** On a horizontal line the distance is the difference of abscissas. *)
Lemma Distance_horizontal (v w : Vector2D) :
  Y v = Y w -> X v <= X w -> Vec.Distance v w = X w - X v.
Proof.
  intros Hy Hx. unfold Vec.Distance. cbv zeta. rewrite Hy.
  replace ((X v - X w) * (X v - X w) + (Y w - Y w) * (Y w - Y w))
    with (Rsqr (X w - X v)) by (unfold Rsqr; ring).
  apply sqrt_Rsqr. lra.
Qed.

Lemma Distance_self (v : Vector2D) : Vec.Distance v v = 0.
Proof. rewrite (Distance_horizontal v v); lra. Qed.

End NumFacts.

(** ** The store *)

Section HeapFacts.

Lemma upd_same (h : Heap) (r : UnitRef) (u : Unit) : upd h r u r = u.
Proof. unfold upd. now rewrite Nat.eqb_refl. Qed.

Lemma upd_other (h : Heap) (r r' : UnitRef) (u : Unit) :
  r' <> r -> upd h r u r' = h r'.
Proof. unfold upd. intros H. apply Nat.eqb_neq in H. now rewrite H. Qed.

Lemma modify_same (h : Heap) (r : UnitRef) (f : Unit -> Unit) :
  modify h r f r = f (h r).
Proof. apply upd_same. Qed.

Lemma modify_other (h : Heap) (r r' : UnitRef) (f : Unit -> Unit) :
  r' <> r -> modify h r f r' = h r'.
Proof. apply upd_other. Qed.

(** A field [p] that [f] leaves alone is left alone by [modify]. *)
Lemma modify_frame {A : Type} (p : Unit -> A) (h : Heap) (r r' : UnitRef)
  (f : Unit -> Unit) :
  (forall u, p (f u) = p u) -> p (modify h r f r') = p (h r').
Proof.
  intros Hf. destruct (Nat.eq_dec r' r) as [->|Hne].
  - now rewrite modify_same.
  - now rewrite modify_other.
Qed.

End HeapFacts.

(** ** Unit.Attack *)

Section AttackFacts.

Import UnitOps.

Lemma CanAttack_neg (u : Unit) :
  negb (CanAttack u) = negb (IsAlive u) || fgt (LastAttackTime u) 0.
Proof.
  unfold CanAttack, fgt, fle, flt.
  destruct (IsAlive u); simpl; auto.
  destruct (Rle_dec (LastAttackTime u) 0), (Rlt_dec 0 (LastAttackTime u));
    simpl; auto; lra.
Qed.

Lemma TakeDamage_frame (u : Unit) (d : Z) :
  Position (TakeDamage u d) = Position u /\
  Target (TakeDamage u d) = Target u /\
  IsRetreating (TakeDamage u d) = IsRetreating u /\
  MaxHP (TakeDamage u d) = MaxHP u /\
  LastAttackTime (TakeDamage u d) = LastAttackTime u /\
  AttackCooldown (TakeDamage u d) = AttackCooldown u /\
  Animation (TakeDamage u d) = Animation u /\
  AI (TakeDamage u d) = AI u.
Proof.
  unfold TakeDamage. destruct (negb (IsAlive u)); [easy|].
  destruct (_ <=? _)%Z; easy.
Qed.

Lemma spec_damage_pos (attacker target : Unit) :
  (1 <= spec_damage attacker target)%Z.
Proof. unfold spec_damage. lia. Qed.

End AttackFacts.

(** C5.  [Attack] returns 0 and leaves the store as it is when the attacker
    is dead or cooling down, the target is dead, or the distance exceeds the
    range plus both collision radii.  Otherwise it returns
    [max(1, attackPower (+ magicPower for a mage) - defense)], which is at
    least 1, applies it to the target with [TakeDamage], sets the attacker's
    cooldown to its cooldown duration, and touches no other unit. *)
Theorem attack_silent_failure_or_floor_damage (h : Heap) (a t : UnitRef) :
  if spec_attackFails h a t
  then UnitOps.Attack h a t = (h, 0%Z)
  else
    let d := spec_damage (h a) (h t) in
    let h' := fst (UnitOps.Attack h a t) in
    snd (UnitOps.Attack h a t) = d /\
    (1 <= d)%Z /\
    HP (h' t) = HP (UnitOps.TakeDamage (h t) d) /\
    IsAlive (h' t) = IsAlive (UnitOps.TakeDamage (h t) d) /\
    LastAttackTime (h' a) = AttackCooldown (h a) /\
    (t <> a -> h' t = UnitOps.TakeDamage (h t) d) /\
    (forall r, r <> a -> r <> t -> h' r = h r).
Proof.
  unfold spec_attackFails, UnitOps.Attack.
  rewrite <- CanAttack_neg.
  destruct (negb (UnitOps.CanAttack (h a)) || negb (IsAlive (h t))) eqn:E1;
    cbn [orb]; [reflexivity|].
  destruct (fgt _ _) eqn:E2; [reflexivity|].
  cbv zeta. cbn [fst snd].
  assert (Hd : (if (int_sub
                      (if String.eqb (Type_ (h a)) UnitTypeMage
                       then int_add (AttackPower (h a)) (MagicPower (h a))
                       else AttackPower (h a)) (Defense (h t)) <? 1)%Z
                then 1%Z
                else int_sub
                       (if String.eqb (Type_ (h a)) UnitTypeMage
                        then int_add (AttackPower (h a)) (MagicPower (h a))
                        else AttackPower (h a)) (Defense (h t)))
               = spec_damage (h a) (h t)).
  { unfold spec_damage. destruct (Z.ltb_spec
      (int_sub (if String.eqb (Type_ (h a)) UnitTypeMage
                then int_add (AttackPower (h a)) (MagicPower (h a))
                else AttackPower (h a)) (Defense (h t))) 1); lia. }
  set (h1 := modify h a _).
  assert (Ha1 : Type_ (h1 a) = Type_ (h a) /\ AttackPower (h1 a) = AttackPower (h a)
                /\ MagicPower (h1 a) = MagicPower (h a)).
  { unfold h1. rewrite modify_same. easy. }
  destruct Ha1 as (-> & -> & ->).
  assert (Ht1 : Defense (h1 t) = Defense (h t)).
  { unfold h1. apply (modify_frame Defense). reflexivity. }
  rewrite Ht1, Hd.
  set (d := spec_damage (h a) (h t)).
  assert (Hhp : HP (h1 t) = HP (h t) /\ IsAlive (h1 t) = IsAlive (h t)).
  { unfold h1. split; [apply (modify_frame HP)|apply (modify_frame IsAlive)];
      reflexivity. }
  destruct Hhp as [Hhp Hal].
  assert (Htd : forall u u', HP u = HP u' -> IsAlive u = IsAlive u' ->
            HP (UnitOps.TakeDamage u d) = HP (UnitOps.TakeDamage u' d) /\
            IsAlive (UnitOps.TakeDamage u d) = IsAlive (UnitOps.TakeDamage u' d)).
  { intros u u' H1 H2. unfold UnitOps.TakeDamage. rewrite <- H1, <- H2.
    destruct (negb (IsAlive u)); [easy|]. cbn.
    destruct (_ <=? _)%Z; cbn; easy. }
  repeat split.
  - apply spec_damage_pos.
  - rewrite (modify_frame HP) by reflexivity. rewrite modify_same.
    now apply Htd.
  - rewrite (modify_frame IsAlive) by reflexivity. rewrite modify_same.
    now apply Htd.
  - rewrite modify_same. cbn.
    destruct (Nat.eq_dec a t) as [->|Hne].
    + rewrite modify_same.
      destruct (TakeDamage_frame (h1 t) d) as (_ & _ & _ & _ & _ & -> & _).
      unfold h1. rewrite modify_same. reflexivity.
    + rewrite modify_other by assumption. unfold h1. rewrite modify_same.
      reflexivity.
  - intros Hne. rewrite modify_other by assumption. rewrite modify_same.
    unfold h1. rewrite modify_other by assumption. reflexivity.
  - intros r Hra Hrt. rewrite modify_other by assumption.
    rewrite modify_other by assumption. unfold h1.
    rewrite modify_other by assumption. reflexivity.
Qed.

(** Evaluation of float comparisons on closed terms. *)
Ltac fcmp :=
  unfold fgt, fge in *;
  repeat match goal with
  | |- context [fle ?a ?b] =>
      first [ rewrite (proj2 (fle_true_iff a b)) by lra
            | rewrite (proj2 (fle_false_iff a b)) by lra ]
  | |- context [flt ?a ?b] =>
      first [ rewrite (proj2 (flt_true_iff a b)) by lra
            | rewrite (proj2 (flt_false_iff a b)) by lra ]
  | |- context [feq ?a ?b] =>
      first [ rewrite (proj2 (feq_true_iff a b)) by lra
            | rewrite (proj2 (feq_false_iff a b)) by lra ]
  end.

Lemma duel_distance :
  Vec.Distance (Position (Sample.duel 0%nat)) (Position (Sample.duel 1%nat)) = 10.
Proof. rewrite Distance_horizontal; cbn; lra. Qed.

(** In the sample duel the first attack lands and deals [15 - 10 = 5]. *)
Lemma attack_silent_failure_or_floor_damage_witness :
  snd (UnitOps.Attack Sample.duel 0%nat 1%nat) = 5%Z /\
  HP (fst (UnitOps.Attack Sample.duel 0%nat 1%nat) 1%nat) = 95%Z.
Proof.
  pose proof (attack_silent_failure_or_floor_damage Sample.duel 0%nat 1%nat) as H.
  assert (E : spec_attackFails Sample.duel 0%nat 1%nat = false).
  { unfold spec_attackFails. rewrite duel_distance. cbn.
    unfold UnitOps.GetCollisionRadius. cbn. fcmp. reflexivity. }
  rewrite E in H. cbv zeta in H.
  destruct H as (H1 & _ & H2 & _).
  split.
  - rewrite H1. reflexivity.
  - rewrite H2. reflexivity.
Defined.

(** ** Win conditions *)

Section WinFacts.

Lemma fold_left_sum_shift (f : UnitRef -> R) (l : list UnitRef) (a : R) :
  fold_left (fun acc u => acc + f u) l a
  = a + fold_right (fun u acc => f u + acc) 0 l.
Proof.
  revert a. induction l as [|x l IH]; intros a; cbn.
  - ring.
  - rewrite IH. ring.
Qed.

Lemma GetHealthPercentage_ratio (u : Unit) :
  MaxHP u <> 0%Z ->
  UnitOps.GetHealthPercentage u = IZR (HP u) / IZR (MaxHP u).
Proof.
  intros H. unfold UnitOps.GetHealthPercentage.
  destruct (Z.eqb_spec (MaxHP u) 0); [contradiction|reflexivity].
Qed.

Lemma GetHealthPercentage_dead (u : Unit) :
  HP u = 0%Z -> UnitOps.GetHealthPercentage u = 0.
Proof.
  intros H. unfold UnitOps.GetHealthPercentage. rewrite H.
  destruct (MaxHP u =? 0)%Z; [reflexivity|]. unfold Rdiv. ring.
Qed.

Lemma GetTotalHealth_mean (h : Heap) (a : Army) :
  ArmyOps.GetAllUnits a <> [] ->
  (forall u, In u (ArmyOps.GetAllUnits a) -> MaxHP (h u) <> 0%Z) ->
  ArmyOps.GetTotalHealth h a = spec_healthFraction h (ArmyOps.GetAllUnits a).
Proof.
  unfold ArmyOps.GetTotalHealth, spec_healthFraction.
  intros Hne Hmax. destruct (ArmyOps.GetAllUnits a) as [|x l] eqn:E;
    [contradiction|].
  rewrite fold_left_sum_shift. rewrite Rplus_0_l. f_equal.
  clear E Hne. revert Hmax. generalize (x :: l) as us.
  induction us as [|y us IH]; intros Hmax; cbn; [reflexivity|].
  rewrite GetHealthPercentage_ratio by (apply Hmax; now left).
  f_equal. apply IH. intros u Hu. apply Hmax. now right.
Qed.

Lemma checkWinConditions_frame (bm : BattleManager) (h : Heap) :
  ArmyA (Battle.checkWinConditions bm h) = ArmyA bm /\
  ArmyB (Battle.checkWinConditions bm h) = ArmyB bm /\
  BattleTime (Battle.checkWinConditions bm h) = BattleTime bm /\
  TimeLimit (Battle.checkWinConditions bm h) = TimeLimit bm.
Proof.
  unfold Battle.checkWinConditions.
  repeat match goal with |- context [if ?b then _ else _] => destruct b end;
    easy.
Qed.

Lemma updateArmies_clock (bm : BattleManager) (h : Heap) (dt : R) :
  BattleTime (fst (Battle.updateArmies bm h dt)) = BattleTime bm + dt /\
  TimeLimit (fst (Battle.updateArmies bm h dt)) = TimeLimit bm /\
  IsActive (fst (Battle.updateArmies bm h dt)) = IsActive bm /\
  Winner (fst (Battle.updateArmies bm h dt)) = Winner bm.
Proof.
  unfold Battle.updateArmies.
  destruct (ArmyOps.Update (ArmyA bm) h dt) as [a h1].
  destruct (ArmyOps.Update (ArmyB bm) h1 dt) as [b h2]. easy.
Qed.

End WinFacts.

(** C4.  An active [Update] advances the clock by [dt].  If the clock has
    reached the time limit the battle ends and the winner is the army with
    the strictly higher [GetTotalHealth], a draw exactly when they are
    equal; otherwise a draw when both armies are defeated, the other side
    when exactly one is, and the battle stays active when neither is.
    [GetTotalHealth] is the mean of [HP / maxHP] over all units of the army,
    a unit with no hit points contributing 0. *)
Theorem update_win_conditions (bm : BattleManager) (h : Heap) (dt : R) :
  IsActive bm = true ->
  let bm' := fst (Battle.Update bm h dt) in
  let h' := snd (Battle.Update bm h dt) in
  let healthA := ArmyOps.GetTotalHealth h' (ArmyA bm') in
  let healthB := ArmyOps.GetTotalHealth h' (ArmyB bm') in
  BattleTime bm' = BattleTime bm + dt /\
  (if fge (BattleTime bm + dt) (TimeLimit bm) then
     IsActive bm' = false /\
     (healthA > healthB -> Winner bm' = 0%Z) /\
     (healthB > healthA -> Winner bm' = 1%Z) /\
     (healthA = healthB <-> Winner bm' = 2%Z)
   else
     match ArmyOps.IsDefeated h' (ArmyA bm'), ArmyOps.IsDefeated h' (ArmyB bm') with
     | true, true => IsActive bm' = false /\ Winner bm' = 2%Z
     | true, false => IsActive bm' = false /\ Winner bm' = 1%Z
     | false, true => IsActive bm' = false /\ Winner bm' = 0%Z
     | false, false => IsActive bm' = true /\ Winner bm' = Winner bm
     end) /\
  (forall a, a = ArmyA bm' \/ a = ArmyB bm' ->
     (ArmyOps.GetAllUnits a <> [] ->
      (forall u, In u (ArmyOps.GetAllUnits a) -> MaxHP (h' u) <> 0%Z) ->
      ArmyOps.GetTotalHealth h' a = spec_healthFraction h' (ArmyOps.GetAllUnits a)) /\
     (forall u, HP (h' u) = 0%Z -> UnitOps.GetHealthPercentage (h' u) = 0)).
Proof.
  intros Hact. unfold Battle.Update. rewrite Hact. cbn [negb].
  pose proof (updateArmies_clock bm h dt) as Hc.
  destruct (Battle.updateArmies bm h dt) as [bm1 h2]. cbn [fst snd] in *.
  destruct Hc as (Ht & Hl & Ha & Hw).
  set (h5 := Battle.processCombat bm1 _).
  destruct (checkWinConditions_frame bm1 h5) as (HA & HB & HT & HL).
  cbv zeta. rewrite HA, HB, HT, Ht. split; [reflexivity|]. split.
  - unfold Battle.checkWinConditions. rewrite Ht, Hl.
    destruct (fge (BattleTime bm + dt) (TimeLimit bm)).
    + unfold fgt.
      destruct (flt _ _) eqn:E1.
      * apply flt_true_iff in E1. cbn. repeat split; intros; lra || lia.
      * apply flt_false_iff in E1. destruct (flt _ _) eqn:E2.
        -- apply flt_true_iff in E2. cbn. repeat split; intros; lra || lia.
        -- apply flt_false_iff in E2. cbn. repeat split; intros; lra || lia.
    + destruct (ArmyOps.IsDefeated h5 (ArmyA bm1)),
               (ArmyOps.IsDefeated h5 (ArmyB bm1)); cbn; rewrite ?Ha, ?Hw; auto.
  - intros a _. split.
    + apply GetTotalHealth_mean.
    + intros u. apply GetHealthPercentage_dead.
Qed.

Lemma update_win_conditions_witness :
  BattleTime (fst (Battle.Update Sample.duelBattle Sample.duel 1)) = 0 + 1.
Proof.
  exact (proj1 (update_win_conditions Sample.duelBattle Sample.duel 1 eq_refl)).
Defined.

(** ** AIBehavior.Update *)

Section AIFacts.

Import UnitOps AIOps.

Lemma selectTarget_step_invisible (h : Heap) (r e : UnitRef)
  (acc : option UnitRef * R) :
  visible h r e = false -> selectTarget_step h (h r) acc e = acc.
Proof.
  unfold visible, selectTarget_step, fgt. intros H.
  destruct (IsAlive (h e)); cbn in *; [|reflexivity].
  destruct (IsRetreating (h e)); cbn in *; [reflexivity|].
  apply fle_false_iff in H. apply flt_true_iff in H. now rewrite H.
Qed.

Lemma selectTarget_loop_invisible (h : Heap) (r : UnitRef)
  (enemies : list UnitRef) (acc : option UnitRef * R) :
  (forall e, In e enemies -> visible h r e = false) ->
  fold_left (selectTarget_step h (h r)) enemies acc = acc.
Proof.
  revert acc. induction enemies as [|e l IH]; intros acc H; cbn; [reflexivity|].
  rewrite selectTarget_step_invisible by (apply H; now left).
  apply IH. intros e' He'. apply H. now right.
Qed.

Lemma decideAction_TargetEnemy (ai : AIBehavior) (h : Heap) (r : UnitRef)
  (d : R) : TargetEnemy (decideAction ai h r d) = TargetEnemy ai.
Proof.
  unfold decideAction. destruct (TargetEnemy ai) eqn:E; [|assumption].
  repeat match goal with |- context [if ?b then _ else _] => destruct b end;
    assumption.
Qed.

End AIFacts.

(** C8.  On a decision cycle in which no enemy passes the filters the
    target becomes nil and the action [Idle], and [Update] returns before
    [executeAction]: the store, and with it the movement target of the
    unit, is left as it was. *)
Theorem idle_cycle_leaves_movement_target (ai : AIBehavior) (h : Heap)
  (r : UnitRef) (enemies : list UnitRef) (dt : R) :
  IsAlive (h r) = true -> IsRetreating (h r) = false ->
  DecisionCooldown ai <= LastDecisionTime ai + dt ->
  (forall e, In e enemies -> visible h r e = false) ->
  TargetEnemy (fst (AIOps.Update ai h r enemies dt)) = None /\
  CurrentAction (fst (AIOps.Update ai h r enemies dt)) = AIActionIdle /\
  snd (AIOps.Update ai h r enemies dt) = h.
Proof.
  intros Ha Hr Hc Hv. unfold AIOps.Update. rewrite Ha, Hr. cbn.
  rewrite (proj2 (flt_false_iff _ _)) by assumption.
  unfold AIOps.selectTarget, AIOps.selectTarget_loop.
  rewrite selectTarget_loop_invisible by assumption. cbn. auto.
Qed.

(** The lone marching unit keeps walking to [(100, 0)] although it is now
    [Idle] at [(0, 0)]. *)
Lemma idle_cycle_leaves_movement_target_witness :
  let r := AIOps.Update (UnitOps.NewAIBehavior UnitTypeInfantry)
                        Sample.marching 0%nat [] 0.1 in
  CurrentAction (fst r) = AIActionIdle /\
  Target (snd r 0%nat) = mkVector2D 100 0 /\
  Position (snd r 0%nat) = mkVector2D 0 0.
Proof.
  cbv zeta.
  destruct (idle_cycle_leaves_movement_target
              (UnitOps.NewAIBehavior UnitTypeInfantry) Sample.marching 0%nat [] 0.1)
    as (_ & H1 & H2).
  - reflexivity.
  - reflexivity.
  - cbn. lra.
  - intros e [].
  - rewrite H1, H2. repeat split.
Defined.

Section AIExecution.

Import UnitOps AIOps.


Lemma Normalize_horizontal (v : Vector2D) :
  Y v = 0 -> 0 < X v -> Vec.Normalize v = mkVector2D 1 0.
Proof.
  intros Hy Hx. unfold Vec.Normalize, Vec.Length. rewrite Hy.
  replace (X v * X v + 0 * 0) with (Rsqr (X v)) by (unfold Rsqr; ring).
  rewrite sqrt_Rsqr by lra. cbv zeta.
  rewrite (proj2 (feq_false_iff (X v) 0)) by lra.
  f_equal; field; lra.
Qed.

Lemma gated_tick_example :
  Target (snd (Update Sample.approaching Sample.duel 0%nat [1%nat] 0.01) 0%nat)
  = mkVector2D 0 0.
Proof.
  unfold AIOps.Update. cbn. fcmp. reflexivity.
Qed.

Lemma approach_example :
  Target (executeAction Sample.approaching Sample.duel 0%nat
            (Vec.Distance (Position (Sample.duel 0%nat)) (Position (Sample.duel 1%nat))) 0%nat)
  = mkVector2D 20 0.
Proof.
  unfold executeAction. cbn [CurrentAction Sample.approaching].
  unfold moveTowardsTarget. cbn [TargetEnemy Sample.approaching].
  rewrite duel_distance.
  rewrite Normalize_horizontal by (cbn; lra).
  unfold GetCollisionRadius. cbn. fcmp. rewrite modify_same. cbn.
  unfold Vec.Add, Vec.Mul. cbn. f_equal; lra.
Qed.

Lemma decideAction_LastDecisionTime (ai : AIBehavior) (h : Heap) (r : UnitRef)
  (d : R) : LastDecisionTime (decideAction ai h r d) = LastDecisionTime ai.
Proof.
  unfold decideAction. destruct (TargetEnemy ai) eqn:E; [|reflexivity].
  repeat match goal with |- context [if ?b then _ else _] => destruct b end;
    reflexivity.
Qed.

End AIExecution.

(** C2, as stated, fails: on a tick inside the decision cooldown the unit
    of the sample duel, whose last decision was to approach, keeps the
    movement target [(0, 0)] where executing the approach gives [(20, 0)]. *)
Lemma execution_skipped_inside_cooldown : ~ spec_executes_every_tick.
Proof.
  intros H.
  specialize (H Sample.approaching Sample.duel 0%nat 1%nat [1%nat] 0.01).
  rewrite gated_tick_example, approach_example in H.
  assert (E : mkVector2D 0 0 = mkVector2D 20 0).
  { apply H; try reflexivity; cbn; auto; lra. }
  apply (f_equal X) in E. cbn in E. lra.
Qed.

(** C2, amended.  For a living unit that is not retreating, a tick inside
    the decision cooldown only advances the accumulator and leaves the store
    (and so the movement target) as it is; on a decision tick the
    accumulator is reset and, when a live target was selected, the store is
    the result of executing the action decided on that very tick. *)
Theorem execution_only_on_decision_ticks (ai : AIBehavior) (h : Heap)
  (r : UnitRef) (enemies : list UnitRef) (dt : R) :
  IsAlive (h r) = true -> IsRetreating (h r) = false ->
  let ai' := fst (AIOps.Update ai h r enemies dt) in
  let h' := snd (AIOps.Update ai h r enemies dt) in
  if flt (LastDecisionTime ai + dt) (DecisionCooldown ai)
  then h' = h /\ ai' = set_LastDecisionTime ai (LastDecisionTime ai + dt)
  else
    LastDecisionTime ai' = 0 /\
    match TargetEnemy ai' with
    | Some t =>
      IsAlive (h t) = true ->
      h' = AIOps.executeAction ai' h r
             (Vec.Distance (Position (h r)) (Position (h t)))
    | None => h' = h /\ CurrentAction ai' = AIActionIdle
    end.
Proof.
  intros Ha Hr. unfold AIOps.Update. rewrite Ha, Hr. cbn [negb orb].
  cbn [LastDecisionTime DecisionCooldown set_LastDecisionTime].
  destruct (flt _ _); [cbn; auto|].
  set (ai3 := AIOps.selectTarget _ h r enemies).
  assert (H0 : LastDecisionTime ai3 = 0) by reflexivity.
  clearbody ai3.
  destruct (TargetEnemy ai3) as [t|] eqn:Et.
  - destruct (IsAlive (h t)) eqn:Hat; cbn [negb fst snd].
    + rewrite decideAction_LastDecisionTime, decideAction_TargetEnemy, Et.
      split; [assumption|]. intros _. reflexivity.
    + cbn. rewrite Et. split; [assumption|]. rewrite Hat. discriminate.
  - cbn. rewrite Et. auto.
Qed.

Lemma execution_only_on_decision_ticks_witness :
  snd (AIOps.Update Sample.approaching Sample.duel 0%nat [1%nat] 0.01)
  = Sample.duel.
Proof.
  pose proof (execution_only_on_decision_ticks Sample.approaching Sample.duel
                0%nat [1%nat] 0.01 eq_refl eq_refl) as H.
  cbv zeta in H.
  rewrite (proj2 (flt_true_iff _ _)) in H by (cbn; lra).
  exact (proj1 H).
Defined.

(** ** Search loops that keep the first best candidate *)

Section FirstBest.

Variable better : R -> R -> Prop.
Variable betterb : R -> R -> bool.
Hypothesis betterb_spec : forall a b, betterb a b = true <-> better a b.
Hypothesis better_trans : forall a b c, better a b -> better b c -> better a c.
Hypothesis better_neg : forall a b c, better a b -> ~ better c b -> better a c.

Variable ok : UnitRef -> bool.
Variable key : UnitRef -> R.
Variable init : R.

Variable step : option UnitRef * R -> UnitRef -> option UnitRef * R.
Hypothesis step_eq :
  forall acc e,
    step acc e
    = if ok e && betterb (key e) (snd acc) then (Some e, key e) else acc.

Let bound (res : option UnitRef) : R :=
  match res with
  | None => init
  | Some t => key t
  end.

Lemma fold_first_best (l : list UnitRef) :
  (forall e, In e l -> ok e = true -> better (key e) init) ->
  first_best better ok key l (fst (fold_left step l (None, init))) /\
  snd (fold_left step l (None, init))
  = bound (fst (fold_left step l (None, init))).
Proof.
  induction l as [|x l IH] using rev_ind; intros ok_init.
  - cbn. split; [intros e []|reflexivity].
  - assert (IH' := IH (fun e He => ok_init e (in_or_app l [x] e (or_introl He)))).
    clear IH. rename IH' into IH.
    assert (ok_x : ok x = true -> better (key x) init).
    { apply ok_init. apply in_or_app. right. now left. }
    rewrite fold_left_app. cbn [fold_left].
    destruct (fold_left step l (None, init)) as [res b].
    cbn [fst snd] in IH. destruct IH as [IH Hb]. subst b.
    rewrite step_eq. cbn [snd].
    destruct (ok x) eqn:Hok; cbn [andb].
    + destruct (betterb (key x) (bound res)) eqn:Hbt; cbn [fst snd].
      * apply betterb_spec in Hbt. split; [|reflexivity].
        exists l, []. split; [reflexivity|]. split; [assumption|]. split.
        -- intros e He Hoke. destruct res as [t|]; cbn in IH, Hbt.
           ++ destruct IH as (pre & post & -> & Hokt & Hpre & Hpost).
              apply in_app_or in He. destruct He as [He|[<-|He]].
              ** eapply better_trans; eauto.
              ** assumption.
              ** eapply better_neg; eauto.
           ++ rewrite IH in Hoke by assumption. discriminate.
        -- intros e [].
      * assert (Hn : ~ better (key x) (bound res)).
        { intros Hc. apply betterb_spec in Hc. congruence. }
        split; [|reflexivity].
        destruct res as [t|]; cbn in IH, Hn |- *.
        -- destruct IH as (pre & post & -> & Hokt & Hpre & Hpost).
           exists pre, (post ++ [x]).
           split; [now rewrite <- app_assoc|]. split; [assumption|].
           split; [assumption|].
           intros e He Hoke. apply in_app_or in He.
           destruct He as [He|[<-|[]]]; auto.
        -- exfalso. apply Hn. now apply ok_x.
    + cbn [fst snd]. split; [|reflexivity].
      destruct res as [t|]; cbn in IH |- *.
      * destruct IH as (pre & post & -> & Hokt & Hpre & Hpost).
        exists pre, (post ++ [x]).
        split; [now rewrite <- app_assoc|]. split; [assumption|].
        split; [assumption|].
        intros e He Hoke. apply in_app_or in He.
        destruct He as [He|[<-|[]]]; auto. congruence.
      * intros e He. apply in_app_or in He. destruct He as [He|[<-|[]]]; auto.
Qed.

End FirstBest.

(** ** Combat resolution *)

Section CombatFacts.

Import UnitOps Battle.

Lemma Attack_frame {A : Type} (p : Unit -> A) :
  (forall u a, p (set_Animation u a) = p u) ->
  (forall u d, p (TakeDamage u d) = p u) ->
  (forall u v, p (set_LastAttackTime u v) = p u) ->
  forall h a t r, p (fst (Attack h a t) r) = p (h r).
Proof.
  intros H1 H2 H3 h a t r. unfold Attack.
  destruct (_ || _); [reflexivity|].
  destruct (fgt _ _); [reflexivity|].
  cbv zeta. cbn [fst].
  rewrite (modify_frame p) by (intros; apply H3).
  rewrite (modify_frame p) by (intros; apply H2).
  rewrite (modify_frame p) by (intros; apply H1).
  reflexivity.
Qed.

Lemma Attack_other (h : Heap) (a t r : UnitRef) :
  r <> a -> r <> t -> fst (Attack h a t) r = h r.
Proof.
  intros Ha Ht. unfold Attack.
  destruct (_ || _); [reflexivity|].
  destruct (fgt _ _); [reflexivity|].
  cbv zeta. cbn [fst].
  now rewrite !modify_other by assumption.
Qed.

Lemma TakeDamage_Position u d : Position (TakeDamage u d) = Position u.
Proof. apply TakeDamage_frame. Qed.


Lemma combatStep_frame {A : Type} (p : Unit -> A) :
  (forall u a, p (set_Animation u a) = p u) ->
  (forall u d, p (TakeDamage u d) = p u) ->
  (forall u v, p (set_LastAttackTime u v) = p u) ->
  forall enemies h a r, p (combatStep enemies h a r) = p (h r).
Proof.
  intros H1 H2 H3 enemies h a r. unfold combatStep.
  destruct (negb _); [reflexivity|].
  destruct (findTarget h a enemies); [|reflexivity].
  now apply Attack_frame.
Qed.

Lemma attackPass_frame {A : Type} (p : Unit -> A) :
  (forall u a, p (set_Animation u a) = p u) ->
  (forall u d, p (TakeDamage u d) = p u) ->
  (forall u v, p (set_LastAttackTime u v) = p u) ->
  forall attackers enemies h r, p (attackPass attackers enemies h r) = p (h r).
Proof.
  intros H1 H2 H3 attackers enemies. unfold attackPass.
  induction attackers as [|a l IH]; intros h r; cbn; [reflexivity|].
  rewrite IH. now apply combatStep_frame.
Qed.

Lemma processCombat_frame {A : Type} (p : Unit -> A) :
  (forall u a, p (set_Animation u a) = p u) ->
  (forall u d, p (TakeDamage u d) = p u) ->
  (forall u v, p (set_LastAttackTime u v) = p u) ->
  forall bm h r, p (processCombat bm h r) = p (h r).
Proof.
  intros H1 H2 H3 bm h r. unfold processCombat.
  rewrite !attackPass_frame by assumption. reflexivity.
Qed.


Lemma GetAliveUnits_spec (h : Heap) (a : Army) (u : UnitRef) :
  In u (ArmyOps.GetAliveUnits h a) <->
  In u (ArmyOps.GetAllUnits a) /\ IsAlive (h u) = true /\ IsRetreating (h u) = false.
Proof.
  unfold ArmyOps.GetAliveUnits. rewrite filter_In.
  destruct (IsAlive (h u)), (IsRetreating (h u)); cbn; intuition congruence.
Qed.


End CombatFacts.

Section CombatPass.

Import UnitOps Battle.


End CombatPass.



(** ** Target selection *)

Section TargetSelection.

Import UnitOps AIOps.

Lemma GetHealthPercentage_bounds (u : Unit) :
  (0 <= HP u <= MaxHP u)%Z -> 0 <= GetHealthPercentage u <= 1.
Proof.
  intros [H0 H1]. unfold GetHealthPercentage.
  destruct (Z.eqb_spec (MaxHP u) 0) as [E|E]; [lra|].
  assert (Hm : 0 < IZR (MaxHP u)) by (apply IZR_lt; lia).
  assert (Hh : 0 <= IZR (HP u)) by (apply IZR_le; lia).
  assert (Hle : IZR (HP u) <= IZR (MaxHP u)) by (apply IZR_le; lia).
  split.
  - apply Rmult_le_pos; [assumption|]. left. now apply Rinv_0_lt_compat.
  - apply (Rmult_le_reg_r (IZR (MaxHP u))); [assumption|].
    unfold Rdiv. rewrite Rmult_assoc, Rinv_l by lra. lra.
Qed.

Lemma calculateTargetScore_formula (unit enemy : Unit) (d : R) :
  calculateTargetScore unit enemy d
  = 1000 - d * 0.05 + (1 - GetHealthPercentage enemy) * 30
    + (if IsLeader enemy then 50 else 0)
    + (if fle d (Range unit) then 100 else 0)
    + spec_typeBonus (Type_ enemy).
Proof.
  unfold calculateTargetScore, spec_typeBonus.
  destruct (IsLeader enemy), (fle d (Range unit)),
    (String.eqb (Type_ enemy) UnitTypeMage),
    (String.eqb (Type_ enemy) UnitTypeArcher),
    (String.eqb (Type_ enemy) UnitTypeInfantry); ring.
Qed.

Lemma spec_typeBonus_nonneg (t : UnitType) : 0 <= spec_typeBonus t.
Proof.
  unfold spec_typeBonus.
  repeat match goal with |- context [if ?b then _ else _] => destruct b end; lra.
Qed.

Lemma selectTarget_step_eq (h : Heap) (r : UnitRef) (acc : option UnitRef * R)
  (e : UnitRef) :
  selectTarget_step h (h r) acc e
  = if visible h r e
       && fgt (calculateTargetScore (h r) (h e)
                 (Vec.Distance (Position (h r)) (Position (h e)))) (snd acc)
    then (Some e,
          calculateTargetScore (h r) (h e)
            (Vec.Distance (Position (h r)) (Position (h e))))
    else acc.
Proof.
  unfold selectTarget_step, visible, fgt.
  destruct (IsAlive (h e)); cbn; [|reflexivity].
  destruct (IsRetreating (h e)); cbn; [reflexivity|].
  unfold fle, flt.
  destruct (Rle_dec _ (GetSightRange (h r))), (Rlt_dec (GetSightRange (h r)) _);
    cbn; try reflexivity; lra.
Qed.

Lemma visible_score_lower (h : Heap) (r e : UnitRef) :
  (0 <= HP (h e) <= MaxHP (h e))%Z -> visible h r e = true ->
  750 <= calculateTargetScore (h r) (h e)
           (Vec.Distance (Position (h r)) (Position (h e))).
Proof.
  intros Hhp Hv. rewrite calculateTargetScore_formula.
  pose proof (GetHealthPercentage_bounds _ Hhp) as Hb.
  pose proof (spec_typeBonus_nonneg (Type_ (h e))) as Ht.
  unfold visible in Hv. apply andb_prop in Hv. destruct Hv as [_ Hv].
  apply fle_true_iff in Hv. unfold GetSightRange in Hv.
  destruct (IsLeader (h e)), (fle _ (Range (h r))); lra.
Qed.

Lemma selectTarget_first_best (ai : AIBehavior) (h : Heap) (r : UnitRef)
  (enemies : list UnitRef) :
  (forall e, In e enemies -> (0 <= HP (h e) <= MaxHP (h e))%Z) ->
  first_best Rgt (visible h r)
    (fun e => calculateTargetScore (h r) (h e)
                (Vec.Distance (Position (h r)) (Position (h e))))
    enemies (TargetEnemy (selectTarget ai h r enemies)).
Proof.
  intros Hhp. unfold selectTarget, selectTarget_loop. cbn [TargetEnemy set_TargetEnemy].
  apply (fold_first_best Rgt fgt) with (init := -1).
  - intros a b. unfold fgt. rewrite flt_true_iff. unfold Rgt. tauto.
  - intros x y z; unfold Rgt; lra.
  - intros x y z; unfold Rgt; lra.
  - intros acc e. apply selectTarget_step_eq.
  - intros e He Hv. pose proof (visible_score_lower h r e (Hhp e He) Hv).
    unfold Rgt. lra.
Qed.

End TargetSelection.
Section SkirmishFacts.

Import UnitOps AIOps.

Lemma skirmish_distance_1 :
  Vec.Distance (Position (Sample.skirmish 0%nat)) (Position (Sample.skirmish 1%nat)) = 18.
Proof. rewrite Distance_horizontal; cbn; lra. Qed.

Lemma skirmish_distance_2 :
  Vec.Distance (Position (Sample.skirmish 0%nat)) (Position (Sample.skirmish 2%nat)) = 100.
Proof. rewrite Distance_horizontal; cbn; lra. Qed.

Lemma skirmish_health (r : UnitRef) :
  GetHealthPercentage (Sample.skirmish r) = 1.
Proof.
  destruct r as [|[|r]]; unfold GetHealthPercentage; cbn; lra.
Qed.

Lemma skirmish_score_1 :
  calculateTargetScore (Sample.skirmish 0%nat) (Sample.skirmish 1%nat) 18 = 1009.1.
Proof.
  rewrite calculateTargetScore_formula, skirmish_health. cbn. fcmp. lra.
Qed.

Lemma skirmish_score_2 :
  calculateTargetScore (Sample.skirmish 0%nat) (Sample.skirmish 2%nat) 100 = 1055.
Proof.
  rewrite calculateTargetScore_formula, skirmish_health. cbn. fcmp. lra.
Qed.

Lemma skirmish_choice (ai : AIBehavior) :
  TargetEnemy (selectTarget ai Sample.skirmish 0%nat [1%nat; 2%nat]) = Some 2%nat.
Proof.
  unfold selectTarget, selectTarget_loop. cbn [TargetEnemy set_TargetEnemy fold_left].
  rewrite !selectTarget_step_eq. unfold visible.
  rewrite skirmish_distance_1, skirmish_distance_2.
  rewrite skirmish_score_1, skirmish_score_2. cbn [snd]. unfold GetSightRange.
  cbn [IsAlive IsRetreating Sample.skirmish Sample.soldier Sample.place
       set_Target set_Position NewUnit negb andb].
  fcmp. cbn [andb snd]. fcmp. reflexivity.
Qed.

Lemma skirmish_spec_score_1 : spec_score Sample.skirmish 0%nat 1%nat = 1109.1.
Proof.
  unfold spec_score. rewrite skirmish_distance_1, skirmish_health.
  unfold GetCollisionRadius. cbn. fcmp. lra.
Qed.

Lemma skirmish_spec_score_2 : spec_score Sample.skirmish 0%nat 2%nat = 1055.
Proof.
  unfold spec_score. rewrite skirmish_distance_2, skirmish_health.
  unfold GetCollisionRadius. cbn. fcmp. lra.
Qed.

End SkirmishFacts.

(** C7, as stated, fails: in the sample skirmish the soldier at distance 18
    is within the effective range 21 but beyond the raw range 15; the
    specification's score ranks it first (1109.1 against 1055), the code
    selects the leader at distance 100. *)
Lemma bonus_uses_raw_range_not_effective : ~ spec_selects_max_effective.
Proof.
  intros H.
  specialize (H Sample.approaching Sample.skirmish 0%nat [1%nat; 2%nat]).
  rewrite skirmish_choice in H.
  destruct H as (pre & post & Hl & _ & Hpre & _).
  - intros e [<-|[<-|[]]]; cbn; lia.
  - destruct pre as [|a [|b pre]]; cbn in Hl.
    + discriminate.
    + injection Hl as <- _.
      specialize (Hpre 1%nat (or_introl eq_refl)).
      rewrite skirmish_spec_score_1, skirmish_spec_score_2 in Hpre.
      assert (Hv : visible Sample.skirmish 0%nat 1%nat = true).
      { unfold visible. rewrite skirmish_distance_1.
        unfold UnitOps.GetSightRange. cbn. fcmp. reflexivity. }
      specialize (Hpre Hv). unfold Rgt in Hpre. lra.
    + injection Hl as _ _ Hl. destruct pre; discriminate.
Qed.

(** C7, amended.  Among the enemies that are alive, not retreating and in
    sight, [selectTarget] keeps the first one that maximises
    [1000 - distance * 0.05 + (1 - health) * 30 + (leader ? 50 : 0)
     + (distance <= Range ? 100 : 0) + typeBonus]: the bonus of 100 is tied
    to the raw [Range] of the selecting unit.  The type bonus ranks mage
    over archer over infantry over every other type.  Enemies are assumed to
    have hit points between 0 and their maximum. *)
Theorem selectTarget_first_max_raw_range_bonus (ai : AIBehavior) (h : Heap)
  (r : UnitRef) (enemies : list UnitRef) :
  (forall e, In e enemies -> (0 <= HP (h e) <= MaxHP (h e))%Z) ->
  first_best Rgt (visible h r)
    (fun e => AIOps.calculateTargetScore (h r) (h e)
                (Vec.Distance (Position (h r)) (Position (h e))))
    enemies (TargetEnemy (AIOps.selectTarget ai h r enemies)) /\
  (forall unit enemy d,
     AIOps.calculateTargetScore unit enemy d
     = 1000 - d * 0.05 + (1 - UnitOps.GetHealthPercentage enemy) * 30
       + (if IsLeader enemy then 50 else 0)
       + (if fle d (Range unit) then 100 else 0)
       + spec_typeBonus (Type_ enemy)) /\
  spec_typeBonus UnitTypeMage > spec_typeBonus UnitTypeArcher /\
  spec_typeBonus UnitTypeArcher > spec_typeBonus UnitTypeInfantry /\
  (forall t, t <> UnitTypeMage -> t <> UnitTypeArcher -> t <> UnitTypeInfantry ->
             spec_typeBonus UnitTypeInfantry > spec_typeBonus t).
Proof.
  intros Hhp. split; [now apply selectTarget_first_best|].
  split; [apply calculateTargetScore_formula|].
  unfold spec_typeBonus, Rgt. cbn. repeat split; try lra.
  intros t Hm Ha Hi.
  apply String.eqb_neq in Hm, Ha, Hi. rewrite Hm, Ha, Hi. lra.
Qed.

Lemma selectTarget_first_max_raw_range_bonus_witness :
  first_best Rgt (visible Sample.skirmish 0%nat)
    (fun e => AIOps.calculateTargetScore (Sample.skirmish 0%nat) (Sample.skirmish e)
                (Vec.Distance (Position (Sample.skirmish 0%nat))
                              (Position (Sample.skirmish e))))
    [1%nat; 2%nat]
    (TargetEnemy (AIOps.selectTarget Sample.approaching Sample.skirmish 0%nat
                                     [1%nat; 2%nat])).
Proof.
  apply (selectTarget_first_max_raw_range_bonus Sample.approaching
           Sample.skirmish 0%nat [1%nat; 2%nat]).
  intros e [<-|[<-|[]]]; cbn; lia.
Defined.

(** ** Collision resolution *)

Section CollisionFacts.

Import UnitOps.

Lemma Length_Sub_sym (p q : Vector2D) :
  Vec.Length (Vec.Sub q p) = Vec.Distance p q.
Proof. unfold Vec.Length, Vec.Distance, Vec.Sub. cbn. f_equal. ring. Qed.

Lemma Distance_sqr (p q : Vector2D) :
  Vec.Distance p q * Vec.Distance p q
  = (X p - X q) * (X p - X q) + (Y p - Y q) * (Y p - Y q).
Proof.
  unfold Vec.Distance. cbv zeta. apply sqrt_sqrt.
  pose proof (Rle_0_sqr (X p - X q)). pose proof (Rle_0_sqr (Y p - Y q)).
  unfold Rsqr in *. lra.
Qed.

Lemma Normalize_nonzero (v : Vector2D) :
  Vec.Length v <> 0 ->
  Vec.Normalize v = mkVector2D (X v / Vec.Length v) (Y v / Vec.Length v).
Proof.
  intros H. unfold Vec.Normalize. cbv zeta.
  now rewrite (proj2 (feq_false_iff _ _)).
Qed.

(** Pushing two points apart along their connecting line by half of
    [c - d] each leaves them at distance [c]. *)
Lemma push_apart_distance (p q : Vector2D) (c : R) :
  let d := Vec.Distance p q in
  let dir := Vec.Normalize (Vec.Sub q p) in
  0 < d -> d < c ->
  Vec.Distance (Vec.Sub p (Vec.Mul dir ((c - d) * 0.5)))
               (Vec.Add q (Vec.Mul dir ((c - d) * 0.5))) = c.
Proof.
  cbv zeta. intros Hd Hc.
  replace 0.5 with (/ 2) by lra.
  rewrite Normalize_nonzero by (rewrite Length_Sub_sym; lra).
  rewrite Length_Sub_sym.
  pose proof (Distance_sqr p q) as HL.
  set (L := Vec.Distance p q) in *.
  unfold Vec.Distance at 1. unfold Vec.Sub, Vec.Add, Vec.Mul. cbn [X Y].
  match goal with |- sqrt ?e = _ =>
    replace e with (Rsqr c)
  end.
  - apply sqrt_Rsqr. lra.
  - unfold Rsqr. symmetry.
    transitivity (((X p - X q) * (X p - X q) + (Y p - Y q) * (Y p - Y q))
                  * (c / L * (c / L))); [field; lra|].
    rewrite <- HL. field. lra.
Qed.

Lemma push_length (p q : Vector2D) (s : R) :
  0 < Vec.Distance p q -> 0 <= s ->
  Vec.Length (Vec.Mul (Vec.Normalize (Vec.Sub q p)) s) = s.
Proof.
  intros Hd Hs.
  rewrite Normalize_nonzero by (rewrite Length_Sub_sym; lra).
  rewrite Length_Sub_sym.
  pose proof (Distance_sqr p q) as HL.
  set (L := Vec.Distance p q) in *.
  unfold Vec.Length, Vec.Sub, Vec.Mul. cbn [X Y].
  match goal with |- sqrt ?e = _ => replace e with (Rsqr s) end.
  - now apply sqrt_Rsqr.
  - unfold Rsqr. symmetry.
    transitivity (((X p - X q) * (X p - X q) + (Y p - Y q) * (Y p - Y q))
                  * (s / L * (s / L))); [field; lra|].
    rewrite <- HL. field. lra.
Qed.

End CollisionFacts.

(** C6, as stated, fails: two living soldiers on the same spot overlap, and
    [ResolveCollision] leaves them where they are (its guard asks for a
    positive distance). *)
Lemma coincident_units_stay_stacked : ~ spec_collision_touching.
Proof.
  intros H.
  specialize (H Sample.stacked 0%nat 1%nat).
  assert (Hd : Vec.Distance (Position (Sample.stacked 0%nat))
                            (Position (Sample.stacked 1%nat)) = 0).
  { rewrite Distance_horizontal; cbn; lra. }
  assert (Hres : UnitOps.ResolveCollision Sample.stacked 0%nat 1%nat
                 = Sample.stacked).
  { unfold UnitOps.ResolveCollision. rewrite Hd. cbn. fcmp.
    rewrite Bool.andb_false_r. reflexivity. }
  rewrite Hres, Hd in H.
  unfold UnitOps.GetCollisionRadius in H. cbn in H.
  assert (E : 0 = 3 * 1 + 3 * 1).
  { apply H; try reflexivity; try lra. discriminate. }
  lra.
Qed.

(** C6, amended.  For two distinct living units whose centres are at a
    positive distance smaller than the sum of their collision radii,
    [ResolveCollision] leaves them exactly touching; the displacement of the
    first is the negation of that of the second, each of length half the
    overlap along the connecting line, and no other unit is touched.  Units
    at distance 0 are left where they are. *)
Theorem resolveCollision_touching_when_apart (h : Heap) (a b : UnitRef) :
  a <> b -> IsAlive (h a) = true -> IsAlive (h b) = true ->
  let d := Vec.Distance (Position (h a)) (Position (h b)) in
  let c := UnitOps.GetCollisionRadius (h a) + UnitOps.GetCollisionRadius (h b) in
  let h' := UnitOps.ResolveCollision h a b in
  (d = 0 -> h' = h) /\
  (0 < d < c ->
   Vec.Distance (Position (h' a)) (Position (h' b)) = c /\
   Vec.Sub (Position (h' a)) (Position (h a))
   = Vec.Mul (Vec.Sub (Position (h' b)) (Position (h b))) (-1) /\
   Vec.Sub (Position (h' b)) (Position (h b))
   = Vec.Mul (Vec.Normalize (Vec.Sub (Position (h b)) (Position (h a))))
             ((c - d) / 2) /\
   Vec.Length (Vec.Sub (Position (h' b)) (Position (h b))) = (c - d) / 2 /\
   (forall r, r <> a -> r <> b -> h' r = h r)).
Proof.
  intros Hab Ha Hb. cbv zeta. unfold UnitOps.ResolveCollision.
  rewrite Ha, Hb. cbn [negb orb]. split.
  - intros ->. unfold fgt. rewrite (proj2 (flt_false_iff 0 0)) by lra.
    now rewrite Bool.andb_false_r.
  - intros [Hd Hc]. unfold fgt.
    rewrite (proj2 (flt_true_iff _ _) Hc), (proj2 (flt_true_iff _ _) Hd).
    cbn [andb].
    assert (Hnn : 0 <= (UnitOps.GetCollisionRadius (h a)
                        + UnitOps.GetCollisionRadius (h b)
                        - Vec.Distance (Position (h a)) (Position (h b))) / 2)
      by lra.
    assert (Hhalf : forall x : R, x * 0.5 = x / 2) by (intros; lra).
    rewrite !Hhalf.
    set (p := Position (h a)). set (q := Position (h b)).
    set (c := UnitOps.GetCollisionRadius (h a) + UnitOps.GetCollisionRadius (h b)).
    set (dir := Vec.Normalize (Vec.Sub q p)).
    set (d := Vec.Distance p q) in *.
    rewrite modify_other by assumption.
    rewrite !modify_same. rewrite modify_other by (now apply not_eq_sym).
    cbn [Position set_Position]. fold p q.
    split.
    { pose proof (push_apart_distance p q c) as Hp. cbv zeta in Hp.
      rewrite !Hhalf in Hp. apply Hp; assumption. }
    split.
    { unfold Vec.Sub, Vec.Add, Vec.Mul. cbn [X Y]. f_equal; ring. }
    split.
    { unfold Vec.Sub, Vec.Add, Vec.Mul. cbn [X Y]. f_equal; ring. }
    split.
    { replace (Vec.Sub (Vec.Add q (Vec.Mul dir ((c - d) / 2))) q)
        with (Vec.Mul dir ((c - d) / 2))
        by (unfold Vec.Sub, Vec.Add, Vec.Mul; cbn [X Y]; f_equal; ring).
      apply push_length; assumption. }
    intros r Hra Hrb. now rewrite !modify_other by assumption.
Qed.

Lemma resolveCollision_touching_when_apart_witness :
  Vec.Distance
    (Position (UnitOps.ResolveCollision Sample.crowded 0%nat 1%nat 0%nat))
    (Position (UnitOps.ResolveCollision Sample.crowded 0%nat 1%nat 1%nat))
  = 6.
Proof.
  assert (Hd : Vec.Distance (Position (Sample.crowded 0%nat))
                            (Position (Sample.crowded 1%nat)) = 4).
  { rewrite Distance_horizontal; cbn; lra. }
  destruct (resolveCollision_touching_when_apart Sample.crowded 0%nat 1%nat)
    as [_ H]; [discriminate|reflexivity|reflexivity|].
  assert (Hc : UnitOps.GetCollisionRadius (Sample.crowded 0%nat)
               + UnitOps.GetCollisionRadius (Sample.crowded 1%nat) = 6).
  { unfold UnitOps.GetCollisionRadius. cbn. lra. }
  rewrite Hd, Hc in H.
  destruct H as [H _]; [lra|]. exact H.
Defined.

(** ** Relations between the unit before and after an operation *)

Section HeapRel.

Import UnitOps.

Variable Rel : Unit -> Unit -> Prop.
Hypothesis Rel_refl : forall u, Rel u u.
Hypothesis Rel_trans : forall u v w, Rel u v -> Rel v w -> Rel u w.

Lemma heap_rel_refl (h : Heap) : heap_rel Rel h h.
Proof. intros r. apply Rel_refl. Qed.

Lemma heap_rel_trans (h1 h2 h3 : Heap) :
  heap_rel Rel h1 h2 -> heap_rel Rel h2 h3 -> heap_rel Rel h1 h3.
Proof. intros H1 H2 r. eapply Rel_trans; eauto. Qed.

Lemma modify_rel (h : Heap) (r : UnitRef) (f : Unit -> Unit) :
  Rel (h r) (f (h r)) -> heap_rel Rel h (modify h r f).
Proof.
  intros H r'. destruct (Nat.eq_dec r' r) as [->|Hne].
  - now rewrite modify_same.
  - rewrite modify_other by assumption. apply Rel_refl.
Qed.

Lemma fold_left_rel {A : Type} (f : Heap -> A -> Heap) (l : list A) :
  (forall h x, heap_rel Rel h (f h x)) ->
  forall h, heap_rel Rel h (fold_left f l h).
Proof.
  intros Hf. induction l as [|x l IH]; intros h; cbn.
  - apply heap_rel_refl.
  - eapply heap_rel_trans; [apply Hf|apply IH].
Qed.

(** The primitive writes of the engine. *)
Hypothesis Rel_Update : forall u dt, Rel u (UnitOps.Update u dt).
Hypothesis Rel_Target : forall u t, Rel u (set_Target u t).
Hypothesis Rel_Retreat : forall u e, Rel u (StartRetreating u e).
Hypothesis Rel_AI : forall u a, Rel u (set_AI u a).
Hypothesis Rel_Position : forall u p, Rel u (set_Position u p).
Hypothesis Rel_Animation : forall u a, Rel u (set_Animation u a).
Hypothesis Rel_Cooldown : forall u t, Rel u (set_LastAttackTime u t).
Hypothesis Rel_Damage :
  forall u d, (1 <= d)%Z -> in_int d -> Rel u (TakeDamage u d).

Lemma handleLeaderDeath_rel (g : Group) (h : Heap) :
  heap_rel Rel h (GroupOps.handleLeaderDeath g h).
Proof.
  unfold GroupOps.handleLeaderDeath. apply fold_left_rel.
  intros h0 m. destruct (_ && _); [|apply heap_rel_refl].
  apply modify_rel. apply Rel_Retreat.
Qed.

Lemma circleLoop_rel (g : Group) (n : nat) (l : list UnitRef) :
  forall i h, heap_rel Rel h (GroupOps.circleLoop g n i l h).
Proof.
  induction l as [|m l IH]; intros i h; cbn.
  - apply heap_rel_refl.
  - eapply heap_rel_trans; [|apply IH].
    destruct (IsRetreating (h m)); [apply heap_rel_refl|].
    apply modify_rel. apply Rel_Target.
Qed.

Lemma updateFormation_rel (g : Group) (h : Heap) :
  heap_rel Rel h (GroupOps.updateFormation g h).
Proof.
  unfold GroupOps.updateFormation, GroupOps.updateCircleFormation.
  destruct (negb _); [apply heap_rel_refl|].
  destruct (FormType (GFormation g)).
  destruct (GroupOps.getAliveMembers h g) eqn:E; [apply heap_rel_refl|].
  apply circleLoop_rel.
Qed.

Lemma updateMembers_rel (dt : R) (l : list UnitRef) (h : Heap) :
  heap_rel Rel h (GroupOps.updateMembers dt l h).
Proof.
  unfold GroupOps.updateMembers. apply fold_left_rel.
  intros h0 m. destruct (IsAlive (h0 m)); [|apply heap_rel_refl].
  apply modify_rel. apply Rel_Update.
Qed.

Lemma Group_Update_rel (g : Group) (h : Heap) (dt : R) :
  heap_rel Rel h (snd (GroupOps.Update g h dt)).
Proof.
  unfold GroupOps.Update.
  destruct (Leader g) as [l|]; [|apply handleLeaderDeath_rel].
  destruct (negb (IsAlive (h l))); [apply handleLeaderDeath_rel|].
  cbv zeta. cbn [snd].
  eapply heap_rel_trans;
    [apply (modify_rel h l (fun u => UnitOps.Update u dt)), Rel_Update|].
  eapply heap_rel_trans; [apply updateFormation_rel|].
  apply updateMembers_rel.
Qed.

Lemma updateGroups_rel (gs : list Group) (dt : R) :
  forall h, heap_rel Rel h (snd (ArmyOps.updateGroups gs h dt)).
Proof.
  induction gs as [|g gs IH]; intros h; cbn.
  - apply heap_rel_refl.
  - pose proof (Group_Update_rel g h dt) as Hg.
    destruct (GroupOps.Update g h dt) as [g' h']. cbn [snd] in Hg.
    pose proof (IH h') as Hr.
    destruct (ArmyOps.updateGroups gs h' dt) as [gs' h'']. cbn [snd] in *.
    eapply heap_rel_trans; eauto.
Qed.

Lemma Army_Update_rel (a : Army) (h : Heap) (dt : R) :
  heap_rel Rel h (snd (ArmyOps.Update a h dt)).
Proof.
  unfold ArmyOps.Update. pose proof (updateGroups_rel (Groups a) dt h) as H.
  destruct (ArmyOps.updateGroups (Groups a) h dt). exact H.
Qed.

Lemma updateArmies_rel (bm : BattleManager) (h : Heap) (dt : R) :
  heap_rel Rel h (snd (Battle.updateArmies bm h dt)).
Proof.
  unfold Battle.updateArmies.
  pose proof (Army_Update_rel (ArmyA bm) h dt) as HA.
  destruct (ArmyOps.Update (ArmyA bm) h dt) as [a h1]. cbn [snd] in HA.
  pose proof (Army_Update_rel (ArmyB bm) h1 dt) as HB.
  destruct (ArmyOps.Update (ArmyB bm) h1 dt) as [b h2]. cbn [snd] in *.
  eapply heap_rel_trans; eauto.
Qed.

Lemma executeAction_rel (ai : AIBehavior) (h : Heap) (r : UnitRef) (d : R) :
  heap_rel Rel h (AIOps.executeAction ai h r d).
Proof.
  unfold AIOps.executeAction, AIOps.moveTowardsTarget, AIOps.moveAwayFromTarget.
  destruct (CurrentAction ai); try apply heap_rel_refl;
    try (apply modify_rel; apply Rel_Target).
  - destruct (TargetEnemy ai); [|apply heap_rel_refl].
    destruct (fgt _ _); apply modify_rel; apply Rel_Target.
  - destruct (TargetEnemy ai); [|apply heap_rel_refl].
    destruct (fgt _ _); [|apply heap_rel_refl].
    apply modify_rel; apply Rel_Target.
Qed.

Lemma AI_Update_rel (ai : AIBehavior) (h : Heap) (r : UnitRef)
  (enemies : list UnitRef) (dt : R) :
  heap_rel Rel h (snd (AIOps.Update ai h r enemies dt)).
Proof.
  unfold AIOps.Update.
  destruct (_ || _); [apply heap_rel_refl|].
  destruct (flt _ _); [apply heap_rel_refl|].
  destruct (TargetEnemy _); [|apply heap_rel_refl].
  destruct (negb _); [apply heap_rel_refl|].
  apply executeAction_rel.
Qed.

Lemma runAI_rel (h : Heap) (r : UnitRef) (enemies : list UnitRef) (dt : R) :
  heap_rel Rel h (AIOps.runAI h r enemies dt).
Proof.
  unfold AIOps.runAI. destruct (AI (h r)) as [ai|]; [|apply heap_rel_refl].
  pose proof (AI_Update_rel ai h r enemies dt) as H.
  destruct (AIOps.Update ai h r enemies dt) as [ai' h']. cbn [snd] in H.
  eapply heap_rel_trans; [exact H|]. apply modify_rel. apply Rel_AI.
Qed.

Lemma aiPass_rel (units enemies : list UnitRef) (dt : R) (h : Heap) :
  heap_rel Rel h (Battle.aiPass units enemies dt h).
Proof.
  unfold Battle.aiPass. apply fold_left_rel. intros; apply runAI_rel.
Qed.

Lemma updateAI_rel (bm : BattleManager) (h : Heap) (dt : R) :
  heap_rel Rel h (Battle.updateAI bm h dt).
Proof.
  unfold Battle.updateAI. cbv zeta.
  eapply heap_rel_trans; apply aiPass_rel.
Qed.

Lemma ResolveCollision_rel (h : Heap) (a b : UnitRef) :
  heap_rel Rel h (ResolveCollision h a b).
Proof.
  unfold ResolveCollision.
  destruct (_ || _); [apply heap_rel_refl|].
  destruct (_ && _); [|apply heap_rel_refl].
  eapply heap_rel_trans; apply modify_rel; apply Rel_Position.
Qed.

Lemma collidePairs_rel (l : list UnitRef) :
  forall h, heap_rel Rel h (Battle.collidePairs l h).
Proof.
  induction l as [|u l IH]; intros h; cbn.
  - apply heap_rel_refl.
  - eapply heap_rel_trans; [|apply IH].
    unfold Battle.collideWith. apply fold_left_rel.
    intros h0 u2. destruct (IsCollidingWith _ _); [|apply heap_rel_refl].
    apply ResolveCollision_rel.
Qed.

Lemma handleCollisions_rel (bm : BattleManager) (h : Heap) :
  heap_rel Rel h (Battle.handleCollisions bm h).
Proof. apply collidePairs_rel. Qed.

Lemma Attack_rel (h : Heap) (a t : UnitRef) :
  heap_rel Rel h (fst (Attack h a t)).
Proof.
  unfold Attack.
  destruct (_ || _); [apply heap_rel_refl|].
  destruct (fgt _ _); [apply heap_rel_refl|].
  cbv zeta. cbn [fst].
  match goal with |- heap_rel _ _ (modify (modify ?h1 _ _) _ _) =>
    apply (heap_rel_trans h h1)
  end.
  { apply modify_rel, Rel_Animation. }
  eapply heap_rel_trans; [|apply modify_rel, Rel_Cooldown].
  apply modify_rel. apply Rel_Damage.
  - destruct (_ <? 1)%Z eqn:E; [lia|]. apply Z.ltb_ge in E. exact E.
  - destruct (_ <? 1)%Z; [unfold in_int; lia|]. apply wrap64_in_int.
Qed.

Lemma attackPass_rel (attackers enemies : list UnitRef) (h : Heap) :
  heap_rel Rel h (Battle.attackPass attackers enemies h).
Proof.
  unfold Battle.attackPass. apply fold_left_rel. intros h0 a.
  unfold Battle.combatStep.
  destruct (negb _); [apply heap_rel_refl|].
  destruct (Battle.findTarget _ _ _); [apply Attack_rel|apply heap_rel_refl].
Qed.

Lemma processCombat_rel (bm : BattleManager) (h : Heap) :
  heap_rel Rel h (Battle.processCombat bm h).
Proof.
  unfold Battle.processCombat. cbv zeta.
  eapply heap_rel_trans; apply attackPass_rel.
Qed.

Lemma Battle_Update_rel (bm : BattleManager) (h : Heap) (dt : R) :
  heap_rel Rel h (snd (Battle.Update bm h dt)).
Proof.
  unfold Battle.Update. destruct (negb _); [apply heap_rel_refl|].
  pose proof (updateArmies_rel bm h dt) as H.
  destruct (Battle.updateArmies bm h dt) as [bm1 h2]. cbn [snd] in *.
  eapply heap_rel_trans; [exact H|].
  eapply heap_rel_trans; [apply updateAI_rel|].
  eapply heap_rel_trans; [apply handleCollisions_rel|].
  apply processCombat_rel.
Qed.

End HeapRel.

(** ** Hit points, death and retreat *)

Section UnitInvariants.

Import UnitOps.

Lemma unit_step_refl (u : Unit) : unit_step u u.
Proof.
  unfold unit_step. split; [reflexivity|]. split; [|auto].
  intros H. split; [assumption|lia].
Qed.

Lemma unit_step_trans (u v w : Unit) :
  unit_step u v -> unit_step v w -> unit_step u w.
Proof.
  unfold unit_step. intros (M1 & K1 & A1 & R1) (M2 & K2 & A2 & R2).
  split; [congruence|]. split; [|auto].
  intros H. destruct (K1 H) as [Hv H1]. destruct (K2 Hv) as [Hw H2].
  split; [assumption|lia].
Qed.

(** An operation that leaves the four fields alone is a step. *)
Lemma unit_step_same (u u' : Unit) :
  HP u' = HP u -> MaxHP u' = MaxHP u -> IsAlive u' = IsAlive u ->
  IsRetreating u' = IsRetreating u -> unit_step u u'.
Proof.
  unfold unit_step, unit_ok. intros -> -> -> ->.
  split; [reflexivity|]. split; [|auto].
  intros H. split; [assumption|lia].
Qed.

Lemma Unit_Update_fields (u : Unit) (dt : R) :
  HP (Update u dt) = HP u /\ MaxHP (Update u dt) = MaxHP u /\
  IsAlive (Update u dt) = IsAlive u /\
  IsRetreating (Update u dt) = IsRetreating u /\
  Target (Update u dt) = Target u /\ AI (Update u dt) = AI u.
Proof.
  unfold Update. destruct (negb (IsAlive u)); [easy|].
  cbv zeta. destruct (fgt (Vec.Distance _ _) _); easy.
Qed.

Lemma unit_step_Update (u : Unit) (dt : R) : unit_step u (Update u dt).
Proof. apply unit_step_same; apply Unit_Update_fields. Qed.

Lemma unit_step_StartRetreating (u : Unit) (e : Vector2D) :
  unit_step u (StartRetreating u e).
Proof.
  unfold unit_step, unit_ok. cbn.
  split; [reflexivity|]. split; [|auto].
  intros H. split; [assumption|lia].
Qed.

Lemma unit_step_TakeDamage (u : Unit) (d : Z) :
  (1 <= d)%Z -> in_int d -> unit_step u (TakeDamage u d).
Proof.
  intros Hd Hi. unfold TakeDamage.
  destruct (IsAlive u) eqn:Ha; cbn [negb]; [|apply unit_step_refl].
  unfold unit_step, unit_ok, in_int in *. cbn [HP set_HP MaxHP].
  split; [destruct (_ <=? _)%Z; reflexivity|].
  split.
  - intros ((H0 & H1) & Hm & Hal).
    assert (Hw : int_sub (HP u) d = (HP u - d)%Z).
    { apply wrap64_id. unfold in_int. lia. }
    rewrite Hw. destruct (Z.leb_spec (HP u - d) 0); cbn.
    + split; [|lia]. split; [lia|]. split; [lia|].
      split; [discriminate|lia].
    + rewrite Ha. split; [|lia]. split; [lia|]. split; [lia|].
      split; [lia|reflexivity].
  - split; [congruence|].
    destruct (_ <=? _)%Z; cbn; auto.
Qed.

Lemma Battle_Update_unit_step (bm : BattleManager) (h : Heap) (dt : R) :
  heap_rel unit_step h (snd (Battle.Update bm h dt)).
Proof.
  apply Battle_Update_rel.
  - apply unit_step_refl.
  - apply unit_step_trans.
  - apply unit_step_Update.
  - intros; now apply unit_step_same.
  - apply unit_step_StartRetreating.
  - intros; now apply unit_step_same.
  - intros; now apply unit_step_same.
  - intros; now apply unit_step_same.
  - intros; now apply unit_step_same.
  - apply unit_step_TakeDamage.
Qed.



End UnitInvariants.





(** ** Which units an operation writes *)

Section Footprint.

Import UnitOps.

Lemma fold_modify_other {A : Type} (f : Heap -> A -> Heap) (l : list A)
  (r : UnitRef) :
  (forall h x, In x l -> f h x r = h r) ->
  forall h, fold_left f l h r = h r.
Proof.
  induction l as [|x l IH]; intros Hf h; cbn; [reflexivity|].
  rewrite IH.
  - apply Hf. now left.
  - intros h0 y Hy. apply Hf. now right.
Qed.

Lemma handleLeaderDeath_other (g : Group) (h : Heap) (r : UnitRef) :
  ~ In r (Members g) -> GroupOps.handleLeaderDeath g h r = h r.
Proof.
  intros Hr. unfold GroupOps.handleLeaderDeath. apply fold_modify_other.
  intros h0 m Hm. destruct (_ && _); [|reflexivity].
  apply modify_other. intros ->. contradiction.
Qed.

Lemma circleLoop_other (g : Group) (n : nat) (l : list UnitRef) (r : UnitRef) :
  ~ In r l -> forall i h, GroupOps.circleLoop g n i l h r = h r.
Proof.
  induction l as [|m l IH]; intros Hr i h; cbn; [reflexivity|].
  rewrite IH by (intros H; apply Hr; now right).
  destruct (IsRetreating (h m)); [reflexivity|].
  apply modify_other. intros ->. apply Hr. now left.
Qed.

Lemma getAliveMembers_incl (h : Heap) (g : Group) (m : UnitRef) :
  In m (GroupOps.getAliveMembers h g) -> In m (Members g).
Proof. unfold GroupOps.getAliveMembers. rewrite filter_In. tauto. Qed.

Lemma updateFormation_other (g : Group) (h : Heap) (r : UnitRef) :
  ~ In r (Members g) -> GroupOps.updateFormation g h r = h r.
Proof.
  intros Hr. unfold GroupOps.updateFormation, GroupOps.updateCircleFormation.
  destruct (negb _); [reflexivity|].
  destruct (FormType (GFormation g)).
  destruct (GroupOps.getAliveMembers h g) eqn:E; [reflexivity|].
  apply circleLoop_other. rewrite <- E. intros H.
  apply Hr. eapply getAliveMembers_incl; eauto.
Qed.

Lemma updateMembers_other (dt : R) (l : list UnitRef) (h : Heap) (r : UnitRef) :
  ~ In r l -> GroupOps.updateMembers dt l h r = h r.
Proof.
  intros Hr. unfold GroupOps.updateMembers. apply fold_modify_other.
  intros h0 m Hm. destruct (IsAlive (h0 m)); [|reflexivity].
  apply modify_other. intros ->. contradiction.
Qed.

Lemma Group_Update_other (g : Group) (h : Heap) (dt : R) (r : UnitRef) :
  ~ In r (GroupOps.GetAllUnits g) -> snd (GroupOps.Update g h dt) r = h r.
Proof.
  unfold GroupOps.GetAllUnits, GroupOps.Update.
  destruct (Leader g) as [l|] eqn:El; intros Hr.
  - assert (Hl : r <> l) by (intros ->; apply Hr; now left).
    assert (Hm : ~ In r (Members g)) by (intros H; apply Hr; now right).
    destruct (negb (IsAlive (h l))); cbn [snd].
    + now apply handleLeaderDeath_other.
    + cbv zeta. cbn [snd].
      rewrite updateMembers_other
        by (destruct (fgt _ _); cbn [Members set_targetPosition]; assumption).
      rewrite updateFormation_other
        by (destruct (fgt _ _); cbn [Members set_targetPosition]; assumption).
      now apply modify_other.
  - cbn [snd]. now apply handleLeaderDeath_other.
Qed.

(** [Update] keeps the leader, the members and the formation of a group. *)
Lemma Group_Update_shape (g : Group) (h : Heap) (dt : R) :
  Leader (fst (GroupOps.Update g h dt)) = Leader g /\
  Members (fst (GroupOps.Update g h dt)) = Members g /\
  GFormation (fst (GroupOps.Update g h dt)) = GFormation g.
Proof.
  unfold GroupOps.Update. destruct (Leader g) as [l|] eqn:El; [|cbn; auto].
  destruct (negb (IsAlive (h l))); [cbn; auto|].
  cbv zeta. cbn [fst]. destruct (fgt _ _); cbn; auto.
Qed.

Lemma Group_Update_GetAllUnits (g : Group) (h : Heap) (dt : R) :
  GroupOps.GetAllUnits (fst (GroupOps.Update g h dt)) = GroupOps.GetAllUnits g.
Proof.
  unfold GroupOps.GetAllUnits.
  destruct (Group_Update_shape g h dt) as (-> & -> & _). reflexivity.
Qed.

Lemma updateGroups_other (gs : list Group) (dt : R) (r : UnitRef) :
  ~ In r (flat_map GroupOps.GetAllUnits gs) ->
  forall h, snd (ArmyOps.updateGroups gs h dt) r = h r.
Proof.
  induction gs as [|g gs IH]; intros Hr h; cbn; [reflexivity|].
  cbn in Hr.
  pose proof (Group_Update_other g h dt r) as Hg.
  destruct (GroupOps.Update g h dt) as [g' h']. cbn [snd] in Hg.
  pose proof (IH (fun H => Hr (in_or_app _ _ _ (or_intror H))) h') as Hrest.
  destruct (ArmyOps.updateGroups gs h' dt) as [gs' h'']. cbn [snd] in *.
  rewrite Hrest. apply Hg. intros H. apply Hr. apply in_or_app. now left.
Qed.

Lemma updateGroups_GetAllUnits (gs : list Group) (dt : R) :
  forall h,
    map GroupOps.GetAllUnits (fst (ArmyOps.updateGroups gs h dt))
    = map GroupOps.GetAllUnits gs.
Proof.
  induction gs as [|g gs IH]; intros h; cbn; [reflexivity|].
  pose proof (Group_Update_GetAllUnits g h dt) as Hg.
  destruct (GroupOps.Update g h dt) as [g' h']. cbn [fst] in Hg.
  pose proof (IH h') as Hrest.
  destruct (ArmyOps.updateGroups gs h' dt) as [gs' h'']. cbn [fst map] in *.
  now rewrite Hg, Hrest.
Qed.

Lemma Army_Update_GetAllUnits (a : Army) (h : Heap) (dt : R) :
  ArmyOps.GetAllUnits (fst (ArmyOps.Update a h dt)) = ArmyOps.GetAllUnits a.
Proof.
  unfold ArmyOps.Update, ArmyOps.GetAllUnits.
  pose proof (updateGroups_GetAllUnits (Groups a) dt h) as H.
  destruct (ArmyOps.updateGroups (Groups a) h dt) as [gs h']. cbn [fst] in *.
  cbn [Groups set_Groups]. rewrite !flat_map_concat_map. now rewrite H.
Qed.

Lemma runAI_other (h : Heap) (u : UnitRef) (enemies : list UnitRef) (dt : R)
  (r : UnitRef) : r <> u -> AIOps.runAI h u enemies dt r = h r.
Proof.
  intros Hr. unfold AIOps.runAI. destruct (AI (h u)) as [ai|]; [|reflexivity].
  destruct (AIOps.Update ai h u enemies dt) as [ai' h'] eqn:E.
  rewrite modify_other by assumption.
  unfold AIOps.Update in E.
  destruct (_ || _); [now inversion E|].
  destruct (flt _ _); [now inversion E|].
  destruct (TargetEnemy _); [|now inversion E].
  destruct (negb _); [now inversion E|].
  inversion E; subst. unfold AIOps.executeAction, AIOps.moveTowardsTarget,
    AIOps.moveAwayFromTarget.
  destruct (CurrentAction _); try reflexivity;
    try (now apply modify_other);
    (destruct (TargetEnemy _); [|reflexivity]);
    destruct (fgt _ _); try reflexivity; now apply modify_other.
Qed.

Lemma aiPass_other (units enemies : list UnitRef) (dt : R) (r : UnitRef) :
  ~ In r units -> forall h, Battle.aiPass units enemies dt h r = h r.
Proof.
  intros Hr. unfold Battle.aiPass. apply fold_modify_other.
  intros h u Hu. apply runAI_other. intros ->. contradiction.
Qed.

Lemma ResolveCollision_other (h : Heap) (a b r : UnitRef) :
  r <> a -> r <> b -> ResolveCollision h a b r = h r.
Proof.
  intros Ha Hb. unfold ResolveCollision.
  destruct (_ || _); [reflexivity|].
  destruct (_ && _); [|reflexivity].
  now rewrite !modify_other by assumption.
Qed.

Lemma collidePairs_other (l : list UnitRef) (r : UnitRef) :
  ~ In r l -> forall h, Battle.collidePairs l h r = h r.
Proof.
  induction l as [|u l IH]; intros Hr h; cbn; [reflexivity|].
  rewrite IH by (intros H; apply Hr; now right).
  unfold Battle.collideWith. apply fold_modify_other.
  intros h0 u2 Hu2. destruct (IsCollidingWith _ _); [|reflexivity].
  apply ResolveCollision_other; intros ->; apply Hr; [now left|now right].
Qed.

End Footprint.

(** ** Groups whose leader has fallen *)

Section LeaderDeath.

Import UnitOps.

Lemma NoDup_app_disjoint {A : Type} (l1 l2 : list A) (x : A) :
  NoDup (l1 ++ l2) -> In x l1 -> ~ In x l2.
Proof.
  induction l1 as [|a l1 IH]; cbn; intros Hnd Hx; [contradiction|].
  inversion Hnd as [|? ? Hna Hnd']; subst.
  destruct Hx as [->|Hx].
  - intros H. apply Hna. apply in_or_app. now right.
  - now apply IH.
Qed.

(** An element occurs in the image of one list entry only. *)
Lemma flat_map_NoDup_unique {A B : Type} (f : A -> list B) (l : list A)
  (a b : A) (x : B) :
  NoDup (flat_map f l) -> In a l -> In b l -> In x (f a) -> In x (f b) ->
  a = b.
Proof.
  induction l as [|c l IH]; cbn; intros Hnd Ha Hb Hxa Hxb; [contradiction|].
  destruct Ha as [->|Ha], Hb as [->|Hb].
  - reflexivity.
  - exfalso. apply (NoDup_app_disjoint _ _ x Hnd Hxa).
    apply in_flat_map. eauto.
  - exfalso. apply (NoDup_app_disjoint _ _ x Hnd Hxb).
    apply in_flat_map. eauto.
  - apply IH; auto. eapply NoDup_app_remove_l; eauto.
Qed.

Lemma disjoint_groups_unique (bm : BattleManager) (g g' : Group) (m : UnitRef) :
  disjoint_groups bm -> In g (allGroups bm) -> In g' (allGroups bm) ->
  In m (GroupOps.GetAllUnits g) -> In m (GroupOps.GetAllUnits g') -> g = g'.
Proof.
  unfold disjoint_groups, allGroups, ArmyOps.GetAllUnits.
  rewrite <- flat_map_app. intros Hnd. eapply flat_map_NoDup_unique; eauto.
Qed.

Lemma Group_Update_IsAlive (g : Group) (h : Heap) (dt : R) (r : UnitRef) :
  IsAlive (snd (GroupOps.Update g h dt) r) = IsAlive (h r).
Proof.
  apply (Group_Update_rel (fun u u' => IsAlive u' = IsAlive u));
    try reflexivity; try congruence.
  intros u dt'. apply Unit_Update_fields.
Qed.

Lemma Group_Update_leaderAlive (g g' : Group) (h : Heap) (dt : R) :
  GroupOps.leaderAlive (snd (GroupOps.Update g h dt)) g'
  = GroupOps.leaderAlive h g'.
Proof.
  unfold GroupOps.leaderAlive. destruct (Leader g'); [|reflexivity].
  apply Group_Update_IsAlive.
Qed.

Lemma Group_Update_dead (g : Group) (h : Heap) (dt : R) :
  GroupOps.leaderAlive h g = false ->
  GroupOps.Update g h dt = (g, GroupOps.handleLeaderDeath g h).
Proof.
  unfold GroupOps.leaderAlive, GroupOps.Update.
  destruct (Leader g); [|reflexivity]. now intros ->.
Qed.

Lemma handleLeaderDeath_Position (g : Group) (h : Heap) (r : UnitRef) :
  Position (GroupOps.handleLeaderDeath g h r) = Position (h r).
Proof.
  apply (handleLeaderDeath_rel (fun u u' => Position u' = Position u));
    try reflexivity; congruence.
Qed.

(** The retreat order leaves every member dead or retreating. *)
Lemma handleLeaderDeath_inert (g : Group) (h : Heap) (m : UnitRef) :
  In m (Members g) -> active (GroupOps.handleLeaderDeath g h m) = false.
Proof.
  unfold GroupOps.handleLeaderDeath. intros Hm.
  assert (Hgen : forall l h0, In m l \/ active (h0 m) = false ->
            active (fold_left
              (fun h1 x => if IsAlive (h1 x) && negb (IsRetreating (h1 x))
                           then modify h1 x (fun u => StartRetreating u (GroupOps.exitPoint u))
                           else h1) l h0 m) = false).
  { induction l as [|x l IH]; intros h0 H; cbn.
    - destruct H as [[]|H]; exact H.
    - apply IH. destruct (Nat.eq_dec m x) as [->|Hne].
      + right. destruct (IsAlive (h0 x) && negb (IsRetreating (h0 x))) eqn:E.
        * rewrite modify_same. unfold active. cbn.
          now rewrite Bool.andb_false_r.
        * exact E.
      + destruct H as [[Hx|Hl]|H]; [congruence|now left|right].
        destruct (_ && _); [|exact H].
        now rewrite modify_other. }
  apply Hgen. now left.
Qed.

Lemma Group_Update_inert (g : Group) (h : Heap) (dt : R) (r : UnitRef) :
  active (h r) = false -> active (snd (GroupOps.Update g h dt) r) = false.
Proof.
  revert r.
  apply (Group_Update_rel (fun u u' => active u = false -> active u' = false));
    auto.
  - intros u dt' H. unfold active.
    destruct (Unit_Update_fields u dt') as (_ & _ & -> & -> & _). exact H.
  - intros u e. unfold active. cbn. intros _. now rewrite Bool.andb_false_r.
Qed.

Lemma updateGroups_Position (gs : list Group) (dt : R) (m : UnitRef) :
  forall h,
    (forall g, In g gs -> In m (GroupOps.GetAllUnits g) ->
               GroupOps.leaderAlive h g = false) ->
    Position (snd (ArmyOps.updateGroups gs h dt) m) = Position (h m).
Proof.
  induction gs as [|g gs IH]; intros h Hdead; cbn; [reflexivity|].
  assert (Hg : Position (snd (GroupOps.Update g h dt) m) = Position (h m)).
  { destruct (in_dec Nat.eq_dec m (GroupOps.GetAllUnits g)) as [Hin|Hout].
    - rewrite Group_Update_dead by (apply Hdead; [now left|assumption]).
      apply handleLeaderDeath_Position.
    - now rewrite Group_Update_other. }
  assert (Hrest : forall g', In g' gs -> In m (GroupOps.GetAllUnits g') ->
            GroupOps.leaderAlive (snd (GroupOps.Update g h dt)) g' = false).
  { intros g' Hg' Hm. rewrite Group_Update_leaderAlive.
    apply Hdead; [now right|assumption]. }
  destruct (GroupOps.Update g h dt) as [g1 h1]. cbn [snd] in *.
  specialize (IH h1 Hrest).
  destruct (ArmyOps.updateGroups gs h1 dt) as [gs' h']. cbn [snd] in *.
  congruence.
Qed.

Lemma updateGroups_inert (gs : list Group) (dt : R) (r : UnitRef) :
  forall h, active (h r) = false ->
            active (snd (ArmyOps.updateGroups gs h dt) r) = false.
Proof.
  induction gs as [|g gs IH]; intros h H; cbn; [exact H|].
  pose proof (Group_Update_inert g h dt r H) as Hg.
  destruct (GroupOps.Update g h dt) as [g1 h1]. cbn [snd] in *.
  specialize (IH h1 Hg).
  destruct (ArmyOps.updateGroups gs h1 dt) as [gs' h']. exact IH.
Qed.

Lemma updateGroups_leaderAlive (gs : list Group) (dt : R) (g' : Group) :
  forall h,
    GroupOps.leaderAlive (snd (ArmyOps.updateGroups gs h dt)) g'
    = GroupOps.leaderAlive h g'.
Proof.
  induction gs as [|g gs IH]; intros h; cbn; [reflexivity|].
  pose proof (Group_Update_leaderAlive g g' h dt) as Hg.
  destruct (GroupOps.Update g h dt) as [g1 h1]. cbn [snd] in *.
  specialize (IH h1).
  destruct (ArmyOps.updateGroups gs h1 dt) as [gs' h']. cbn [snd] in *.
  congruence.
Qed.

(** A group whose leader is dead is kept as it is, and its members end the
    movement step dead or retreating. *)
Lemma updateGroups_dead_group (gs : list Group) (dt : R) (g : Group)
  (m : UnitRef) :
  forall h,
    In g gs -> GroupOps.leaderAlive h g = false -> In m (Members g) ->
    In g (fst (ArmyOps.updateGroups gs h dt)) /\
    active (snd (ArmyOps.updateGroups gs h dt) m) = false.
Proof.
  induction gs as [|g0 gs IH]; intros h Hin Hdead Hm; [contradiction|].
  cbn. destruct Hin as [->|Hin].
  - rewrite Group_Update_dead by assumption.
    pose proof (updateGroups_inert gs dt m (GroupOps.handleLeaderDeath g h)
                  (handleLeaderDeath_inert g h m Hm)) as Hi.
    destruct (ArmyOps.updateGroups gs _ dt) as [gs' h']. cbn [fst snd] in *.
    split; [now left|exact Hi].
  - pose proof (Group_Update_leaderAlive g0 g h dt) as Hl.
    destruct (GroupOps.Update g0 h dt) as [g1 h1]. cbn [snd] in *.
    destruct (IH h1 Hin (eq_trans Hl Hdead) Hm) as [H1 H2].
    destruct (ArmyOps.updateGroups gs h1 dt) as [gs' h']. cbn [fst snd] in *.
    split; [now right|exact H2].
Qed.

Lemma updateGroups_keeps_dead_group (gs : list Group) (dt : R) (g : Group) :
  forall h,
    In g gs -> GroupOps.leaderAlive h g = false ->
    In g (fst (ArmyOps.updateGroups gs h dt)).
Proof.
  induction gs as [|g0 gs IH]; intros h Hin Hdead; [contradiction|].
  cbn. destruct Hin as [->|Hin].
  - rewrite Group_Update_dead by assumption.
    destruct (ArmyOps.updateGroups gs _ dt) as [gs' h']. now left.
  - pose proof (Group_Update_leaderAlive g0 g h dt) as Hl.
    destruct (GroupOps.Update g0 h dt) as [g1 h1]. cbn [snd] in *.
    pose proof (IH h1 Hin (eq_trans Hl Hdead)) as H1.
    destruct (ArmyOps.updateGroups gs h1 dt) as [gs' h']. now right.
Qed.

End LeaderDeath.

Section LeaderDeathTick.

Import UnitOps.

Lemma Members_GetAllUnits (g : Group) (m : UnitRef) :
  In m (Members g) -> In m (GroupOps.GetAllUnits g).
Proof.
  unfold GroupOps.GetAllUnits. destruct (Leader g); [now right|auto].
Qed.

Lemma updateArmies_dead_group (bm : BattleManager) (h : Heap) (dt : R)
  (g : Group) (m : UnitRef) :
  disjoint_groups bm -> In g (allGroups bm) ->
  GroupOps.leaderAlive h g = false -> In m (Members g) ->
  Position (snd (Battle.updateArmies bm h dt) m) = Position (h m) /\
  active (snd (Battle.updateArmies bm h dt) m) = false /\
  In g (allGroups (fst (Battle.updateArmies bm h dt))).
Proof.
  intros Hwf Hg Hdead Hm.
  assert (Huniq : forall g', In g' (allGroups bm) ->
            In m (GroupOps.GetAllUnits g') -> g' = g).
  { intros g' Hg' Hm'. symmetry.
    eapply disjoint_groups_unique; eauto using Members_GetAllUnits. }
  unfold Battle.updateArmies, ArmyOps.Update, allGroups in *.
  pose proof (updateGroups_Position (Groups (ArmyA bm)) dt m h) as PA.
  pose proof (updateGroups_leaderAlive (Groups (ArmyA bm)) dt g h) as LA.
  pose proof (updateGroups_inert (Groups (ArmyB bm)) dt m) as IB.
  pose proof (fun Hin => updateGroups_dead_group (Groups (ArmyA bm)) dt g m h
                           Hin Hdead Hm) as DA.
  destruct (ArmyOps.updateGroups (Groups (ArmyA bm)) h dt) as [gsA h1].
  cbn [fst snd] in *.
  pose proof (updateGroups_Position (Groups (ArmyB bm)) dt m h1) as PB.
  pose proof (fun Hin Hd => updateGroups_dead_group (Groups (ArmyB bm)) dt g m
                              h1 Hin Hd Hm) as DB.
  specialize (IB h1).
  destruct (ArmyOps.updateGroups (Groups (ArmyB bm)) h1 dt) as [gsB h2].
  cbn [fst snd ArmyA ArmyB Battle.set_armies Groups set_Groups] in *.
  rewrite Hdead in LA.
  split.
  - rewrite PB, PA; [reflexivity| |].
    + intros g' Hg' Hm'.
      rewrite (Huniq g' (in_or_app _ _ _ (or_introl Hg')) Hm'). exact Hdead.
    + intros g' Hg' Hm'.
      rewrite (Huniq g' (in_or_app _ _ _ (or_intror Hg')) Hm'). exact LA.
  - apply in_app_or in Hg. destruct Hg as [Hg|Hg].
    + destruct (DA Hg) as [H1 H2]. split; [now apply IB|].
      apply in_or_app. now left.
    + destruct (DB Hg LA) as [H1 H2]. split; [exact H2|].
      apply in_or_app. now right.
Qed.

Lemma updateAI_Position (bm : BattleManager) (h : Heap) (dt : R) (r : UnitRef) :
  Position (Battle.updateAI bm h dt r) = Position (h r).
Proof.
  apply (updateAI_rel (fun u u' => Position u' = Position u));
    try reflexivity; congruence.
Qed.

Lemma updateAI_active (bm : BattleManager) (h : Heap) (dt : R) (r : UnitRef) :
  active (Battle.updateAI bm h dt r) = active (h r).
Proof.
  apply (updateAI_rel (fun u u' => active u' = active u));
    try reflexivity; congruence.
Qed.

Lemma handleCollisions_inert (bm : BattleManager) (h : Heap) (r : UnitRef) :
  active (h r) = false -> Battle.handleCollisions bm h r = h r.
Proof.
  intros H. unfold Battle.handleCollisions. apply collidePairs_other.
  intros Hin. apply in_app_or in Hin.
  unfold active in H.
  destruct Hin as [Hin|Hin]; apply GetAliveUnits_spec in Hin;
    destruct Hin as (_ & Ha & Hr); rewrite Ha, Hr in H; discriminate.
Qed.

Lemma processCombat_Position (bm : BattleManager) (h : Heap) (r : UnitRef) :
  Position (Battle.processCombat bm h r) = Position (h r).
Proof.
  apply (processCombat_frame Position); try reflexivity.
  apply TakeDamage_Position.
Qed.

Lemma unit_step_inert (u u' : Unit) :
  unit_step u u' -> active u = false -> active u' = false.
Proof.
  unfold unit_step, active. intros (_ & _ & Ha & Hr) H.
  destruct (IsAlive u) eqn:E1.
  - destruct (IsRetreating u) eqn:E2; [|discriminate].
    rewrite Hr by reflexivity. apply Bool.andb_false_r.
  - now rewrite Ha.
Qed.

Lemma Battle_Update_armies (bm : BattleManager) (h : Heap) (dt : R) :
  IsActive bm = true ->
  ArmyA (fst (Battle.Update bm h dt)) = ArmyA (fst (Battle.updateArmies bm h dt)) /\
  ArmyB (fst (Battle.Update bm h dt)) = ArmyB (fst (Battle.updateArmies bm h dt)).
Proof.
  intros Ha. unfold Battle.Update. rewrite Ha. cbn [negb].
  destruct (Battle.updateArmies bm h dt) as [bm1 h2]. cbn [fst].
  destruct (checkWinConditions_frame bm1
              (Battle.processCombat bm1
                 (Battle.handleCollisions bm1 (Battle.updateAI bm1 h2 dt))))
    as (-> & -> & _). auto.
Qed.

Lemma updateArmies_GetAllUnits (bm : BattleManager) (h : Heap) (dt : R) :
  ArmyOps.GetAllUnits (ArmyA (fst (Battle.updateArmies bm h dt)))
  = ArmyOps.GetAllUnits (ArmyA bm) /\
  ArmyOps.GetAllUnits (ArmyB (fst (Battle.updateArmies bm h dt)))
  = ArmyOps.GetAllUnits (ArmyB bm).
Proof.
  unfold Battle.updateArmies.
  pose proof (Army_Update_GetAllUnits (ArmyA bm) h dt) as HA.
  destruct (ArmyOps.Update (ArmyA bm) h dt) as [a h1]. cbn [fst] in HA.
  pose proof (Army_Update_GetAllUnits (ArmyB bm) h1 dt) as HB.
  destruct (ArmyOps.Update (ArmyB bm) h1 dt) as [b h2]. cbn [fst] in *.
  auto.
Qed.

Lemma Battle_Update_disjoint (bm : BattleManager) (h : Heap) (dt : R) :
  disjoint_groups bm -> disjoint_groups (fst (Battle.Update bm h dt)).
Proof.
  destruct (IsActive bm) eqn:Ha.
  - unfold disjoint_groups.
    destruct (Battle_Update_armies bm h dt Ha) as [-> ->].
    destruct (updateArmies_GetAllUnits bm h dt) as [-> ->]. auto.
  - unfold Battle.Update. now rewrite Ha.
Qed.

(** One tick seen from a member of a group whose leader is dead. *)
Lemma dead_leader_tick (bm : BattleManager) (h : Heap) (dt : R) (g : Group)
  (m : UnitRef) :
  disjoint_groups bm -> In g (allGroups bm) ->
  GroupOps.leaderAlive h g = false -> In m (Members g) ->
  Position (snd (Battle.Update bm h dt) m) = Position (h m) /\
  In g (allGroups (fst (Battle.Update bm h dt))) /\
  GroupOps.leaderAlive (snd (Battle.Update bm h dt)) g = false /\
  (IsActive bm = true -> active (snd (Battle.Update bm h dt) m) = false).
Proof.
  intros Hwf Hg Hdead Hm.
  assert (Hlead : GroupOps.leaderAlive (snd (Battle.Update bm h dt)) g = false).
  { unfold GroupOps.leaderAlive in *. destruct (Leader g) as [l|]; [|reflexivity].
    now apply (Battle_Update_unit_step bm h dt l). }
  destruct (IsActive bm) eqn:Ha.
  - destruct (Battle_Update_armies bm h dt Ha) as [EA EB].
    destruct (updateArmies_dead_group bm h dt g m Hwf Hg Hdead Hm)
      as (HP & Hin & Hgin).
    assert (Hall : allGroups (fst (Battle.Update bm h dt))
                   = allGroups (fst (Battle.updateArmies bm h dt))).
    { unfold allGroups. now rewrite EA, EB. }
    rewrite Hall. clear EA EB Hall.
    unfold Battle.Update in *. rewrite Ha in *. cbn [negb] in *.
    destruct (Battle.updateArmies bm h dt) as [bm1 h2]. cbn [fst snd] in *.
    assert (H3 : active (Battle.updateAI bm1 h2 dt m) = false)
      by now rewrite updateAI_active.
    assert (H4 : Battle.handleCollisions bm1 (Battle.updateAI bm1 h2 dt) m
                 = Battle.updateAI bm1 h2 dt m)
      by now apply handleCollisions_inert.
    split.
    { rewrite processCombat_Position, H4, updateAI_Position. exact HP. }
    split; [exact Hgin|]. split; [exact Hlead|]. intros _.
    eapply unit_step_inert.
    + apply (processCombat_rel unit_step unit_step_refl unit_step_trans).
      * intros; now apply unit_step_same.
      * intros; now apply unit_step_same.
      * apply unit_step_TakeDamage.
    + now rewrite H4.
  - unfold Battle.Update in *. rewrite Ha in *. cbn in *.
    repeat split; auto. discriminate.
Qed.

End LeaderDeathTick.

(** C10.  Once the leader of a group is dead, whatever sequence of
    [StartBattle] and [Update] follows, the position of every member of the
    group stays what it was: [Group.Update] only re-issues the retreat
    order, after which the member is dead or retreating and so outside the
    lists the AI, collision and combat passes work on.  Units are assumed to
    belong to one group each. *)
Theorem dead_leader_members_never_move (bm : BattleManager) (h : Heap)
  (g : Group) (m : UnitRef) (bm' : BattleManager) (h' : Heap) :
  disjoint_groups bm -> In g (allGroups bm) ->
  GroupOps.leaderAlive h g = false -> In m (Members g) ->
  reachable bm h bm' h' ->
  Position (h' m) = Position (h m) /\
  GroupOps.leaderAlive h' g = false /\
  (forall dt, IsActive bm' = true ->
     active (snd (Battle.Update bm' h' dt) m) = false /\
     snd (GroupOps.Update g h' dt) = GroupOps.handleLeaderDeath g h').
Proof.
  intros Hwf Hg Hdead Hm Hreach.
  assert (Inv : disjoint_groups bm' /\ In g (allGroups bm') /\
                GroupOps.leaderAlive h' g = false /\
                Position (h' m) = Position (h m)).
  { induction Hreach as [|bm1 h1 _ IH|bm1 h1 dt _ IH].
    - auto.
    - exact IH.
    - destruct IH as (W & G & D & P).
      destruct (dead_leader_tick bm1 h1 dt g m W G D Hm) as (P' & G' & D' & _).
      split; [now apply Battle_Update_disjoint|].
      split; [exact G'|]. split; [exact D'|]. congruence. }
  destruct Inv as (W & G & D & P).
  split; [exact P|]. split; [exact D|].
  intros dt Ha. split.
  - now apply (dead_leader_tick bm' h' dt g m W G D Hm).
  - now rewrite Group_Update_dead.
Qed.

(** The member of the orphaned sample group is still at its place after a
    tick of a tenth of a second. *)
Lemma dead_leader_members_never_move_witness :
  Position (snd (Battle.Update Sample.orphanBattle Sample.orphaned 0.1) 1%nat)
  = Position (Sample.orphaned 1%nat).
Proof.
  refine (proj1 (dead_leader_members_never_move
                   Sample.orphanBattle Sample.orphaned Sample.orphanGroup 1%nat
                   _ _ _ _ _ _ _)).
  - unfold disjoint_groups. cbn.
    repeat constructor; cbn; intuition discriminate.
  - cbn. now left.
  - reflexivity.
  - cbn. now left.
  - apply reach_update. apply reach_init.
Defined.


(** ** Formation slots and the AI pass *)

Section Formation.

Import UnitOps.

Lemma circleLoop_flags (g : Group) (n : nat) (l : list UnitRef) :
  forall i h r,
    IsRetreating (GroupOps.circleLoop g n i l h r) = IsRetreating (h r) /\
    IsAlive (GroupOps.circleLoop g n i l h r) = IsAlive (h r).
Proof.
  intros i h r.
  apply (circleLoop_rel
           (fun u u' => IsRetreating u' = IsRetreating u /\ IsAlive u' = IsAlive u)).
  - auto.
  - intros u v w [-> ->] [-> ->]. auto.
  - intros u t. auto.
Qed.

(** The member at index [i] of the list gets the slot [k + i]. *)
Lemma circleLoop_member (g : Group) (n : nat) (l : list UnitRef) :
  forall k i h m,
    NoDup l -> (forall x, In x l -> IsRetreating (h x) = false) ->
    nth_error l i = Some m ->
    GroupOps.circleLoop g n k l h m
    = MoveTo (h m) (GroupOps.formationPos g n (k + i)).
Proof.
  induction l as [|x l IH]; intros k i h m Hnd Hr Hi.
  - destruct i; discriminate.
  - inversion Hnd as [|? ? Hx Hnd']; subst. cbn [GroupOps.circleLoop].
    rewrite (Hr x (or_introl eq_refl)).
    destruct i as [|i]; cbn in Hi.
    + injection Hi as ->. rewrite circleLoop_other by assumption.
      rewrite modify_same. now rewrite Nat.add_0_r.
    + assert (Hm : In m l) by (eapply nth_error_In; eauto).
      assert (Hne : m <> x) by (intros ->; contradiction).
      rewrite (IH (S k) i _ m Hnd'); [| |assumption].
      * rewrite modify_other by assumption.
        now rewrite Nat.add_succ_r.
      * intros y Hy. rewrite (modify_frame IsRetreating) by reflexivity.
        apply Hr. now right.
Qed.

Lemma getAliveMembers_ext (h h' : Heap) (g : Group) :
  (forall x, In x (Members g) -> h' x = h x) ->
  GroupOps.getAliveMembers h' g = GroupOps.getAliveMembers h g.
Proof.
  intros H. unfold GroupOps.getAliveMembers. apply filter_ext_in.
  intros x Hx. now rewrite H.
Qed.

Lemma getAliveMembers_spec (h : Heap) (g : Group) (m : UnitRef) :
  In m (GroupOps.getAliveMembers h g) <->
  In m (Members g) /\ active (h m) = true.
Proof. unfold GroupOps.getAliveMembers, active. now rewrite filter_In. Qed.

Lemma updateMembers_member (dt : R) (l : list UnitRef) :
  forall h m, NoDup l -> In m l -> IsAlive (h m) = true ->
              GroupOps.updateMembers dt l h m = Update (h m) dt.
Proof.
  unfold GroupOps.updateMembers.
  induction l as [|x l IH]; intros h m Hnd Hm Ha; [contradiction|].
  inversion Hnd as [|? ? Hx Hnd']; subst. cbn [fold_left].
  destruct Hm as [->|Hm].
  - rewrite Ha. fold (GroupOps.updateMembers dt l (modify h m (fun u => Update u dt))).
    rewrite updateMembers_other by assumption. apply modify_same.
  - assert (Hne : m <> x) by (intros ->; contradiction).
    rewrite IH; try assumption.
    + destruct (IsAlive (h x)); [now rewrite modify_other|reflexivity].
    + destruct (IsAlive (h x)); [now rewrite modify_other|assumption].
Qed.

(** What [Group.Update] does to the leader and to the member at index [i]
    of the alive members of a group whose leader lives. *)
Lemma Group_Update_alive (g : Group) (h : Heap) (dt : R) (l : UnitRef) :
  Leader g = Some l -> IsAlive (h l) = true ->
  NoDup (GroupOps.GetAllUnits g) ->
  let n := List.length (GroupOps.getAliveMembers h g) in
  let g1 := set_targetPosition g (anchorOf (Update (h l) dt)) in
  fst (GroupOps.Update g h dt) = g1 /\
  snd (GroupOps.Update g h dt) l = Update (h l) dt /\
  forall i m, nth_error (GroupOps.getAliveMembers h g) i = Some m ->
    snd (GroupOps.Update g h dt) m
    = Update (MoveTo (h m) (GroupOps.formationPos g1 n i)) dt.
Proof.
  intros Hl Ha Hnd. cbv zeta.
  unfold GroupOps.GetAllUnits in Hnd. rewrite Hl in Hnd.
  inversion Hnd as [|? ? Hlm Hndm]; subst.
  unfold GroupOps.Update. rewrite Hl, Ha. cbn [negb]. cbv zeta.
  rewrite modify_same.
  set (h1 := modify h l (fun u => Update u dt)).
  assert (Eg : (if fgt (Vec.Distance (Position (Update (h l) dt))
                                     (Target (Update (h l) dt))) 5
                then set_targetPosition g (Target (Update (h l) dt))
                else set_targetPosition g (Position (Update (h l) dt)))
               = set_targetPosition g (anchorOf (Update (h l) dt))).
  { unfold anchorOf. now destruct (fgt _ _). }
  rewrite Eg. set (g1 := set_targetPosition g _). cbn [fst snd].
  assert (Hh1 : forall x, In x (Members g) -> h1 x = h x).
  { intros x Hx. unfold h1. apply modify_other. intros ->. contradiction. }
  assert (EL : GroupOps.getAliveMembers h1 g1 = GroupOps.getAliveMembers h g).
  { apply (getAliveMembers_ext h h1 g). exact Hh1. }
  split; [reflexivity|]. split.
  - rewrite updateMembers_other by assumption.
    rewrite updateFormation_other by assumption.
    unfold h1. apply modify_same.
  - intros i m Hi.
    assert (Hin : In m (GroupOps.getAliveMembers h g))
      by (eapply nth_error_In; eauto).
    apply getAliveMembers_spec in Hin. destruct Hin as [Hm Hact].
    unfold active in Hact. apply andb_prop in Hact. destruct Hact as [Hal Hre].
    apply Bool.negb_true_iff in Hre.
    assert (Hform : GroupOps.updateFormation g1 h1 m
                    = MoveTo (h m) (GroupOps.formationPos g1
                        (List.length (GroupOps.getAliveMembers h g)) i)).
    { unfold GroupOps.updateFormation, GroupOps.leaderAlive.
      cbn [Leader g1 set_targetPosition]. rewrite Hl.
      unfold h1 at 1. rewrite modify_same.
      destruct (Unit_Update_fields (h l) dt) as (_ & _ & -> & _).
      rewrite Ha. cbn [negb].
      destruct (FormType (GFormation g1)).
      unfold GroupOps.updateCircleFormation. rewrite EL.
      destruct (GroupOps.getAliveMembers h g) as [|x L] eqn:EL0;
        [destruct i; discriminate|].
      cbv beta iota.
      rewrite (circleLoop_member g1 _ (x :: L) 0%nat i h1 m).
      - now rewrite Hh1.
      - rewrite <- EL0. unfold GroupOps.getAliveMembers.
        now apply NoDup_filter.
      - intros y Hy. rewrite <- EL0 in Hy.
        apply getAliveMembers_spec in Hy. destruct Hy as [Hy Hact].
        rewrite Hh1 by assumption.
        unfold active in Hact. apply andb_prop in Hact.
        destruct Hact as [_ Hr]. now apply Bool.negb_true_iff in Hr.
      - exact Hi. }
    rewrite updateMembers_member; try assumption.
    + now rewrite Hform.
    + rewrite Hform. exact Hal.
Qed.

End Formation.

Section FormationTick.

Import UnitOps.

Lemma NoDup_app_disjoint_r {A : Type} (l1 l2 : list A) (x : A) :
  NoDup (l1 ++ l2) -> In x l2 -> ~ In x l1.
Proof. intros Hnd H2 H1. exact (NoDup_app_disjoint l1 l2 x Hnd H1 H2). Qed.

Lemma flat_map_NoDup_entry {A B : Type} (f : A -> list B) (l : list A) (a : A) :
  NoDup (flat_map f l) -> In a l -> NoDup (f a).
Proof.
  induction l as [|c l IH]; cbn; intros Hnd Ha; [contradiction|].
  destruct Ha as [->|Ha].
  - eapply NoDup_app_remove_r; eauto.
  - apply IH; [eapply NoDup_app_remove_l; eauto|assumption].
Qed.

Lemma updateGroups_alive_group (gs : list Group) (dt : R) (g : Group)
  (l : UnitRef) :
  forall h,
    NoDup (flat_map GroupOps.GetAllUnits gs) -> In g gs ->
    Leader g = Some l -> IsAlive (h l) = true ->
    let n := List.length (GroupOps.getAliveMembers h g) in
    let g1 := set_targetPosition g (anchorOf (Update (h l) dt)) in
    snd (ArmyOps.updateGroups gs h dt) l = Update (h l) dt /\
    forall i m, nth_error (GroupOps.getAliveMembers h g) i = Some m ->
      snd (ArmyOps.updateGroups gs h dt) m
      = Update (MoveTo (h m) (GroupOps.formationPos g1 n i)) dt.
Proof.
  induction gs as [|g0 gs IH]; intros h Hnd Hin Hl Ha; [contradiction|].
  cbv zeta. cbn [ArmyOps.updateGroups]. cbn [flat_map] in Hnd.
  assert (Hlg : In l (GroupOps.GetAllUnits g)).
  { unfold GroupOps.GetAllUnits. rewrite Hl. now left. }
  destruct (in_dec Nat.eq_dec l (GroupOps.GetAllUnits g0)) as [Hl0|Hl0].
  - (* the group is the head of the list *)
    assert (g0 = g).
    { apply (flat_map_NoDup_unique GroupOps.GetAllUnits (g0 :: gs) g0 g l);
        cbn; auto. }
    subst g0.
    assert (Hout : forall x, In x (GroupOps.GetAllUnits g) ->
              forall h', snd (ArmyOps.updateGroups gs h' dt) x = h' x).
    { intros x Hx h'. apply updateGroups_other.
      eapply NoDup_app_disjoint; eauto. }
    destruct (Group_Update_alive g h dt l Hl Ha
                (NoDup_app_remove_r _ _ Hnd)) as (_ & HL & HM).
    destruct (GroupOps.Update g h dt) as [g1 h1]. cbn [snd] in *.
    pose proof (fun x Hx => Hout x Hx h1) as Hout1.
    destruct (ArmyOps.updateGroups gs h1 dt) as [gs' h']. cbn [snd] in *.
    split.
    + rewrite Hout1 by assumption. exact HL.
    + intros i m Hi. rewrite Hout1.
      * now apply HM.
      * apply Members_GetAllUnits.
        eapply getAliveMembers_incl, nth_error_In; eauto.
  - (* the group is further down: the head leaves its units alone *)
    destruct Hin as [->|Hin]; [contradiction|].
    assert (Hsame : forall x, In x (GroupOps.GetAllUnits g) ->
              snd (GroupOps.Update g0 h dt) x = h x).
    { intros x Hx. apply Group_Update_other.
      eapply NoDup_app_disjoint_r; eauto. apply in_flat_map. eauto. }
    destruct (GroupOps.Update g0 h dt) as [g1 h1]. cbn [snd] in *.
    assert (EL : GroupOps.getAliveMembers h1 g = GroupOps.getAliveMembers h g).
    { apply getAliveMembers_ext. intros x Hx. apply Hsame.
      now apply Members_GetAllUnits. }
    specialize (IH h1 (NoDup_app_remove_l _ _ Hnd) Hin Hl).
    rewrite (Hsame l Hlg) in IH. specialize (IH Ha). cbv zeta in IH.
    rewrite EL in IH. destruct IH as [IH1 IH2].
    destruct (ArmyOps.updateGroups gs h1 dt) as [gs' h']. cbn [snd] in *.
    split; [exact IH1|].
    intros i m Hi. rewrite (IH2 i m Hi). rewrite Hsame; [reflexivity|].
    apply Members_GetAllUnits.
    eapply getAliveMembers_incl, nth_error_In; eauto.
Qed.

Lemma updateArmies_alive_group (bm : BattleManager) (h : Heap) (dt : R)
  (g : Group) (l : UnitRef) :
  disjoint_groups bm -> In g (allGroups bm) ->
  Leader g = Some l -> IsAlive (h l) = true ->
  let n := List.length (GroupOps.getAliveMembers h g) in
  let g1 := set_targetPosition g (anchorOf (Update (h l) dt)) in
  snd (Battle.updateArmies bm h dt) l = Update (h l) dt /\
  forall i m, nth_error (GroupOps.getAliveMembers h g) i = Some m ->
    snd (Battle.updateArmies bm h dt) m
    = Update (MoveTo (h m) (GroupOps.formationPos g1 n i)) dt.
Proof.
  intros Hwf Hg Hl Ha. cbv zeta.
  unfold disjoint_groups, allGroups, ArmyOps.GetAllUnits in *.
  unfold Battle.updateArmies, ArmyOps.Update.
  assert (Hlg : In l (GroupOps.GetAllUnits g)).
  { unfold GroupOps.GetAllUnits. rewrite Hl. now left. }
  apply in_app_or in Hg. destruct Hg as [Hg|Hg].
  - destruct (updateGroups_alive_group (Groups (ArmyA bm)) dt g l h
                (NoDup_app_remove_r _ _ Hwf) Hg Hl Ha) as [HL HM].
    assert (Hout : forall x, In x (GroupOps.GetAllUnits g) ->
              forall h', snd (ArmyOps.updateGroups (Groups (ArmyB bm)) h' dt) x
                         = h' x).
    { intros x Hx h'. apply updateGroups_other.
      eapply NoDup_app_disjoint; eauto. apply in_flat_map. eauto. }
    destruct (ArmyOps.updateGroups (Groups (ArmyA bm)) h dt) as [gsA h1].
    cbn [snd] in *.
    pose proof (fun x Hx => Hout x Hx h1) as Hout1.
    destruct (ArmyOps.updateGroups (Groups (ArmyB bm)) h1 dt) as [gsB h2].
    cbn [snd] in *. split.
    + now rewrite Hout1.
    + intros i m Hi. rewrite Hout1; [now apply HM|].
      apply Members_GetAllUnits.
      eapply getAliveMembers_incl, nth_error_In; eauto.
  - assert (Hsame : forall x, In x (GroupOps.GetAllUnits g) ->
              snd (ArmyOps.updateGroups (Groups (ArmyA bm)) h dt) x = h x).
    { intros x Hx. apply updateGroups_other.
      eapply NoDup_app_disjoint_r; eauto. apply in_flat_map. eauto. }
    destruct (ArmyOps.updateGroups (Groups (ArmyA bm)) h dt) as [gsA h1].
    cbn [snd] in *.
    assert (EL : GroupOps.getAliveMembers h1 g = GroupOps.getAliveMembers h g).
    { apply getAliveMembers_ext. intros x Hx. apply Hsame.
      now apply Members_GetAllUnits. }
    pose proof (updateGroups_alive_group (Groups (ArmyB bm)) dt g l h1
                  (NoDup_app_remove_l _ _ Hwf) Hg Hl) as HB.
    rewrite (Hsame l Hlg) in HB. specialize (HB Ha). cbv zeta in HB.
    rewrite EL in HB. destruct HB as [HL HM].
    destruct (ArmyOps.updateGroups (Groups (ArmyB bm)) h1 dt) as [gsB h2].
    cbn [snd] in *. split; [exact HL|].
    intros i m Hi. rewrite (HM i m Hi). rewrite Hsame; [reflexivity|].
    apply Members_GetAllUnits.
    eapply getAliveMembers_incl, nth_error_In; eauto.
Qed.

End FormationTick.


Section AIPassTargets.

Import UnitOps.

Lemma tick_Target (bm : BattleManager) (h : Heap) (dt : R) (r : UnitRef) :
  IsActive bm = true ->
  Target (snd (Battle.Update bm h dt) r)
  = Target (Battle.updateAI (fst (Battle.updateArmies bm h dt))
                            (snd (Battle.updateArmies bm h dt)) dt r).
Proof.
  intros Ha. unfold Battle.Update. rewrite Ha. cbn [negb].
  destruct (Battle.updateArmies bm h dt) as [bm1 h2]. cbn [fst snd].
  rewrite (processCombat_frame Target) by (try reflexivity; apply TakeDamage_frame).
  apply (handleCollisions_rel (fun u u' => Target u' = Target u));
    try reflexivity; congruence.
Qed.

Lemma runAI_gated (h : Heap) (m : UnitRef) (enemies : list UnitRef) (dt : R) :
  ai_gated (h m) dt ->
  Target (AIOps.runAI h m enemies dt m) = Target (h m).
Proof.
  unfold ai_gated, AIOps.runAI. destruct (AI (h m)) as [ai|]; [|reflexivity].
  intros Hg. unfold AIOps.Update.
  destruct (_ || _).
  - now rewrite modify_same.
  - cbn [LastDecisionTime DecisionCooldown set_LastDecisionTime].
    rewrite (proj2 (flt_true_iff _ _) Hg). now rewrite modify_same.
Qed.

Lemma aiPass_gated (units enemies : list UnitRef) (dt : R) (m : UnitRef) :
  forall h, NoDup units -> ai_gated (h m) dt ->
            Target (Battle.aiPass units enemies dt h m) = Target (h m).
Proof.
  unfold Battle.aiPass.
  induction units as [|u units IH]; intros h Hnd Hg; cbn; [reflexivity|].
  inversion Hnd as [|? ? Hu Hnd']; subst.
  destruct (Nat.eq_dec u m) as [->|Hne].
  - fold (Battle.aiPass units enemies dt (AIOps.runAI h m enemies dt)).
    rewrite aiPass_other by assumption. now apply runAI_gated.
  - rewrite IH; try assumption.
    + now rewrite runAI_other by (now apply not_eq_sym).
    + now rewrite runAI_other by (now apply not_eq_sym).
Qed.

Lemma GetAliveUnits_NoDup (h : Heap) (a : Army) :
  NoDup (ArmyOps.GetAllUnits a) -> NoDup (ArmyOps.GetAliveUnits h a).
Proof. apply NoDup_filter. Qed.

Lemma updateAI_gated (bm : BattleManager) (h : Heap) (dt : R) (m : UnitRef) :
  disjoint_groups bm -> ai_gated (h m) dt ->
  Target (Battle.updateAI bm h dt m) = Target (h m).
Proof.
  unfold disjoint_groups. intros Hwf Hg. unfold Battle.updateAI. cbv zeta.
  pose proof (GetAliveUnits_NoDup h _ (NoDup_app_remove_r _ _ Hwf)) as NA.
  pose proof (GetAliveUnits_NoDup h _ (NoDup_app_remove_l _ _ Hwf)) as NB.
  destruct (in_dec Nat.eq_dec m (ArmyOps.GetAliveUnits h (ArmyA bm)))
    as [Hin|Hout].
  - rewrite aiPass_other.
    + now apply aiPass_gated.
    + intros HB. apply GetAliveUnits_spec in Hin, HB.
      eapply NoDup_app_disjoint; [exact Hwf|apply Hin|apply HB].
  - rewrite aiPass_gated; [now rewrite aiPass_other|assumption|].
    now rewrite aiPass_other.
Qed.

(** What a tick does to the movement target of a member of a group whose
    leader lives. *)
Lemma member_target_after_tick (bm : BattleManager) (h : Heap) (dt : R)
  (g : Group) (l m : UnitRef) (i : nat) :
  IsActive bm = true -> disjoint_groups bm -> In g (allGroups bm) ->
  Leader g = Some l -> IsAlive (h l) = true ->
  nth_error (GroupOps.getAliveMembers h g) i = Some m ->
  let h2 := snd (Battle.updateArmies bm h dt) in
  h2 l = Update (h l) dt /\
  h2 m = Update (MoveTo (h m) (slotOf g h h2 l i)) dt /\
  Target (snd (Battle.Update bm h dt) m)
  = Target (Battle.updateAI (fst (Battle.updateArmies bm h dt)) h2 dt m) /\
  (ai_gated (h m) dt ->
   Target (snd (Battle.Update bm h dt) m) = slotOf g h h2 l i).
Proof.
  intros Hact Hwf Hg Hl Ha Hi. cbv zeta.
  destruct (updateArmies_alive_group bm h dt g l Hwf Hg Hl Ha) as [HL HM].
  specialize (HM i m Hi). unfold slotOf. rewrite HL.
  split; [reflexivity|]. split; [exact HM|].
  split; [now apply tick_Target|].
  intros Hgate. rewrite tick_Target by assumption.
  rewrite updateAI_gated.
  - rewrite HM. destruct (Unit_Update_fields
      (MoveTo (h m) (GroupOps.formationPos
         (set_targetPosition g (anchorOf (Update (h l) dt)))
         (List.length (GroupOps.getAliveMembers h g)) i)) dt)
      as (_ & _ & _ & _ & -> & _). reflexivity.
  - unfold disjoint_groups.
    destruct (updateArmies_GetAllUnits bm h dt) as [-> ->]. exact Hwf.
  - rewrite HM. unfold ai_gated in *.
    destruct (Unit_Update_fields
      (MoveTo (h m) (GroupOps.formationPos
         (set_targetPosition g (anchorOf (Update (h l) dt)))
         (List.length (GroupOps.getAliveMembers h g)) i)) dt)
      as (_ & _ & _ & _ & _ & ->). exact Hgate.
Qed.

End AIPassTargets.

(** C1, amended.  In an active tick, for a group whose leader lives, the
    formation write happens in the movement step, before the AI pass: after
    that step each alive, non-retreating member has been sent to its slot
    (anchor plus radius at the angle of its index) and then moved by its own
    [Update]; the AI pass comes next and the target the member holds at the
    end of [BattleManager.Update] is the one the AI pass leaves.  It is the
    formation slot when the member's decision cooldown has not elapsed in
    this tick.  Units are assumed to belong to one group each. *)
Theorem formation_written_before_ai_pass (bm : BattleManager) (h : Heap)
  (dt : R) (g : Group) (l m : UnitRef) (i : nat) :
  IsActive bm = true -> disjoint_groups bm -> In g (allGroups bm) ->
  Leader g = Some l -> IsAlive (h l) = true ->
  nth_error (GroupOps.getAliveMembers h g) i = Some m ->
  let h2 := snd (Battle.updateArmies bm h dt) in
  let slot := slotOf g h h2 l i in
  Target (h2 m) = slot /\
  slot = Vec.Add (anchorOf (h2 l))
           (mkVector2D
              (cos (INR i * (2 * PI / INR (List.length (GroupOps.getAliveMembers h g))))
               * Radius (GFormation g))
              (sin (INR i * (2 * PI / INR (List.length (GroupOps.getAliveMembers h g))))
               * Radius (GFormation g))) /\
  Target (snd (Battle.Update bm h dt) m)
  = Target (Battle.updateAI (fst (Battle.updateArmies bm h dt)) h2 dt m) /\
  (ai_gated (h m) dt -> Target (snd (Battle.Update bm h dt) m) = slot).
Proof.
  intros Hact Hwf Hg Hl Ha Hi. cbv zeta.
  destruct (member_target_after_tick bm h dt g l m i Hact Hwf Hg Hl Ha Hi)
    as (_ & HM & HT & HG).
  split.
  - rewrite HM. apply Unit_Update_fields.
  - split; [reflexivity|]. split; assumption.
Qed.


Section UnitMovement.

Import UnitOps.

Lemma Unit_Update_stats (u : Unit) (dt : R) :
  Size (Update u dt) = Size u /\ Range (Update u dt) = Range u /\
  Type_ (Update u dt) = Type_ u /\ IsLeader (Update u dt) = IsLeader u /\
  Speed (Update u dt) = Speed u /\ ArmyID (Update u dt) = ArmyID u.
Proof.
  unfold Update. destruct (negb (IsAlive u)); [easy|].
  cbv zeta. destruct (fgt (Vec.Distance _ _) _); easy.
Qed.

(** A living unit within its own collision radius of its target stays. *)
Lemma Update_at_rest (u : Unit) (dt : R) :
  IsAlive u = true ->
  Vec.Distance (Position u) (Target u) <= GetCollisionRadius u ->
  Position (Update u dt) = Position u.
Proof.
  intros Ha Hd. unfold Update. rewrite Ha. cbn [negb]. cbv zeta.
  cbn [Position Target set_LastAttackTime].
  unfold GetCollisionRadius in *. cbn [Size set_LastAttackTime].
  unfold fgt. rewrite (proj2 (flt_false_iff _ _) Hd). reflexivity.
Qed.

(** A living unit farther from its target than its collision radius makes
    a step of length [Speed * dt] towards it. *)
Lemma Update_moving (u : Unit) (dt : R) :
  IsAlive u = true ->
  GetCollisionRadius u < Vec.Distance (Position u) (Target u) ->
  Position (Update u dt)
  = Vec.Add (Position u)
      (Vec.Mul (Vec.Normalize (Vec.Sub (Target u) (Position u))) (Speed u * dt)).
Proof.
  intros Ha Hd. unfold Update. rewrite Ha. cbn [negb]. cbv zeta.
  cbn [Position Target set_LastAttackTime].
  unfold GetCollisionRadius in *. cbn [Size set_LastAttackTime].
  unfold fgt. rewrite (proj2 (flt_true_iff _ _) Hd). reflexivity.
Qed.

End UnitMovement.

Section SquadTick.

Import UnitOps.

Local Abbreviation h2 :=
  (snd (Battle.updateArmies Sample.squadBattle Sample.squad 0.1)).
Local Abbreviation bm1 :=
  (fst (Battle.updateArmies Sample.squadBattle Sample.squad 0.1)).

Lemma squad_disjoint : disjoint_groups Sample.squadBattle.
Proof.
  unfold disjoint_groups. cbn. repeat constructor; cbn; intuition discriminate.
Qed.

Lemma squad_slot :
  slotOf Sample.squadGroup Sample.squad h2 0%nat 0 = mkVector2D 50 0.
Proof.
  destruct (updateArmies_alive_group Sample.squadBattle Sample.squad 0.1
              Sample.squadGroup 0%nat squad_disjoint)
    as [HL _]; [cbn; now left|reflexivity|reflexivity|].
  unfold slotOf. rewrite HL. unfold anchorOf.
  assert (HP : Position (UnitOps.Update (Sample.squad 0%nat) 0.1) = mkVector2D 0 0).
  { rewrite Update_at_rest; [reflexivity|reflexivity|].
    cbn [Sample.squad Sample.soldier Sample.place Position Target
         set_Target set_Position].
    rewrite Distance_self. unfold GetCollisionRadius. cbn. lra. }
  assert (HT : Target (UnitOps.Update (Sample.squad 0%nat) 0.1) = mkVector2D 0 0).
  { destruct (Unit_Update_fields (Sample.squad 0%nat) 0.1)
      as (_ & _ & _ & _ & -> & _). reflexivity. }
  rewrite HP, HT, Distance_self. fcmp.
  unfold GroupOps.formationPos, Vec.Add.
  cbn [targetPosition set_targetPosition X Y GFormation Radius
       Sample.squadGroup GroupOps.NewGroup INR].
  rewrite Rmult_0_l, cos_0, sin_0. f_equal; lra.
Qed.

Lemma squad_member_moved :
  h2 1%nat = UnitOps.Update (MoveTo (Sample.squad 1%nat) (mkVector2D 50 0)) 0.1.
Proof.
  destruct (member_target_after_tick Sample.squadBattle Sample.squad 0.1
              Sample.squadGroup 0%nat 1%nat 0%nat) as (_ & HM & _);
    try reflexivity; [apply squad_disjoint|cbn; now left|].
  now rewrite squad_slot in HM.
Qed.

Lemma squad_enemy_updated : h2 2%nat = UnitOps.Update (Sample.squad 2%nat) 0.1.
Proof.
  destruct (updateArmies_alive_group Sample.squadBattle Sample.squad 0.1
              (GroupOps.NewGroup Sample.squad 1 1 2%nat []) 2%nat squad_disjoint)
    as [HL _]; [cbn; auto|reflexivity|reflexivity|exact HL].
Qed.

Lemma squad_leader_updated : h2 0%nat = UnitOps.Update (Sample.squad 0%nat) 0.1.
Proof.
  destruct (updateArmies_alive_group Sample.squadBattle Sample.squad 0.1
              Sample.squadGroup 0%nat squad_disjoint)
    as [HL _]; [cbn; now left|reflexivity|reflexivity|exact HL].
Qed.

Lemma squad_member_position : Position (h2 1%nat) = mkVector2D 15 0.
Proof.
  rewrite squad_member_moved.
  assert (Hd : Vec.Distance (Position (MoveTo (Sample.squad 1%nat) (mkVector2D 50 0)))
                            (Target (MoveTo (Sample.squad 1%nat) (mkVector2D 50 0)))
               = 40).
  { rewrite Distance_horizontal; cbn; lra. }
  rewrite Update_moving; [|reflexivity|].
  - rewrite Normalize_horizontal by (cbn; lra).
    unfold Vec.Add, Vec.Mul. cbn. f_equal; lra.
  - rewrite Hd. unfold GetCollisionRadius. cbn. lra.
Qed.

Lemma squad_enemy_position : Position (h2 2%nat) = mkVector2D 200 0.
Proof.
  rewrite squad_enemy_updated.
  rewrite Update_at_rest; [reflexivity|reflexivity|].
  cbn [Sample.squad Sample.soldier Sample.place Position Target
       set_Target set_Position].
  rewrite Distance_self. unfold GetCollisionRadius. cbn. lra.
Qed.

End SquadTick.

Section SquadAI.

Import UnitOps.

Local Abbreviation h2 :=
  (snd (Battle.updateArmies Sample.squadBattle Sample.squad 0.1)).
Local Abbreviation bm1 :=
  (fst (Battle.updateArmies Sample.squadBattle Sample.squad 0.1)).

Lemma squad_units_after (r : UnitRef) :
  (r < 3)%nat ->
  IsAlive (h2 r) = true /\ IsRetreating (h2 r) = false /\
  Size (h2 r) = 1 /\ Range (h2 r) = 15 /\ HP (h2 r) = 100%Z /\
  MaxHP (h2 r) = 100%Z /\ Type_ (h2 r) = UnitTypeInfantry /\
  AI (h2 r) = Some (NewAIBehavior UnitTypeInfantry).
Proof.
  intros Hr.
  assert (E : exists u, h2 r = UnitOps.Update u 0.1 /\
            IsAlive u = true /\ IsRetreating u = false /\ Size u = 1 /\
            Range u = 15 /\ HP u = 100%Z /\ MaxHP u = 100%Z /\
            Type_ u = UnitTypeInfantry /\
            AI u = Some (NewAIBehavior UnitTypeInfantry)).
  { destruct r as [|[|[|r]]]; [| | |lia].
    - eexists. split; [apply squad_leader_updated|]. cbn. repeat split.
    - eexists. split; [apply squad_member_moved|]. cbn. repeat split.
    - eexists. split; [apply squad_enemy_updated|]. cbn. repeat split. }
  destruct E as (u & -> & Ha & Hre & Hs & Hrg & Hhp & Hm & Ht & Hai).
  destruct (Unit_Update_fields u 0.1) as (-> & -> & -> & -> & _ & ->).
  destruct (Unit_Update_stats u 0.1) as (-> & -> & -> & _).
  repeat split; assumption.
Qed.

Lemma squad_unitsA : ArmyOps.GetAliveUnits h2 (ArmyA bm1) = [0%nat; 1%nat].
Proof.
  unfold ArmyOps.GetAliveUnits.
  rewrite (proj1 (updateArmies_GetAllUnits Sample.squadBattle Sample.squad 0.1)).
  cbn [ArmyOps.GetAllUnits ArmyA Sample.squadBattle ArmyOps.AddGroup
       ArmyOps.NewArmy Groups set_Groups app flat_map GroupOps.GetAllUnits
       Sample.squadGroup GroupOps.NewGroup Leader Members filter].
  destruct (squad_units_after 0%nat) as (-> & -> & _); [lia|].
  destruct (squad_units_after 1%nat) as (-> & -> & _); [lia|].
  reflexivity.
Qed.

Lemma squad_unitsB : ArmyOps.GetAliveUnits h2 (ArmyB bm1) = [2%nat].
Proof.
  unfold ArmyOps.GetAliveUnits.
  rewrite (proj2 (updateArmies_GetAllUnits Sample.squadBattle Sample.squad 0.1)).
  cbn [ArmyOps.GetAllUnits ArmyB Sample.squadBattle ArmyOps.AddGroup
       ArmyOps.NewArmy Groups set_Groups app flat_map GroupOps.GetAllUnits
       GroupOps.NewGroup Leader Members filter].
  destruct (squad_units_after 2%nat) as (-> & -> & _); [lia|].
  reflexivity.
Qed.

(** The member's own decision: approach the enemy leader, 50 units on. *)
Lemma squad_member_decides (h : Heap) :
  h 1%nat = h2 1%nat -> h 2%nat = h2 2%nat ->
  Target (AIOps.runAI h 1%nat [2%nat] 0.1 1%nat) = mkVector2D 65 0.
Proof.
  intros H1 H2.
  destruct (squad_units_after 1%nat) as (A1 & R1 & S1 & G1 & _ & _ & _ & I1);
    [lia|].
  destruct (squad_units_after 2%nat) as (A2 & R2 & S2 & G2 & P2 & M2 & T2 & _);
    [lia|].
  rewrite <- H1 in A1, R1, S1, G1, I1. rewrite <- H2 in A2, R2, S2, G2, P2, M2, T2.
  assert (Hd : Vec.Distance (Position (h 1%nat)) (Position (h 2%nat)) = 185).
  { rewrite H1, H2, squad_member_position, squad_enemy_position.
    rewrite Distance_horizontal; cbn; lra. }
  assert (Hvis : visible h 1%nat 2%nat = true).
  { unfold visible. rewrite A2, R2, Hd. unfold GetSightRange. cbn. fcmp.
    reflexivity. }
  unfold AIOps.runAI. rewrite I1.
  unfold AIOps.Update. rewrite A1, R1. cbn [negb orb].
  cbn [NewAIBehavior String.eqb Ascii.eqb Bool.eqb UnitTypeInfantry
       LastDecisionTime DecisionCooldown set_LastDecisionTime].
  rewrite (proj2 (flt_false_iff (0 + 0.1) 0.1)) by lra.
  unfold AIOps.selectTarget, AIOps.selectTarget_loop. cbn [fold_left].
  rewrite selectTarget_step_eq, Hvis. cbn [andb snd].
  pose proof (visible_score_lower h 1%nat 2%nat) as Hs.
  rewrite P2, M2 in Hs. specialize (Hs ltac:(lia) Hvis).
  unfold fgt. rewrite (proj2 (flt_true_iff _ _)) by lra.
  cbn [fst TargetEnemy set_TargetEnemy]. rewrite A2. cbn [negb].
  rewrite Hd.
  unfold AIOps.decideAction.
  cbn [TargetEnemy set_TargetEnemy PreferredRange set_LastDecisionTime].
  unfold GetCollisionRadius. rewrite S1, S2, G1.
  rewrite (proj2 (fle_false_iff _ _)) by lra. cbn [andb].
  unfold fgt.
  rewrite (proj2 (flt_true_iff (15 * 1.2) (185 - 3 * 1 - 3 * 1))) by lra.
  unfold AIOps.executeAction. cbn [CurrentAction set_CurrentAction].
  unfold AIOps.moveTowardsTarget.
  cbn [TargetEnemy set_TargetEnemy set_CurrentAction PreferredRange
       set_LastDecisionTime].
  rewrite Hd. unfold GetCollisionRadius. rewrite S1, S2.
  unfold fgt.
  rewrite (proj2 (flt_true_iff (15 * 0.9 + (3 * 1 + 3 * 1)) 185)) by lra.
  rewrite !modify_same. cbn [Target set_AI MoveTo set_Target].
  rewrite H1, H2, squad_member_position, squad_enemy_position.
  rewrite Normalize_horizontal by (cbn; lra).
  rewrite Rmin_right by lra.
  unfold Vec.Add, Vec.Mul. cbn [X Y]. f_equal; lra.
Qed.

Lemma squad_member_target_after_ai :
  Target (Battle.updateAI bm1 h2 0.1 1%nat) = mkVector2D 65 0.
Proof.
  unfold Battle.updateAI. cbv zeta. rewrite squad_unitsA, squad_unitsB.
  rewrite aiPass_other by (cbn; intuition discriminate).
  unfold Battle.aiPass. cbn [fold_left].
  apply squad_member_decides; apply runAI_other; discriminate.
Qed.

End SquadAI.

(** C1, as stated, fails: in the sample squad the member is sent to its
    slot [(50, 0)] in the movement step; the AI pass that follows decides to
    approach the enemy leader and leaves the target [(65, 0)]. *)
Lemma ai_pass_overwrites_formation_slot : ~ spec_formation_overrides_ai.
Proof.
  intros H.
  specialize (H Sample.squadBattle Sample.squad 0.1 Sample.squadGroup
                0%nat 1%nat 0%nat eq_refl squad_disjoint).
  rewrite squad_slot in H.
  rewrite tick_Target in H by reflexivity.
  rewrite squad_member_target_after_ai in H.
  assert (E : mkVector2D 65 0 = mkVector2D 50 0).
  { apply H; try reflexivity. cbn. now left. }
  apply (f_equal X) in E. cbn in E. lra.
Qed.

Lemma formation_written_before_ai_pass_witness :
  Target (snd (Battle.updateArmies Sample.squadBattle Sample.squad 0.1) 1%nat)
  = mkVector2D 50 0.
Proof.
  rewrite <- squad_slot.
  refine (proj1 (formation_written_before_ai_pass
                   Sample.squadBattle Sample.squad 0.1 Sample.squadGroup
                   0%nat 1%nat 0%nat eq_refl squad_disjoint _ eq_refl
                   eq_refl eq_refl)).
  cbn. now left.
Defined.

(** * Further properties of the engine *)

(** ** Vectors *)

Section VectorFacts.

Lemma Length_nonneg (v : Vector2D) : 0 <= Vec.Length v.
Proof. unfold Vec.Length. apply sqrt_pos. Qed.

Lemma Length_zero_iff (v : Vector2D) : Vec.Length v = 0 <-> v = Vec.zero.
Proof.
  split.
  - intros H. pose proof (Length_sqr v) as Hs. rewrite H in Hs.
    destruct v as [x y]. cbn in *. unfold Vec.zero.
    assert (x = 0) by nra. assert (y = 0) by nra. now subst.
  - intros ->. unfold Vec.Length, Vec.zero. cbn.
    replace (0 * 0 + 0 * 0) with 0 by ring. apply sqrt_0.
Qed.

Lemma Cauchy_Schwarz (a b : Vector2D) :
  Vec.Dot a b <= Vec.Length a * Vec.Length b.
Proof.
  pose proof (Length_sqr a) as Ha. pose proof (Length_sqr b) as Hb.
  pose proof (Length_nonneg a) as Pa. pose proof (Length_nonneg b) as Pb.
  unfold Vec.Dot. set (la := Vec.Length a) in *. set (lb := Vec.Length b) in *.
  destruct (Rle_dec (X a * X b + Y a * Y b) (la * lb)) as [H|H]; [exact H|].
  exfalso. apply Rnot_le_lt in H.
  assert (Hsq : (la * lb) * (la * lb) < (X a * X b + Y a * Y b) * (X a * X b + Y a * Y b)).
  { assert (0 <= la * lb) by nra. nra. }
  assert (Hc : (X a * X b + Y a * Y b) * (X a * X b + Y a * Y b)
               <= (la * la) * (lb * lb)).
  { rewrite Ha, Hb.
    pose proof (Rle_0_sqr (X a * Y b - Y a * X b)) as Hq. unfold Rsqr in Hq.
    nra. }
  nra.
Qed.

Lemma Length_triangle (a b : Vector2D) :
  Vec.Length (Vec.Add a b) <= Vec.Length a + Vec.Length b.
Proof.
  pose proof (Length_sqr a) as Ha. pose proof (Length_sqr b) as Hb.
  pose proof (Length_sqr (Vec.Add a b)) as Hab.
  pose proof (Length_nonneg a) as Pa. pose proof (Length_nonneg b) as Pb.
  pose proof (Length_nonneg (Vec.Add a b)) as Pab.
  pose proof (Cauchy_Schwarz a b) as Hcs. unfold Vec.Dot in Hcs.
  cbn [Vec.Add X Y] in Hab.
  set (la := Vec.Length a) in *. set (lb := Vec.Length b) in *.
  set (lab := Vec.Length (Vec.Add a b)) in *.
  destruct (Rle_dec lab (la + lb)) as [H|H]; [exact H|].
  exfalso. apply Rnot_le_lt in H.
  assert ((la + lb) * (la + lb) < lab * lab) by nra.
  nra.
Qed.

End VectorFacts.

(** X1.  [Normalize] returns the zero vector for the zero vector and a
    vector of length 1 otherwise, and scaling the result by the length gives
    the vector back. *)
Theorem Normalize_unit_or_zero (v : Vector2D) :
  Vec.Normalize Vec.zero = Vec.zero /\
  Vec.Length (Vec.Normalize v) = (if feq (Vec.Length v) 0 then 0 else 1) /\
  Vec.Mul (Vec.Normalize v) (Vec.Length v) = v.
Proof.
  assert (Hz : Vec.Length Vec.zero = 0) by now apply Length_zero_iff.
  split.
  { unfold Vec.Normalize. cbv zeta. rewrite Hz.
    now rewrite (proj2 (feq_true_iff 0 0)). }
  unfold Vec.Normalize. cbv zeta.
  destruct (feq (Vec.Length v) 0) eqn:E.
  - apply feq_true_iff in E. split; [exact Hz|].
    rewrite E. apply Length_zero_iff in E. subst v.
    unfold Vec.Mul, Vec.zero. cbn. f_equal; ring.
  - apply feq_false_iff in E.
    pose proof (Length_sqr v) as Hs. pose proof (Length_nonneg v) as Hp.
    set (l := Vec.Length v) in *. split.
    + unfold Vec.Length at 1. cbn [X Y].
      replace (X v / l * (X v / l) + Y v / l * (Y v / l)) with (Rsqr 1).
      * apply sqrt_Rsqr. lra.
      * unfold Rsqr. symmetry.
        transitivity ((X v * X v + Y v * Y v) / (l * l)); [field; exact E|].
        rewrite <- Hs. field. exact E.
    + destruct v as [x y]. unfold Vec.Mul. cbn [X Y] in *.
      f_equal; field; exact E.
Qed.

(** X2.  [Distance] is a metric on the plane: it is never negative,
    symmetric, zero exactly between equal points, and satisfies the
    triangle inequality. *)
Theorem Distance_is_a_metric (u v w : Vector2D) :
  0 <= Vec.Distance u v /\
  Vec.Distance u v = Vec.Distance v u /\
  (Vec.Distance u v = 0 <-> u = v) /\
  Vec.Distance u w <= Vec.Distance u v + Vec.Distance v w.
Proof.
  split; [apply Distance_nonneg|]. split; [apply Distance_sym|]. split.
  - rewrite Distance_Length, Length_zero_iff.
    destruct u as [x1 y1], v as [x2 y2]. unfold Vec.Sub, Vec.zero. cbn.
    split.
    + intros H. injection H as H1 H2. f_equal; lra.
    + intros H. injection H as -> ->. f_equal; ring.
  - rewrite !Distance_Length.
    replace (Vec.Sub u w) with (Vec.Add (Vec.Sub u v) (Vec.Sub v w)).
    + apply Length_triangle.
    + unfold Vec.Add, Vec.Sub. cbn. f_equal; ring.
Qed.

(** ** Units *)

Section UnitFacts.

Import UnitOps.

Lemma Update_LastAttackTime (u : Unit) (dt : R) :
  IsAlive u = true ->
  LastAttackTime (Update u dt)
  = if fgt (LastAttackTime u) 0
    then (if flt (LastAttackTime u - dt) 0 then 0 else LastAttackTime u - dt)
    else LastAttackTime u.
Proof.
  intros Ha. unfold Update. rewrite Ha. cbn [negb]. cbv zeta.
  destruct (fgt (Vec.Distance _ _) _); reflexivity.
Qed.

Lemma Update_dead (u : Unit) (dt : R) :
  IsAlive u = false ->
  exists a, Update u dt = set_Animation u a.
Proof.
  intros Ha. unfold Update. rewrite Ha. cbn [negb]. eexists. reflexivity.
Qed.

End UnitFacts.

(** X3.  For a living unit whose remaining cooldown is not negative and a
    time step that is not negative, [Update] brings the cooldown to
    [max(0, cooldown - dt)]: it never becomes negative, and the unit can
    attack after the update exactly when the step covers what remained. *)
Theorem Update_cooldown_runs_down_to_zero (u : Unit) (dt : R) :
  IsAlive u = true -> 0 <= LastAttackTime u -> 0 <= dt ->
  LastAttackTime (UnitOps.Update u dt) = Rmax 0 (LastAttackTime u - dt) /\
  0 <= LastAttackTime (UnitOps.Update u dt) <= LastAttackTime u /\
  (UnitOps.CanAttack (UnitOps.Update u dt) = true <-> LastAttackTime u <= dt).
Proof.
  intros Ha Hl Hdt.
  assert (E : LastAttackTime (UnitOps.Update u dt)
              = Rmax 0 (LastAttackTime u - dt)).
  { rewrite Update_LastAttackTime by assumption. unfold fgt, flt.
    destruct (Rlt_dec 0 (LastAttackTime u)).
    - destruct (Rlt_dec (LastAttackTime u - dt) 0).
      + rewrite Rmax_left; lra.
      + rewrite Rmax_right; lra.
    - rewrite Rmax_left; lra. }
  split; [exact E|]. split.
  - rewrite E. unfold Rmax. destruct (Rle_dec 0 (LastAttackTime u - dt)); lra.
  - unfold UnitOps.CanAttack.
    destruct (Unit_Update_fields u dt) as (_ & _ & -> & _).
    rewrite Ha, E. cbn [andb]. rewrite fle_true_iff.
    unfold Rmax. destruct (Rle_dec 0 (LastAttackTime u - dt)); lra.
Qed.

Lemma Update_cooldown_runs_down_to_zero_witness :
  LastAttackTime
    (UnitOps.Update (set_LastAttackTime (Sample.duel 0%nat) 1) 0.25)
  = Rmax 0 (1 - 0.25).
Proof.
  refine (proj1 (Update_cooldown_runs_down_to_zero
                   (set_LastAttackTime (Sample.duel 0%nat) 1) 0.25 eq_refl _ _));
    cbn; lra.
Defined.

(** X4.  A living unit that is farther from its target than its collision
    radius (with a size that is not negative) moves by exactly [Speed * dt]
    along the straight line to the target, and ends at distance
    [|d - Speed * dt|] from it, so a large step overshoots; one that is
    within the radius stays; a dead unit only has its animation changed.
    [Update] never touches target, hit points or the alive and retreat
    flags. *)
Theorem Update_moves_straight_at_speed (u : Unit) (dt : R) :
  (IsAlive u = true -> 0 <= Size u -> 0 <= Speed u * dt ->
   UnitOps.GetCollisionRadius u < Vec.Distance (Position u) (Target u) ->
   Vec.Distance (Position u) (Position (UnitOps.Update u dt)) = Speed u * dt /\
   Vec.Distance (Position (UnitOps.Update u dt)) (Target u)
   = Rabs (Vec.Distance (Position u) (Target u) - Speed u * dt)) /\
  (IsAlive u = true ->
   Vec.Distance (Position u) (Target u) <= UnitOps.GetCollisionRadius u ->
   Position (UnitOps.Update u dt) = Position u) /\
  (IsAlive u = false ->
   exists a, UnitOps.Update u dt = set_Animation u a) /\
  Target (UnitOps.Update u dt) = Target u /\
  HP (UnitOps.Update u dt) = HP u /\
  IsAlive (UnitOps.Update u dt) = IsAlive u /\
  IsRetreating (UnitOps.Update u dt) = IsRetreating u.
Proof.
  split.
  { intros Ha Hsz Hs Hd.
    assert (Hpos : 0 < Vec.Distance (Position u) (Target u)).
    { unfold UnitOps.GetCollisionRadius in Hd. lra. }
    rewrite Update_moving by assumption.
    split.
    - rewrite Distance_sym, Distance_Length.
      replace (Vec.Sub (Vec.Add (Position u)
                 (Vec.Mul (Vec.Normalize (Vec.Sub (Target u) (Position u)))
                          (Speed u * dt))) (Position u))
        with (Vec.Mul (Vec.Normalize (Vec.Sub (Target u) (Position u)))
                      (Speed u * dt))
        by (unfold Vec.Sub, Vec.Add, Vec.Mul; cbn [X Y]; f_equal; ring).
      apply push_length; [exact Hpos|exact Hs].
    - rewrite Normalize_nonzero by (rewrite Length_Sub_sym; lra).
      rewrite Length_Sub_sym.
      pose proof (Distance_sqr (Position u) (Target u)) as HL.
      pose proof (Distance_nonneg (Position u) (Target u)) as H0.
      destruct (Position u) as [px py], (Target u) as [tx ty].
      cbn [X Y] in HL.
      generalize dependent (Vec.Distance (mkVector2D px py) (mkVector2D tx ty)).
      intros d Hd Hpos HL H0.
      generalize dependent (Speed u * dt). intros s Hs.
      unfold Vec.Distance at 1, Vec.Add, Vec.Mul, Vec.Sub. cbn [X Y]. cbv zeta.
      rewrite <- sqrt_Rsqr_abs. f_equal. unfold Rsqr.
      transitivity (((px - tx) * (px - tx) + (py - ty) * (py - ty))
                    * ((d - s) * (d - s)) / (d * d)).
      + field. lra.
      + rewrite <- HL. field. lra. }
  split; [intros; now apply Update_at_rest|].
  split; [apply Update_dead|].
  destruct (Unit_Update_fields u dt) as (H1 & _ & H3 & H4 & H5 & _). auto.
Qed.

Lemma Update_moves_straight_at_speed_witness :
  Vec.Distance (Position (Sample.marching 0%nat))
               (Position (UnitOps.Update (Sample.marching 0%nat) 0.1))
  = Speed (Sample.marching 0%nat) * 0.1.
Proof.
  assert (Hd : Vec.Distance (Position (Sample.marching 0%nat))
                            (Target (Sample.marching 0%nat)) = 100).
  { rewrite Distance_horizontal; cbn; lra. }
  refine (proj1 (proj1 (Update_moves_straight_at_speed
                          (Sample.marching 0%nat) 0.1) eq_refl _ _ _)).
  - cbn. lra.
  - cbn. lra.
  - rewrite Hd. unfold UnitOps.GetCollisionRadius. cbn. lra.
Defined.

(** ** Damage, attacks and collisions *)

(** X5.  Damage accumulates: with hit points and damages that are not
    negative and fit an [int], two hits of [d1] and [d2] leave the unit in
    the state one hit of [d1 + d2] leaves it in.  A single hit on a living
    unit leaves [max(0, HP - d)] hit points and the unit lives on exactly
    when the damage was less than its hit points; a dead unit is not
    changed. *)
Theorem TakeDamage_accumulates (u : Unit) (d1 d2 : Z) :
  (0 <= HP u)%Z -> in_int (HP u) ->
  (0 <= d1)%Z -> (0 <= d2)%Z -> in_int (d1 + d2) ->
  UnitOps.TakeDamage (UnitOps.TakeDamage u d1) d2
  = UnitOps.TakeDamage u (d1 + d2) /\
  HP (UnitOps.TakeDamage u d1)
  = (if IsAlive u then Z.max 0 (HP u - d1) else HP u) /\
  IsAlive (UnitOps.TakeDamage u d1) = (IsAlive u && (d1 <? HP u)%Z)%bool /\
  (IsAlive u = false -> UnitOps.TakeDamage u d1 = u).
Proof.
  intros H0 Hi Hd1 Hd2 Hs. unfold in_int in *.
  assert (W : forall d, (0 <= d <= d1 + d2)%Z -> int_sub (HP u) d = (HP u - d)%Z).
  { intros d Hd. unfold int_sub. apply wrap64_id. unfold in_int. lia. }
  assert (S1 : forall d, (0 <= d <= d1 + d2)%Z ->
             UnitOps.TakeDamage u d
             = if IsAlive u
               then if (HP u - d <=? 0)%Z
                    then set_IsAlive (set_HP (set_HP u (HP u - d)) 0) false
                    else set_HP u (HP u - d)
               else u).
  { intros d Hd. unfold UnitOps.TakeDamage. destruct (IsAlive u); cbn [negb]; [|reflexivity].
    cbv zeta. rewrite (W d Hd). cbn [HP set_HP]. reflexivity. }
  split; [|split; [|split]].
  - rewrite (S1 d1) by lia. rewrite (S1 (d1 + d2)%Z) by lia.
    destruct (IsAlive u) eqn:Ha.
    + destruct (Z.leb_spec (HP u - d1) 0).
      * rewrite (proj2 (Z.leb_le (HP u - (d1 + d2)) 0)) by lia.
        unfold UnitOps.TakeDamage. cbn. reflexivity.
      * unfold UnitOps.TakeDamage. cbn [IsAlive set_HP negb]. rewrite Ha.
        cbn [negb]. cbv zeta. cbn [HP set_HP].
        unfold int_sub. rewrite wrap64_id by (unfold in_int; lia).
        replace (HP u - d1 - d2)%Z with (HP u - (d1 + d2))%Z by lia.
        destruct (HP u - (d1 + d2) <=? 0)%Z; reflexivity.
    + unfold UnitOps.TakeDamage. rewrite Ha. reflexivity.
  - rewrite (S1 d1) by lia. destruct (IsAlive u); [|reflexivity].
    destruct (Z.leb_spec (HP u - d1) 0); cbn [HP set_HP set_IsAlive]; lia.
  - rewrite (S1 d1) by lia. destruct (IsAlive u) eqn:Ha; [|now rewrite Ha].
    cbn [andb].
    destruct (Z.leb_spec (HP u - d1) 0), (Z.ltb_spec d1 (HP u));
      cbn [IsAlive set_HP set_IsAlive]; try lia; auto.
  - intros Ha. unfold UnitOps.TakeDamage. now rewrite Ha.
Qed.

Lemma TakeDamage_accumulates_witness :
  UnitOps.TakeDamage (UnitOps.TakeDamage (Sample.duel 1%nat) 30) 80
  = UnitOps.TakeDamage (Sample.duel 1%nat) (30 + 80).
Proof.
  refine (proj1 (TakeDamage_accumulates (Sample.duel 1%nat) 30 80 _ _ _ _ _));
    cbn; unfold in_int; lia.
Defined.

Lemma Attack_carried_out (h : Heap) (a t : UnitRef) :
  snd (UnitOps.Attack h a t) <> 0%Z ->
  (1 <= snd (UnitOps.Attack h a t))%Z /\
  exists h2,
    AttackCooldown (h2 a) = AttackCooldown (h a) /\
    fst (UnitOps.Attack h a t)
    = modify h2 a (fun u => set_LastAttackTime u (AttackCooldown u)).
Proof.
  unfold UnitOps.Attack.
  destruct (negb (UnitOps.CanAttack (h a)) || negb (IsAlive (h t)))%bool;
    [cbn; congruence|].
  cbv zeta.
  destruct (fgt _ _); [cbn; congruence|].
  cbn [fst snd]. intros _.
  set (h1 := modify h a _).
  split.
  - destruct (Z.ltb_spec (int_sub (if String.eqb (Type_ (h1 a)) UnitTypeMage
        then int_add (AttackPower (h1 a)) (MagicPower (h1 a))
        else AttackPower (h1 a)) (Defense (h1 t))) 1); lia.
  - eexists. split; [|reflexivity].
    rewrite (modify_frame AttackCooldown).
    + subst h1. rewrite (modify_frame AttackCooldown); [reflexivity|].
      intros u. reflexivity.
    + intros u. unfold UnitOps.TakeDamage.
      destruct (negb (IsAlive u)); [reflexivity|]. cbv zeta.
      destruct (_ <=? 0)%Z; reflexivity.
Qed.

(** X6.  An attack that returns a damage other than zero was carried out,
    and it leaves the attacker with its full cooldown; with a positive
    cooldown the attacker cannot attack again at once: a second attack on
    any unit returns 0 and changes nothing. *)
Theorem Attack_starts_cooldown (h : Heap) (a t t' : UnitRef) :
  snd (UnitOps.Attack h a t) <> 0%Z ->
  (1 <= snd (UnitOps.Attack h a t))%Z /\
  LastAttackTime (fst (UnitOps.Attack h a t) a) = AttackCooldown (h a) /\
  (0 < AttackCooldown (h a) ->
   UnitOps.CanAttack (fst (UnitOps.Attack h a t) a) = false /\
   UnitOps.Attack (fst (UnitOps.Attack h a t)) a t'
   = (fst (UnitOps.Attack h a t), 0%Z)).
Proof.
  intros Hs. destruct (Attack_carried_out h a t Hs) as (Hd & h2 & Hcd & E).
  split; [exact Hd|].
  assert (HL : LastAttackTime (fst (UnitOps.Attack h a t) a)
               = AttackCooldown (h a)).
  { rewrite E, modify_same. cbn [LastAttackTime set_LastAttackTime]. exact Hcd. }
  split; [exact HL|].
  intros Hpos.
  assert (HC : UnitOps.CanAttack (fst (UnitOps.Attack h a t) a) = false).
  { unfold UnitOps.CanAttack. rewrite HL.
    rewrite (proj2 (fle_false_iff _ _) Hpos). apply andb_false_r. }
  split; [exact HC|].
  generalize dependent (fst (UnitOps.Attack h a t)). intros h' _ _ HC.
  unfold UnitOps.Attack. rewrite HC. reflexivity.
Qed.

Lemma Attack_starts_cooldown_witness :
  UnitOps.CanAttack (fst (UnitOps.Attack Sample.duel 0%nat 1%nat) 0%nat) = false.
Proof.
  refine (proj1 (proj2 (proj2 (Attack_starts_cooldown Sample.duel 0%nat 1%nat 1%nat _)) _)).
  - unfold UnitOps.Attack.
    replace (negb (UnitOps.CanAttack (Sample.duel 0%nat))
             || negb (IsAlive (Sample.duel 1%nat)))%bool with false.
    2:{ unfold UnitOps.CanAttack. cbn [Sample.duel IsAlive LastAttackTime].
        symmetry. cbn. rewrite (proj2 (fle_true_iff 0 0)) by lra. reflexivity. }
    cbv zeta. rewrite duel_distance.
    replace (fgt _ _) with false.
    2:{ symmetry. apply flt_false_iff. unfold UnitOps.GetCollisionRadius. cbn. lra. }
    cbn. lia.
  - cbn. lra.
Defined.

(** ** The collision pass *)

Section CollisionPass.

Import UnitOps.

Lemma positionSum_cons (h : Heap) (x : UnitRef) (l : list UnitRef) :
  positionSum h (x :: l) = Vec.Add (Position (h x)) (positionSum h l).
Proof. reflexivity. Qed.

Lemma positionSum_ext (h h' : Heap) (l : list UnitRef) :
  (forall r, In r l -> Position (h' r) = Position (h r)) ->
  positionSum h' l = positionSum h l.
Proof.
  induction l as [|x l IH]; intros H; [reflexivity|].
  rewrite !positionSum_cons.
  rewrite H by now left. rewrite IH; [reflexivity|].
  intros r Hr. apply H. now right.
Qed.

Lemma positionSum_modify (h : Heap) (r : UnitRef) (f : Unit -> Unit)
      (l : list UnitRef) :
  NoDup l -> In r l ->
  positionSum (modify h r f) l
  = Vec.Add (positionSum h l) (Vec.Sub (Position (f (h r))) (Position (h r))).
Proof.
  induction l as [|x l IH]; intros Hn Hin; [destruct Hin|].
  inversion Hn as [|? ? Hx Hl]; subst. rewrite !positionSum_cons.
  destruct (Nat.eq_dec x r) as [->|Hne].
  - rewrite modify_same.
    rewrite (positionSum_ext h (modify h r f) l).
    + unfold Vec.Add, Vec.Sub. cbn [X Y]. f_equal; ring.
    + intros r' Hr'. rewrite modify_other; [reflexivity|].
      intros ->. contradiction.
  - rewrite modify_other by assumption.
    rewrite IH; [|assumption|destruct Hin; [contradiction|assumption]].
    unfold Vec.Add, Vec.Sub. cbn [X Y]. f_equal; ring.
Qed.

Lemma ResolveCollision_self (h : Heap) (a : UnitRef) :
  ResolveCollision h a a = h.
Proof.
  unfold ResolveCollision. destruct (_ || _); [reflexivity|]. cbv zeta.
  rewrite Distance_self. unfold fgt.
  rewrite (proj2 (flt_false_iff 0 0)) by lra.
  now rewrite andb_false_r.
Qed.

Lemma ResolveCollision_positionSum (h : Heap) (a b : UnitRef)
      (l : list UnitRef) :
  NoDup l -> In a l -> In b l ->
  positionSum (ResolveCollision h a b) l = positionSum h l.
Proof.
  intros Hn Ha Hb.
  destruct (Nat.eq_dec a b) as [->|Hne]; [now rewrite ResolveCollision_self|].
  unfold ResolveCollision. destruct (_ || _); [reflexivity|]. cbv zeta.
  destruct (_ && _); [|reflexivity].
  rewrite !positionSum_modify by assumption.
  rewrite modify_other by congruence.
  cbn [Position set_Position].
  destruct (positionSum h l) as [sx sy].
  unfold Vec.Add, Vec.Sub, Vec.Mul. cbn [X Y]. f_equal; ring.
Qed.

Lemma collideWith_positionSum (l : list UnitRef) (u : UnitRef)
      (rest : list UnitRef) :
  NoDup l -> In u l -> incl rest l ->
  forall h, positionSum (Battle.collideWith u rest h) l = positionSum h l.
Proof.
  intros Hn Hu. unfold Battle.collideWith.
  induction rest as [|v rest IH]; intros Hi h; cbn [fold_left]; [reflexivity|].
  rewrite IH by (intros x Hx; apply Hi; now right).
  destruct (IsCollidingWith _ _); [|reflexivity].
  apply ResolveCollision_positionSum; auto. apply Hi. now left.
Qed.

Lemma collidePairs_positionSum (l : list UnitRef) (us : list UnitRef) :
  NoDup l -> incl us l ->
  forall h, positionSum (Battle.collidePairs us h) l = positionSum h l.
Proof.
  intros Hn. induction us as [|u us IH]; intros Hi h; cbn; [reflexivity|].
  rewrite IH by (intros x Hx; apply Hi; now right).
  apply collideWith_positionSum; auto.
  - apply Hi. now left.
  - intros x Hx. apply Hi. now right.
Qed.

Lemma IsCollidingWith_sym (u v : Unit) :
  IsCollidingWith u v = IsCollidingWith v u.
Proof.
  unfold IsCollidingWith. rewrite orb_comm.
  destruct (_ || _); [reflexivity|]. cbv zeta.
  rewrite Distance_sym, Rplus_comm. reflexivity.
Qed.

Lemma collideWith_apart (u : UnitRef) (rest : list UnitRef) (h : Heap) :
  (forall v, In v rest -> u <> v -> IsCollidingWith (h u) (h v) = false) ->
  Battle.collideWith u rest h = h.
Proof.
  unfold Battle.collideWith.
  induction rest as [|v rest IH]; intros H; cbn [fold_left]; [reflexivity|].
  assert (E : (if IsCollidingWith (h u) (h v)
               then ResolveCollision h u v else h) = h).
  { destruct (Nat.eq_dec u v) as [->|Hne].
    - rewrite ResolveCollision_self. now destruct (IsCollidingWith _ _).
    - rewrite H; [reflexivity|now left|assumption]. }
  etransitivity; [|apply IH; intros w Hw; apply H; now right].
  f_equal. exact E.
Qed.

Lemma collidePairs_apart (us : list UnitRef) (h : Heap) :
  (forall u v, In u us -> In v us -> u <> v ->
               IsCollidingWith (h u) (h v) = false) ->
  Battle.collidePairs us h = h.
Proof.
  induction us as [|u us IH]; intros H; cbn; [reflexivity|].
  rewrite collideWith_apart.
  - apply IH. intros v w Hv Hw. apply H; now right.
  - intros v Hv. apply H; [now left|now right].
Qed.

End CollisionPass.

(** X7.  When every unit is listed once in the battle, the collision pass
    keeps the sum of the positions of all units, hence their centroid:
    each push moves the two units by opposite amounts.  The pass changes
    nothing but positions, and only of units that are alive and not
    retreating. *)
Theorem handleCollisions_keeps_centroid (bm : BattleManager) (h : Heap) :
  disjoint_groups bm ->
  let all := ArmyOps.GetAllUnits (ArmyA bm) ++ ArmyOps.GetAllUnits (ArmyB bm) in
  positionSum (Battle.handleCollisions bm h) all = positionSum h all /\
  (forall r, set_Position (Battle.handleCollisions bm h r) (Position (h r)) = h r) /\
  (forall r, active (h r) = false -> Battle.handleCollisions bm h r = h r).
Proof.
  intros Hd all. split; [|split].
  - apply collidePairs_positionSum; [exact Hd|].
    intros x Hx. apply in_app_or in Hx. apply in_or_app.
    destruct Hx as [Hx|Hx]; apply GetAliveUnits_spec in Hx; tauto.
  - intros r.
    apply (handleCollisions_rel (fun u u' => set_Position u' (Position u) = u)).
    + intros u. now destruct u.
    + intros u v w H1 H2. rewrite <- H1 at 2. rewrite <- H2. reflexivity.
    + intros u p. now destruct u.
  - intros r. apply handleCollisions_inert.
Qed.

Lemma handleCollisions_keeps_centroid_witness :
  positionSum (Battle.handleCollisions Sample.squadBattle Sample.squad)
              [0%nat; 1%nat; 2%nat]
  = positionSum Sample.squad [0%nat; 1%nat; 2%nat].
Proof.
  refine (proj1 (handleCollisions_keeps_centroid Sample.squadBattle
                   Sample.squad _)).
  unfold disjoint_groups. cbn. repeat constructor; cbn; intuition discriminate.
Defined.

(** X8.  Overlap is a symmetric test, a unit never collides with a dead
    one, and a collision pass in which no two different units that take
    part overlap changes nothing at all. *)
Theorem no_overlap_no_push (bm : BattleManager) (h : Heap) :
  (forall u v,
     In u (ArmyOps.GetAliveUnits h (ArmyA bm) ++ ArmyOps.GetAliveUnits h (ArmyB bm)) ->
     In v (ArmyOps.GetAliveUnits h (ArmyA bm) ++ ArmyOps.GetAliveUnits h (ArmyB bm)) ->
     u <> v -> UnitOps.IsCollidingWith (h u) (h v) = false) ->
  Battle.handleCollisions bm h = h /\
  (forall u v, UnitOps.IsCollidingWith u v = UnitOps.IsCollidingWith v u) /\
  (forall u v, IsAlive v = false -> UnitOps.IsCollidingWith u v = false).
Proof.
  intros H. split; [|split].
  - unfold Battle.handleCollisions. now apply collidePairs_apart.
  - apply IsCollidingWith_sym.
  - intros u v Hv. unfold UnitOps.IsCollidingWith. rewrite Hv.
    now rewrite orb_true_r.
Qed.

Lemma no_overlap_no_push_witness :
  Battle.handleCollisions Sample.duelBattle Sample.duel = Sample.duel.
Proof.
  refine (proj1 (no_overlap_no_push Sample.duelBattle Sample.duel _)).
  assert (Hc : forall u v, In u [0%nat; 1%nat] -> In v [0%nat; 1%nat] -> u <> v ->
                 UnitOps.IsCollidingWith (Sample.duel u) (Sample.duel v) = false).
  { intros u v Hu Hv Hne.
    assert (Hd : UnitOps.IsCollidingWith (Sample.duel 0%nat) (Sample.duel 1%nat)
                 = false).
    { unfold UnitOps.IsCollidingWith.
      replace (negb _ || negb _)%bool with false by reflexivity.
      cbv zeta. rewrite duel_distance. apply flt_false_iff.
      unfold UnitOps.GetCollisionRadius. cbn. lra. }
    destruct Hu as [<-|[<-|[]]], Hv as [<-|[<-|[]]]; try congruence.
    rewrite IsCollidingWith_sym. exact Hd. }
  intros u v Hu Hv. apply Hc.
  - apply in_app_or in Hu.
    destruct Hu as [Hu|Hu]; apply GetAliveUnits_spec in Hu;
      destruct Hu as (Hu & _); cbn in Hu |- *; tauto.
  - apply in_app_or in Hv.
    destruct Hv as [Hv|Hv]; apply GetAliveUnits_spec in Hv;
      destruct Hv as (Hv & _); cbn in Hv |- *; tauto.
Defined.

(** ** Groups and armies *)

Section GroupFacts.

Import UnitOps.

Local Abbreviation retreat :=
  (fun u : Unit =>
     if IsAlive u && negb (IsRetreating u)
     then StartRetreating u (GroupOps.exitPoint u) else u).

Lemma retreat_inactive (u : Unit) : active (retreat u) = false.
Proof.
  unfold active. cbv beta.
  destruct (IsAlive u && negb (IsRetreating u)) eqn:E; [|exact E].
  cbn. apply andb_false_r.
Qed.

Lemma handleLeaderDeath_fold (m : UnitRef) (l : list UnitRef) :
  forall h,
    fold_left
      (fun h1 x => if IsAlive (h1 x) && negb (IsRetreating (h1 x))
                   then modify h1 x (fun u => StartRetreating u (GroupOps.exitPoint u))
                   else h1) l h m
    = if existsb (Nat.eqb m) l then retreat (h m) else h m.
Proof.
  induction l as [|x l IH]; intros h; cbn [fold_left existsb]; [reflexivity|].
  rewrite IH. clear IH.
  destruct (Nat.eqb_spec m x) as [->|Hne]; cbn [orb].
  - pose proof (retreat_inactive (h x)) as Hi. unfold active in Hi.
    cbv beta in Hi |- *.
    destruct (IsAlive (h x) && negb (IsRetreating (h x))) eqn:E.
    + rewrite modify_same. rewrite Hi. destruct (existsb (Nat.eqb x) l); reflexivity.
    + rewrite E. destruct (existsb (Nat.eqb x) l); reflexivity.
  - destruct (IsAlive (h x) && negb (IsRetreating (h x)));
      [rewrite modify_other by assumption|]; reflexivity.
Qed.

Lemma handleLeaderDeath_settled (l : list UnitRef) (h : Heap) :
  (forall m, In m l -> active (h m) = false) ->
  fold_left
    (fun h1 x => if IsAlive (h1 x) && negb (IsRetreating (h1 x))
                 then modify h1 x (fun u => StartRetreating u (GroupOps.exitPoint u))
                 else h1) l h
  = h.
Proof.
  induction l as [|x l IH]; intros H; cbn [fold_left]; [reflexivity|].
  pose proof (H x (or_introl eq_refl)) as Hx. unfold active in Hx.
  rewrite Hx. apply IH. intros m Hm. apply H. now right.
Qed.

End GroupFacts.

(** X9.  The retreat order of a group that lost its leader: every member
    that is alive and not yet retreating is set retreating with its target
    on its own height at the left edge ([x = -100]) or, for the army with
    id 1, at the right edge ([x = 1124]); all other units are not changed.
    Afterwards the group has no member left for the formation, and giving
    the order again changes nothing. *)
Theorem handleLeaderDeath_orders_retreat (g : Group) (h : Heap) :
  (forall m, In m (Members g) ->
     GroupOps.handleLeaderDeath g h m
     = if active (h m)
       then set_Target (set_IsRetreating (h m) true)
              (mkVector2D (if (ArmyID (h m) =? 1)%Z then 1124 else -100)
                          (Y (Position (h m))))
       else h m) /\
  (forall r, ~ In r (Members g) -> GroupOps.handleLeaderDeath g h r = h r) /\
  GroupOps.getAliveMembers (GroupOps.handleLeaderDeath g h) g = [] /\
  GroupOps.handleLeaderDeath g (GroupOps.handleLeaderDeath g h)
  = GroupOps.handleLeaderDeath g h.
Proof.
  split; [|split; [|split]].
  - intros m Hm. unfold GroupOps.handleLeaderDeath.
    rewrite handleLeaderDeath_fold.
    replace (existsb (Nat.eqb m) (Members g)) with true.
    + unfold active, UnitOps.StartRetreating, GroupOps.exitPoint.
      destruct (IsAlive (h m) && negb (IsRetreating (h m))); [|reflexivity].
      cbv zeta. destruct (ArmyID (h m) =? 1)%Z; reflexivity.
    + symmetry. apply existsb_exists. exists m. split; [exact Hm|].
      apply Nat.eqb_refl.
  - intros r Hr. unfold GroupOps.handleLeaderDeath.
    rewrite handleLeaderDeath_fold.
    replace (existsb (Nat.eqb r) (Members g)) with false; [reflexivity|].
    symmetry. apply not_true_is_false. intros He.
    apply existsb_exists in He. destruct He as (x & Hx & E).
    apply Nat.eqb_eq in E. subst. contradiction.
  - unfold GroupOps.getAliveMembers.
    assert (F : forall (f : UnitRef -> bool) l,
              (forall x, In x l -> f x = false) -> filter f l = []).
    { intros f l. induction l as [|x l IH]; intros H; cbn; [reflexivity|].
      rewrite H by now left. apply IH. intros y Hy. apply H. now right. }
    apply F. intros m Hm.
    exact (handleLeaderDeath_inert g h m Hm).
  - apply handleLeaderDeath_settled. intros m Hm.
    now apply handleLeaderDeath_inert.
Qed.

Section ArmyFacts.

Lemma filter_nil_iff {A : Type} (f : A -> bool) (l : list A) :
  filter f l = [] <-> forall x, In x l -> f x = false.
Proof.
  induction l as [|x l IH]; cbn.
  - split; [intros _ y []|reflexivity].
  - destruct (f x) eqn:E.
    + split; [discriminate|]. intros H. specialize (H x (or_introl eq_refl)).
      congruence.
    + rewrite IH. split.
      * intros H y [<-|Hy]; auto.
      * intros H y Hy. apply H. now right.
Qed.

Lemma Group_IsDefeated_iff (h : Heap) (g : Group) :
  GroupOps.IsDefeated h g = true <->
  forall u, In u (GroupOps.GetAllUnits g) -> IsAlive (h u) = false.
Proof.
  unfold GroupOps.IsDefeated, GroupOps.GetAliveCount, GroupOps.leaderAlive,
    GroupOps.GetAllUnits.
  rewrite Nat.eqb_eq.
  assert (L : List.length (filter (fun m => IsAlive (h m)) (Members g)) = 0%nat
              <-> forall u, In u (Members g) -> IsAlive (h u) = false).
  { rewrite <- (filter_nil_iff (fun m => IsAlive (h m))).
    split; [apply length_zero_iff_nil|intros ->; reflexivity]. }
  destruct (Leader g) as [l|].
  - destruct (IsAlive (h l)) eqn:E.
    + split; [discriminate|]. intros H.
      specialize (H l (or_introl eq_refl)). congruence.
    + cbn [Nat.add]. rewrite L. split.
      * intros H u [<-|Hu]; auto.
      * intros H u Hu. apply H. now right.
  - cbn [Nat.add]. exact L.
Qed.

Lemma Army_IsDefeated_iff (h : Heap) (a : Army) :
  ArmyOps.IsDefeated h a = true <->
  forall u, In u (ArmyOps.GetAllUnits a) -> IsAlive (h u) = false.
Proof.
  unfold ArmyOps.IsDefeated, ArmyOps.GetAllUnits.
  rewrite forallb_forall. split.
  - intros H u Hu. apply in_flat_map in Hu. destruct Hu as (g & Hg & Hu).
    exact (proj1 (Group_IsDefeated_iff h g) (H g Hg) u Hu).
  - intros H g Hg. apply Group_IsDefeated_iff. intros u Hu.
    apply H. apply in_flat_map. eauto.
Qed.

Lemma sum_bounds (f : UnitRef -> R) (l : list UnitRef) :
  (forall u, In u l -> 0 <= f u <= 1) ->
  0 <= fold_right (fun u acc => f u + acc) 0 l <= INR (List.length l).
Proof.
  induction l as [|x l IH]; intros H.
  - cbn. lra.
  - cbn [fold_right]. change (List.length (x :: l)) with (S (List.length l)).
    rewrite S_INR.
    pose proof (H x (or_introl eq_refl)).
    assert (0 <= fold_right (fun u acc => f u + acc) 0 l <= INR (List.length l))
      by (apply IH; intros u Hu; apply H; now right).
    lra.
Qed.

End ArmyFacts.

(** X10.  An army is defeated exactly when every unit of every group of it
    is dead (retreating units still count as standing), so an army without
    groups is defeated from the start.  A defeated army has no unit left in
    the list the AI, collision and combat passes work on and no active
    group; its alive count is 0 as soon as every unit is dead or
    retreating. *)
Theorem army_defeated_iff_all_dead (h : Heap) (a : Army) :
  (ArmyOps.IsDefeated h a = true <->
   forall u, In u (ArmyOps.GetAllUnits a) -> IsAlive (h u) = false) /\
  (ArmyOps.GetAliveCount h a = 0%nat <->
   forall u, In u (ArmyOps.GetAllUnits a) -> active (h u) = false) /\
  (ArmyOps.GetActiveGroups h a = [] <-> ArmyOps.IsDefeated h a = true) /\
  (ArmyOps.IsDefeated h a = true ->
   ArmyOps.GetAliveUnits h a = [] /\ ArmyOps.GetAliveCount h a = 0%nat) /\
  (forall id name side,
     ArmyOps.IsDefeated h (ArmyOps.NewArmy id name side) = true).
Proof.
  assert (C : ArmyOps.GetAliveCount h a = 0%nat <->
              forall u, In u (ArmyOps.GetAllUnits a) -> active (h u) = false).
  { unfold ArmyOps.GetAliveCount, ArmyOps.GetAliveUnits.
    rewrite <- (filter_nil_iff
                  (fun u => IsAlive (h u) && negb (IsRetreating (h u)))%bool).
    split; [apply length_zero_iff_nil|intros ->; reflexivity]. }
  split; [apply Army_IsDefeated_iff|]. split; [exact C|]. split; [|split].
  - unfold ArmyOps.GetActiveGroups, ArmyOps.IsDefeated.
    rewrite filter_nil_iff, forallb_forall. split.
    + intros H g Hg. specialize (H g Hg).
      now destruct (GroupOps.IsDefeated h g).
    + intros H g Hg. now rewrite (H g Hg).
  - intros Hd.
    assert (Hc : ArmyOps.GetAliveCount h a = 0%nat).
    { apply C. intros u Hu. unfold active.
      now rewrite (proj1 (Army_IsDefeated_iff h a) Hd u Hu). }
    split; [|exact Hc].
    now apply length_zero_iff_nil.
  - reflexivity.
Qed.

(** X11.  When the hit points of every unit of an army lie between 0 and
    the unit's maximum, the total health of the army lies between 0 and 1;
    it is 0 for an army without units and for one whose units all have no
    hit points left. *)
Theorem GetTotalHealth_bounds (h : Heap) (a : Army) :
  (forall u, In u (ArmyOps.GetAllUnits a) ->
             (0 <= HP (h u) <= MaxHP (h u))%Z) ->
  0 <= ArmyOps.GetTotalHealth h a <= 1 /\
  (ArmyOps.GetAllUnits a = [] -> ArmyOps.GetTotalHealth h a = 0) /\
  ((forall u, In u (ArmyOps.GetAllUnits a) -> HP (h u) = 0%Z) ->
   ArmyOps.GetTotalHealth h a = 0).
Proof.
  intros H. unfold ArmyOps.GetTotalHealth.
  destruct (ArmyOps.GetAllUnits a) as [|x l] eqn:E.
  - repeat split; intros; lra.
  - cbv zeta. rewrite fold_left_sum_shift, Rplus_0_l.
    pose proof (sum_bounds (fun u => UnitOps.GetHealthPercentage (h u)) (x :: l))
      as Hs.
    assert (Hn : 0 < INR (List.length (x :: l))).
    { apply lt_0_INR. cbn. lia. }
    split; [|split].
    + destruct Hs as [H0 H1].
      { intros u Hu. apply GetHealthPercentage_bounds. now apply H. }
      split.
      * apply Rmult_le_pos; [exact H0|]. left. now apply Rinv_0_lt_compat.
      * apply (Rmult_le_reg_r (INR (List.length (x :: l)))); [exact Hn|].
        unfold Rdiv. rewrite Rmult_assoc, Rinv_l by lra. lra.
    + discriminate.
    + intros Hz.
      assert (Z0 : fold_right
                (fun u acc => UnitOps.GetHealthPercentage (h u) + acc) 0 (x :: l)
              = 0).
      { clear Hs E H Hn. induction (x :: l) as [|y l' IH]; [reflexivity|].
        cbn [fold_right]. rewrite GetHealthPercentage_dead by (apply Hz; now left).
        rewrite IH; [lra|]. intros u Hu. apply Hz. now right. }
      rewrite Z0. unfold Rdiv. ring.
Qed.

Lemma GetTotalHealth_bounds_witness :
  0 <= ArmyOps.GetTotalHealth Sample.duel (ArmyA Sample.duelBattle) <= 1.
Proof.
  refine (proj1 (GetTotalHealth_bounds Sample.duel (ArmyA Sample.duelBattle) _)).
  intros u Hu. cbn in Hu. destruct Hu as [<-|[]]. cbn. lia.
Defined.

(** ** The behaviour of units *)

(** X12.  What [decideAction] can decide for a unit with a target: only
    the action changes; it is never [Idle]; it is [Attack] exactly when the
    target is within the effective range and the unit can attack; [Hold]
    means within the effective range but not able to attack; [Retreat] is
    decided for archers and mages only, and only below 0.8 of the preferred
    range. *)
Theorem decideAction_cases (ai : AIBehavior) (h : Heap) (r t : UnitRef)
  (distance : R) :
  TargetEnemy ai = Some t ->
  let eff := distance - UnitOps.GetCollisionRadius (h r)
                      - UnitOps.GetCollisionRadius (h t) in
  let ai' := AIOps.decideAction ai h r distance in
  ai' = set_CurrentAction ai (CurrentAction ai') /\
  CurrentAction ai' <> AIActionIdle /\
  (CurrentAction ai' = AIActionAttack <->
   eff <= Range (h r) /\ UnitOps.CanAttack (h r) = true) /\
  (CurrentAction ai' = AIActionHold ->
   eff <= Range (h r) /\ UnitOps.CanAttack (h r) = false) /\
  (CurrentAction ai' = AIActionRetreat ->
   AIOps.isRangedUnit (h r) = true /\ eff < PreferredRange ai * 0.8 /\
   eff <= PreferredRange ai * 1.2) /\
  (CurrentAction ai' = AIActionApproach ->
   PreferredRange ai * 1.2 < eff \/ Range (h r) < eff).
Proof.
  intros Ht eff ai'. subst ai'. unfold AIOps.decideAction. rewrite Ht.
  cbv zeta. fold eff.
  destruct (fle eff (Range (h r))) eqn:E1;
    [apply fle_true_iff in E1|apply fle_false_iff in E1];
    (destruct (UnitOps.CanAttack (h r)) eqn:E2; cbn [andb]);
    try (destruct (fgt eff (PreferredRange ai * 1.2)) eqn:E3;
         [apply flt_true_iff in E3|apply flt_false_iff in E3]);
    try (destruct (flt eff (PreferredRange ai * 0.8)) eqn:E4;
         [apply flt_true_iff in E4|apply flt_false_iff in E4]);
    try (destruct (AIOps.isRangedUnit (h r)) eqn:E5; cbn [andb]);
    cbn [CurrentAction set_CurrentAction];
    (split; [reflexivity|]); (split; [discriminate|]);
    (split; [split; [intros; try discriminate; auto
                    |intros [? ?]; try reflexivity; try discriminate; try lra]|]);
    (split; [intros; try discriminate; auto|]);
    (split; [intros; try discriminate; auto|]);
    intros; try discriminate; auto.
Qed.

Lemma decideAction_cases_witness :
  CurrentAction (AIOps.decideAction Sample.approaching Sample.duel 0%nat 10)
  <> AIActionIdle.
Proof.
  exact (proj1 (proj2 (decideAction_cases Sample.approaching Sample.duel
                         0%nat 1%nat 10 eq_refl))).
Defined.

(** X13.  A retreat step never sends a unit off the field: when the unit
    is closer to its target enemy than 1.1 of the preferred range plus
    both collision radii, its new movement target lies within
    [[50, 974] x [100, 700]]; otherwise, and without a target enemy,
    nothing is changed.  Nothing but the movement target of the unit
    itself is written. *)
Theorem moveAwayFromTarget_stays_on_field (ai : AIBehavior) (h : Heap)
  (r : UnitRef) (intensity : R) :
  let h' := AIOps.moveAwayFromTarget ai h r intensity in
  (forall t, TargetEnemy ai = Some t ->
     Vec.Distance (Position (h r)) (Position (h t))
     < PreferredRange ai * 1.1
       + (UnitOps.GetCollisionRadius (h r) + UnitOps.GetCollisionRadius (h t)) ->
     50 <= X (Target (h' r)) <= 974 /\ 100 <= Y (Target (h' r)) <= 700) /\
  (forall t, TargetEnemy ai = Some t ->
     PreferredRange ai * 1.1
       + (UnitOps.GetCollisionRadius (h r) + UnitOps.GetCollisionRadius (h t))
     <= Vec.Distance (Position (h r)) (Position (h t)) ->
     h' = h) /\
  (TargetEnemy ai = None -> h' = h) /\
  (forall r', r' <> r -> h' r' = h r') /\
  set_Target (h' r) (Target (h r)) = h r.
Proof.
  intros h'. subst h'. unfold AIOps.moveAwayFromTarget.
  split; [|split; [|split; [|split]]].
  - intros t -> Hd. cbv beta iota zeta. unfold fgt.
    rewrite (proj2 (flt_true_iff _ _)) by lra.
    rewrite modify_same. unfold UnitOps.MoveTo. cbn [Target set_Target X Y].
    split.
    + split; [apply Rmax_l|]. apply Rmax_lub; [lra|]. apply Rmin_l.
    + split; [apply Rmax_l|]. apply Rmax_lub; [lra|]. apply Rmin_l.
  - intros t -> Hd. cbv beta iota zeta. unfold fgt.
    now rewrite (proj2 (flt_false_iff _ _)) by lra.
  - now intros ->.
  - intros r' Hr. destruct (TargetEnemy ai); [|reflexivity]. cbv zeta.
    destruct (fgt _ _); [|reflexivity]. now apply modify_other.
  - destruct (TargetEnemy ai); [|now destruct (h r)]. cbv zeta.
    destruct (fgt _ _); [|now destruct (h r)].
    rewrite modify_same. now destruct (h r).
Qed.

Lemma moveAwayFromTarget_stays_on_field_witness :
  50 <= X (Target (AIOps.moveAwayFromTarget Sample.approaching Sample.duel
                     0%nat 1 0%nat)) <= 974.
Proof.
  refine (proj1 (proj1 (moveAwayFromTarget_stays_on_field Sample.approaching
                          Sample.duel 0%nat 1) 1%nat eq_refl _)).
  rewrite duel_distance. unfold UnitOps.GetCollisionRadius. cbn. lra.
Defined.

(** X14.  An approach step aims at a point on the straight line towards
    the target enemy: at most 50 units ahead when the unit is still
    farther away than 0.9 of its preferred range plus both collision
    radii, and 20 units ahead when it is already that close, each scaled
    by the intensity.  Only the movement target of the unit itself is
    written. *)
Theorem moveTowardsTarget_step (ai : AIBehavior) (h : Heap)
  (r t : UnitRef) (intensity : R) :
  TargetEnemy ai = Some t -> 0 <= intensity ->
  0 < Vec.Distance (Position (h r)) (Position (h t)) ->
  let h' := AIOps.moveTowardsTarget ai h r intensity in
  let d := Vec.Distance (Position (h r)) (Position (h t)) in
  let near := PreferredRange ai * 0.9
              + (UnitOps.GetCollisionRadius (h r) + UnitOps.GetCollisionRadius (h t)) in
  let step := if Rlt_dec near d then Rmin (d - near) 50 else 20 in
  0 < step <= 50 /\
  Target (h' r)
  = Vec.Add (Position (h r))
      (Vec.Mul (Vec.Sub (Position (h t)) (Position (h r)))
               (step * intensity / d)) /\
  Vec.Distance (Position (h r)) (Target (h' r)) = step * intensity /\
  (forall r', r' <> r -> h' r' = h r') /\
  set_Target (h' r) (Target (h r)) = h r.
Proof.
  intros Ht Hi Hd h' d near step.
  assert (Hstep : 0 < step <= 50).
  { subst step. destruct (Rlt_dec near d); [|lra].
    split; [apply Rmin_glb_lt; lra|apply Rmin_r]. }
  assert (E : h' = modify h r (fun u => UnitOps.MoveTo u
                (Vec.Add (Position (h r))
                   (Vec.Mul (Vec.Normalize (Vec.Sub (Position (h t)) (Position (h r))))
                            (step * intensity))))).
  { subst h' step. unfold AIOps.moveTowardsTarget. rewrite Ht. cbv zeta.
    fold d. fold near. unfold fgt, flt.
    destruct (Rlt_dec near d); reflexivity. }
  split; [exact Hstep|].
  assert (ET : Target (h' r)
               = Vec.Add (Position (h r))
                   (Vec.Mul (Vec.Normalize (Vec.Sub (Position (h t)) (Position (h r))))
                            (step * intensity))).
  { rewrite E, modify_same. reflexivity. }
  split; [|split; [|split]].
  - rewrite ET. rewrite Normalize_nonzero by (rewrite Length_Sub_sym; lra).
    rewrite Length_Sub_sym. fold d.
    assert (Hd' : d <> 0) by (unfold d; lra).
    clearbody d step.
    unfold Vec.Add, Vec.Mul, Vec.Sub. cbn [X Y]. f_equal; field; exact Hd'.
  - rewrite ET. rewrite Distance_sym, Distance_Length.
    replace (Vec.Sub (Vec.Add (Position (h r))
               (Vec.Mul (Vec.Normalize (Vec.Sub (Position (h t)) (Position (h r))))
                        (step * intensity))) (Position (h r)))
      with (Vec.Mul (Vec.Normalize (Vec.Sub (Position (h t)) (Position (h r))))
                    (step * intensity))
      by (unfold Vec.Sub, Vec.Add, Vec.Mul; cbn [X Y]; f_equal; ring).
    apply push_length; [exact Hd|]. apply Rmult_le_pos; lra.
  - intros r' Hr. rewrite E. now apply modify_other.
  - rewrite E, modify_same. now destruct (h r).
Qed.

Lemma moveTowardsTarget_step_witness :
  Vec.Distance (Position (Sample.duel 0%nat))
    (Target (AIOps.moveTowardsTarget Sample.approaching Sample.duel 0%nat 1 0%nat))
  = 20.
Proof.
  assert (Hd : 0 < Vec.Distance (Position (Sample.duel 0%nat))
                                (Position (Sample.duel 1%nat)))
    by (rewrite duel_distance; lra).
  destruct (moveTowardsTarget_step Sample.approaching Sample.duel 0%nat 1%nat 1
              eq_refl Rle_0_1 Hd) as (_ & _ & H & _).
  rewrite H, duel_distance.
  destruct (Rlt_dec _ 10) as [Hlt|_]; [|lra].
  unfold UnitOps.GetCollisionRadius in Hlt. cbn in Hlt. lra.
Defined.

(** X15.  The AI pass of a tick writes nothing but the movement target and
    the behaviour state of units, and it leaves every unit that is dead or
    retreating exactly as it was. *)
Theorem updateAI_footprint (bm : BattleManager) (h : Heap) (dt : R) :
  (forall r, set_AI (set_Target (Battle.updateAI bm h dt r) (Target (h r)))
                    (AI (h r)) = h r) /\
  (forall r, active (h r) = false -> Battle.updateAI bm h dt r = h r).
Proof.
  split.
  - intros r.
    apply (updateAI_rel
             (fun u u' => set_AI (set_Target u' (Target u)) (AI u) = u)).
    + intros u. now destruct u.
    + intros u v w H1 H2. rewrite <- H1 at 3. rewrite <- H2. reflexivity.
    + intros u t. now destruct u.
    + intros u a. now destruct u.
  - intros r Hr. unfold Battle.updateAI.
    assert (Hn : forall a, ~ In r (ArmyOps.GetAliveUnits h a)).
    { intros a Hin. apply GetAliveUnits_spec in Hin.
      destruct Hin as (_ & Ha & Hre). unfold active in Hr.
      rewrite Ha, Hre in Hr. discriminate. }
    rewrite aiPass_other by apply Hn. apply aiPass_other, Hn.
Qed.

Lemma decideAction_only_action (ai : AIBehavior) (h : Heap) (r : UnitRef)
  (d : R) :
  AIOps.decideAction ai h r d
  = set_CurrentAction ai (CurrentAction (AIOps.decideAction ai h r d)).
Proof.
  unfold AIOps.decideAction. destruct (TargetEnemy ai); [|now destruct ai].
  cbv zeta.
  repeat match goal with |- context [if ?b then _ else _] => destruct b end;
    reflexivity.
Qed.

(** X16.  The decision timer of a behaviour: for a unit that is dead or
    retreating neither the behaviour nor the store changes, the timer does
    not even advance; for any other unit the timer is advanced by the step
    and reset to 0 once it reaches the cooldown, so with a positive
    cooldown it stays in [[0, cooldown)].  The cooldown, the preferred range
    and the aggression level are never changed. *)
Theorem decision_timer_below_cooldown (ai : AIBehavior) (h : Heap)
  (r : UnitRef) (enemies : list UnitRef) (dt : R) :
  0 <= LastDecisionTime ai -> 0 <= dt -> 0 < DecisionCooldown ai ->
  let ai' := fst (AIOps.Update ai h r enemies dt) in
  (active (h r) = false -> AIOps.Update ai h r enemies dt = (ai, h)) /\
  (active (h r) = true ->
   LastDecisionTime ai'
   = (if Rlt_dec (LastDecisionTime ai + dt) (DecisionCooldown ai)
      then LastDecisionTime ai + dt else 0) /\
   0 <= LastDecisionTime ai' < DecisionCooldown ai) /\
  DecisionCooldown ai' = DecisionCooldown ai /\
  PreferredRange ai' = PreferredRange ai /\
  AggressionLevel ai' = AggressionLevel ai.
Proof.
  intros H0 Hdt Hcd ai'. subst ai'. unfold active, AIOps.Update.
  destruct (IsAlive (h r)), (IsRetreating (h r)); cbn [negb andb orb fst];
    try (split; [reflexivity|split; [discriminate|auto]]).
  split; [discriminate|].
  cbn [LastDecisionTime DecisionCooldown set_LastDecisionTime].
  unfold flt.
  destruct (Rlt_dec (LastDecisionTime ai + dt) (DecisionCooldown ai)).
  - cbn. repeat split; auto; lra.
  - set (ai3 := AIOps.selectTarget _ h r enemies).
    assert (F : LastDecisionTime ai3 = 0 /\
                DecisionCooldown ai3 = DecisionCooldown ai /\
                PreferredRange ai3 = PreferredRange ai /\
                AggressionLevel ai3 = AggressionLevel ai)
      by (repeat split; reflexivity).
    clearbody ai3. destruct F as (F1 & F2 & F3 & F4).
    assert (G : forall a : AIBehavior,
              (a = ai3 \/ exists c, a = set_CurrentAction ai3 c) ->
              (True -> LastDecisionTime a = 0 /\ 0 <= LastDecisionTime a
                                                 < DecisionCooldown ai) /\
              DecisionCooldown a = DecisionCooldown ai /\
              PreferredRange a = PreferredRange ai /\
              AggressionLevel a = AggressionLevel ai).
    { intros a [->|[c ->]]; cbn; rewrite ?F1, ?F2, ?F3, ?F4;
        repeat split; auto; lra. }
    destruct (TargetEnemy ai3) as [t|].
    + destruct (negb (IsAlive (h t))); cbn [fst].
      * destruct (G (set_CurrentAction ai3 AIActionIdle)) as (G1 & G2);
          [right; eauto|]. split; [intros _; now apply G1|exact G2].
      * destruct (G (AIOps.decideAction ai3 h r
                       (Vec.Distance (Position (h r)) (Position (h t)))))
          as (G1 & G2).
        { right. eexists. apply decideAction_only_action. }
        split; [intros _; now apply G1|exact G2].
    + cbn [fst].
      destruct (G (set_CurrentAction ai3 AIActionIdle)) as (G1 & G2);
        [right; eauto|]. split; [intros _; now apply G1|exact G2].
Qed.

Lemma decision_timer_below_cooldown_witness :
  0 <= LastDecisionTime
         (fst (AIOps.Update Sample.approaching Sample.duel 0%nat [1%nat] 0.25))
    < DecisionCooldown Sample.approaching.
Proof.
  refine (proj2 (proj1 (proj2 (decision_timer_below_cooldown Sample.approaching
                                 Sample.duel 0%nat [1%nat] 0.25 _ _ _)) eq_refl));
    cbn; lra.
Defined.

(** ** The combat pass and the outcome of a battle *)

Section CombatFootprint.

Import UnitOps.

Lemma findTarget_In (h : Heap) (a : UnitRef) (enemies : list UnitRef)
      (t : UnitRef) :
  Battle.findTarget h a enemies = Some t -> In t enemies.
Proof.
  unfold Battle.findTarget.
  assert (G : forall l acc,
            fst (fold_left (Battle.findTarget_step h a) l acc) = Some t ->
            fst acc = Some t \/ In t l).
  { induction l as [|e l IH]; intros acc H; cbn in *; [now left|].
    apply IH in H. destruct H as [H|H]; [|right; now right].
    unfold Battle.findTarget_step in H. cbv zeta in H.
    destruct (_ && _); [|now left].
    cbn in H. injection H as ->. right. now left. }
  intros H. apply G in H. destruct H as [H|H]; [discriminate|exact H].
Qed.

Lemma combatStep_other (enemies : list UnitRef) (h : Heap) (a r : UnitRef) :
  r <> a -> ~ In r enemies -> Battle.combatStep enemies h a r = h r.
Proof.
  intros Ha He. unfold Battle.combatStep.
  destruct (negb _); [reflexivity|].
  destruct (Battle.findTarget h a enemies) as [t|] eqn:E; [|reflexivity].
  apply Attack_other; [exact Ha|].
  intros ->. apply He. eapply findTarget_In; eauto.
Qed.

Lemma attackPass_other (attackers enemies : list UnitRef) (r : UnitRef) :
  ~ In r attackers -> ~ In r enemies ->
  forall h, Battle.attackPass attackers enemies h r = h r.
Proof.
  intros Ha He. unfold Battle.attackPass. apply fold_modify_other.
  intros h x Hx. apply combatStep_other; [|exact He].
  intros ->. contradiction.
Qed.

End CombatFootprint.

(** X17.  The combat pass of a tick leaves every unit that is dead or
    retreating exactly as it was, so a retreating unit neither attacks nor
    is attacked; of the other units it writes only hit points, the alive
    flag, the attack cooldown and the animation. *)
Theorem processCombat_footprint (bm : BattleManager) (h : Heap) :
  (forall r, active (h r) = false -> Battle.processCombat bm h r = h r) /\
  (forall r,
     set_Animation
       (set_LastAttackTime
          (set_IsAlive (set_HP (Battle.processCombat bm h r) (HP (h r)))
                       (IsAlive (h r)))
          (LastAttackTime (h r)))
       (Animation (h r))
     = h r).
Proof.
  split.
  - intros r Hr. unfold Battle.processCombat. cbv zeta.
    assert (Hn : forall a, ~ In r (ArmyOps.GetAliveUnits h a)).
    { intros a Hin. apply GetAliveUnits_spec in Hin.
      destruct Hin as (_ & Ha & Hre). unfold active in Hr.
      rewrite Ha, Hre in Hr. discriminate. }
    rewrite attackPass_other by apply Hn. apply attackPass_other; apply Hn.
  - intros r.
    apply (processCombat_rel
             (fun u u' =>
                set_Animation
                  (set_LastAttackTime
                     (set_IsAlive (set_HP u' (HP u)) (IsAlive u))
                     (LastAttackTime u))
                  (Animation u) = u)).
    + intros u. now destruct u.
    + intros u v w H1 H2. rewrite <- H1 at 5. rewrite <- H2. reflexivity.
    + intros u a. now destruct u.
    + intros u t. now destruct u.
    + intros u d _ _. unfold UnitOps.TakeDamage.
      destruct (negb (IsAlive u)); [now destruct u|]. cbv zeta.
      destruct (_ <=? 0)%Z; now destruct u.
Qed.

Section Outcome.

Lemma checkWinConditions_outcome (bm : BattleManager) (h : Heap) :
  Battle.checkWinConditions bm h = bm \/
  (IsActive (Battle.checkWinConditions bm h) = false /\
   In (Winner (Battle.checkWinConditions bm h)) [0; 1; 2]%Z).
Proof.
  unfold Battle.checkWinConditions.
  repeat match goal with |- context [if ?b then _ else _] => destruct b end;
    try (now left); right; cbn; auto.
Qed.

Lemma Update_outcome (bm : BattleManager) (h : Heap) (dt : R) :
  IsActive bm = true ->
  (IsActive (fst (Battle.Update bm h dt)) = true /\
   Winner (fst (Battle.Update bm h dt)) = Winner bm) \/
  (IsActive (fst (Battle.Update bm h dt)) = false /\
   In (Winner (fst (Battle.Update bm h dt))) [0; 1; 2]%Z).
Proof.
  intros Ha. unfold Battle.Update. rewrite Ha. cbn [negb].
  pose proof (updateArmies_clock bm h dt) as Hc.
  destruct (Battle.updateArmies bm h dt) as [bm1 h2]. cbn [fst snd] in *.
  destruct Hc as (_ & _ & Hi & Hw).
  destruct (checkWinConditions_outcome bm1
              (Battle.processCombat bm1
                 (Battle.handleCollisions bm1 (Battle.updateAI bm1 h2 dt))))
    as [E|E].
  - left. rewrite E. split; congruence.
  - right. exact E.
Qed.

End Outcome.

(** X18.  The outcome of a battle is latched.  From a state in which an
    active battle has no winner, every sequence of [StartBattle] and
    [Update] keeps: an active battle has no winner (-1), the winner is one
    of -1, 0, 1, 2, and the time limit is what it was.  [Update] does
    nothing at all to a battle that is not active, and an [Update] that
    ends a battle always names an outcome: the winner is then 0, 1 or 2 and
    [GetWinnerName] is not the name of the undecided state. *)
Theorem battle_outcome_latched (bm0 : BattleManager) (h0 : Heap)
  (bm : BattleManager) (h : Heap) :
  (IsActive bm0 = true -> Winner bm0 = (-1)%Z) ->
  In (Winner bm0) [-1; 0; 1; 2]%Z ->
  reachable bm0 h0 bm h ->
  (IsActive bm = true -> Winner bm = (-1)%Z) /\
  In (Winner bm) [-1; 0; 1; 2]%Z /\
  TimeLimit bm = TimeLimit bm0 /\
  (forall dt, IsActive bm = false -> Battle.Update bm h dt = (bm, h)) /\
  (forall dt, IsActive bm = true ->
     IsActive (fst (Battle.Update bm h dt)) = false ->
     In (Winner (fst (Battle.Update bm h dt))) [0; 1; 2]%Z /\
     Battle.GetWinnerName (fst (Battle.Update bm h dt)) <> "未決定"%string).
Proof.
  intros H1 H2 Hr.
  assert (Inv : (IsActive bm = true -> Winner bm = (-1)%Z) /\
                In (Winner bm) [-1; 0; 1; 2]%Z /\
                TimeLimit bm = TimeLimit bm0).
  { induction Hr as [|bm1 h1 _ IH|bm1 h1 dt _ IH].
    - auto.
    - cbn. destruct IH as (_ & _ & IH). auto.
    - destruct IH as (I1 & I2 & I3).
      destruct (IsActive bm1) eqn:Ha.
      + split; [|split].
        * destruct (Update_outcome bm1 h1 dt Ha) as [[_ E]|[E _]].
          -- intros _. rewrite E. now apply I1.
          -- rewrite E. discriminate.
        * destruct (Update_outcome bm1 h1 dt Ha) as [[_ E]|[_ E]].
          -- now rewrite E.
          -- cbn in E |- *. tauto.
        * rewrite <- I3. unfold Battle.Update. rewrite Ha. cbn [negb].
          pose proof (updateArmies_clock bm1 h1 dt) as Hc.
          destruct (Battle.updateArmies bm1 h1 dt) as [bm2 h2].
          cbn [fst snd] in *. destruct Hc as (_ & Hl & _).
          rewrite <- Hl. apply checkWinConditions_frame.
      + unfold Battle.Update. rewrite Ha. cbn. rewrite Ha. auto. }
  destruct Inv as (I1 & I2 & I3).
  split; [exact I1|]. split; [exact I2|]. split; [exact I3|]. split.
  - intros dt Ha. unfold Battle.Update. now rewrite Ha.
  - intros dt Ha Hend.
    destruct (Update_outcome bm h dt Ha) as [[E _]|[_ E]]; [congruence|].
    split; [exact E|]. unfold Battle.GetWinnerName.
    cbn in E. destruct E as [<-|[<-|[<-|[]]]]; cbn; discriminate.
Qed.

Lemma battle_outcome_latched_witness :
  TimeLimit (fst (Battle.Update Sample.duelBattle Sample.duel 1))
  = TimeLimit Sample.duelBattle.
Proof.
  refine (proj1 (proj2 (proj2 (battle_outcome_latched Sample.duelBattle
            Sample.duel _ _ _ _ (reach_update _ _ _ _ 1 (reach_init _ _)))))).
  - reflexivity.
  - cbn. auto.
Defined.

(** X19.  A battle between two armies without groups is a draw after the
    first tick, whatever the time limit and the step are, and the tick
    changes no unit. *)
Theorem empty_battle_is_a_draw (timeLimit : R) (h : Heap) (dt : R) :
  let bm := Battle.StartBattle (Battle.NewBattleManager timeLimit) in
  IsActive (fst (Battle.Update bm h dt)) = false /\
  Winner (fst (Battle.Update bm h dt)) = 2%Z /\
  Battle.GetWinnerName (fst (Battle.Update bm h dt)) = "引き分け"%string /\
  snd (Battle.Update bm h dt) = h.
Proof.
  cbv zeta. unfold Battle.Update, Battle.StartBattle, Battle.NewBattleManager.
  cbn [IsActive negb]. unfold Battle.updateArmies. cbn [ArmyA ArmyB].
  unfold ArmyOps.Update, ArmyOps.NewArmy. cbn [Groups ArmyOps.updateGroups].
  cbn [fst snd].
  unfold Battle.checkWinConditions.
  cbn [BattleTime TimeLimit Battle.set_armies ArmyA ArmyB].
  unfold ArmyOps.GetTotalHealth, ArmyOps.IsDefeated, ArmyOps.GetAllUnits.
  cbn [Groups set_Groups flat_map forallb andb].
  unfold fgt. rewrite (proj2 (flt_false_iff 0 0)) by lra.
  destruct (fge _ _); cbn; auto.
Qed.

(** ** Creating units *)

Section Creation.



Lemma applyTerrainModifiers_frame {A : Type} (p : Unit -> A) :
  (forall u s, p (set_Speed u s) = p u) ->
  (forall u d, p (set_Defense u d) = p u) ->
  (forall u a, p (set_AttackPower u a) = p u) ->
  (forall u m, p (set_MagicPower u m) = p u) ->
  forall t x, p (Battle.applyTerrainModifiers t x) = p x.
Proof.
  intros H1 H2 H3 H4 t x. unfold Battle.applyTerrainModifiers. cbv zeta.
  repeat match goal with |- context [if ?b then _ else _] => destruct b end;
    rewrite ?H4, ?H3, ?H2, ?H1; reflexivity.
Qed.

End Creation.

(** X20.  [createUnit] numbers the units: the new unit gets the counter of
    the manager as its id and the counter goes up by one, so that, below
    the largest [int], the next unit created gets another id; nothing else
    of the manager changes.  Whatever the terrain is, the unit starts alive,
    with full hit points as configured, at the origin, in group 0 and ready
    to attack. *)
Theorem createUnit_numbers_units (terrain : TerrainConfig)
  (bm : BattleManager) (unitType unitType' : UnitType)
  (config config' : UnitTypeConfig) (isLeader isLeader' : bool)
  (armyID armyID' : Z) :
  (- 2 ^ 63 <= nextUnitID bm < 2 ^ 63 - 1)%Z ->
  let u := fst (Battle.createUnit terrain bm unitType config isLeader armyID) in
  let bm' := snd (Battle.createUnit terrain bm unitType config isLeader armyID) in
  let u' :=
    fst (Battle.createUnit terrain bm' unitType' config' isLeader' armyID') in
  ID u = nextUnitID bm /\
  nextUnitID bm' = (nextUnitID bm + 1)%Z /\
  ID u' = (ID u + 1)%Z /\
  (ArmyA bm', ArmyB bm', BattleTime bm', TimeLimit bm', IsActive bm', Winner bm')
  = (ArmyA bm, ArmyB bm, BattleTime bm, TimeLimit bm, IsActive bm, Winner bm) /\
  IsAlive u = true /\ IsRetreating u = false /\
  HP u = cfgHP config /\ MaxHP u = cfgHP config /\
  Position u = Vec.zero /\ Target u = Vec.zero /\
  GroupID u = 0%Z /\ ArmyID u = armyID /\ IsLeader u = isLeader /\
  UnitOps.CanAttack u = true.
Proof.
  intros Hn. cbv zeta.
  unfold Battle.createUnit. cbv zeta. cbn [fst snd nextUnitID].
  unfold UnitOps.CanAttack.
  rewrite !(applyTerrainModifiers_frame ID),
          !(applyTerrainModifiers_frame IsAlive),
          !(applyTerrainModifiers_frame IsRetreating),
          !(applyTerrainModifiers_frame HP),
          !(applyTerrainModifiers_frame MaxHP),
          !(applyTerrainModifiers_frame Position),
          !(applyTerrainModifiers_frame Target),
          !(applyTerrainModifiers_frame GroupID),
          !(applyTerrainModifiers_frame ArmyID),
          !(applyTerrainModifiers_frame IsLeader),
          !(applyTerrainModifiers_frame LastAttackTime) by reflexivity.
  unfold int_add. rewrite wrap64_id by (unfold in_int; lia).
  cbn [UnitOps.NewUnit ID IsAlive IsRetreating HP MaxHP Position Target GroupID
       ArmyID IsLeader LastAttackTime ArmyA ArmyB BattleTime TimeLimit IsActive
       Winner andb].
  rewrite (proj2 (fle_true_iff 0 0)) by lra.
  repeat split.
Qed.

Lemma createUnit_numbers_units_witness :
  ID (fst (Battle.createUnit (mkTerrainConfig "plain" 1 1 1 1 1)
             Sample.duelBattle UnitTypeInfantry Sample.infantryCfg false 0))
  = nextUnitID Sample.duelBattle.
Proof.
  refine (proj1 (createUnit_numbers_units (mkTerrainConfig "plain" 1 1 1 1 1)
                   Sample.duelBattle UnitTypeInfantry UnitTypeInfantry
                   Sample.infantryCfg Sample.infantryCfg false false 0 0 _)).
  cbn. lia.
Defined.


(** ** Animations *)

Section AnimationFacts.

Lemma NewAnimationState_ok (t : AnimationType) :
  anim_ok (Anim.NewAnimationState t).
Proof.
  unfold anim_ok, in_int.
  destruct t; cbn; repeat split; try lia; try lra; discriminate.
Qed.

Lemma SetAnimation_cases (a : AnimationState) (t : AnimationType) :
  (AnimType a = t /\ Anim.SetAnimation a t = a) \/
  (AnimType a <> t /\ Anim.SetAnimation a t = Anim.NewAnimationState t).
Proof.
  unfold Anim.SetAnimation.
  destruct (AnimType a) eqn:Ea, t; cbn;
    try (left; split; [reflexivity|reflexivity]);
    right; (split; [discriminate|reflexivity]).
Qed.

Lemma SetAnimation_ok (a : AnimationState) (t : AnimationType) :
  anim_ok a -> anim_ok (Anim.SetAnimation a t).
Proof.
  intros H. destruct (SetAnimation_cases a t) as [[_ ->]|[_ ->]];
    [exact H|apply NewAnimationState_ok].
Qed.

Lemma SetAnimation_type (a : AnimationState) (t : AnimationType) :
  AnimType (Anim.SetAnimation a t) = t.
Proof.
  destruct (SetAnimation_cases a t) as [[E ->]|[_ ->]]; [exact E|].
  now destruct t.
Qed.

Lemma Anim_Update_type (a : AnimationState) (dt : R) :
  AnimType (Anim.Update a dt) = AnimType a.
Proof.
  unfold Anim.Update.
  repeat match goal with |- context [if ?b then _ else _] => destruct b end;
    reflexivity.
Qed.

Lemma Anim_Update_ok (a : AnimationState) (dt : R) :
  anim_ok a -> anim_ok (Anim.Update a dt).
Proof.
  intros H. pose proof H as (Hf & Hi & Ht & Hd & Hfin). unfold Anim.Update.
  destruct (Finished a && negb (Loop a)) eqn:E; [exact H|]. clear H.
  assert (Hnf : Finished a = true -> False).
  { intros Hfi. destruct (Hfin Hfi) as [El _]. rewrite Hfi, El in E.
    discriminate. }
  cbv zeta. unfold fge.
  destruct (fle (FrameDuration a) (FrameTime a + dt)) eqn:E1.
  - unfold int_add, int_sub, in_int in *.
    rewrite wrap64_id by (unfold in_int; lia).
    destruct (Z.geb_spec (Frame a + 1) (TotalFrames a)).
    + destruct (Loop a) eqn:El.
      * unfold anim_ok, in_int.
        cbn [Frame TotalFrames FrameTime FrameDuration Loop Finished].
        refine (conj _ (conj _ (conj _ (conj _ _)))); try lia; try lra.
        intros Hfi. destruct (Hnf Hfi).
      * unfold anim_ok, in_int.
        cbn [Frame TotalFrames FrameTime FrameDuration Loop Finished].
        rewrite wrap64_id by (unfold in_int; lia).
        refine (conj _ (conj _ (conj _ (conj _ _)))); try lia; try lra;
          try (intros _; split; reflexivity).
    + unfold anim_ok, in_int.
      cbn [Frame TotalFrames FrameTime FrameDuration Loop Finished].
      refine (conj _ (conj _ (conj _ (conj _ _)))); try lia; try lra.
      intros Hfi. destruct (Hnf Hfi).
  - apply fle_false_iff in E1. unfold anim_ok, in_int in *.
    cbn [Frame TotalFrames FrameTime FrameDuration Loop Finished].
    refine (conj _ (conj _ (conj _ (conj _ _)))); try lia; try lra;
      try assumption.
Qed.

End AnimationFacts.

(** X22.  Animation states stay well-formed: a fresh state is well-formed
    and [Update] (with any step), [SetAnimation] and [Reset] keep it so; in
    particular the frame never leaves the frames of the animation.
    [Update] keeps the type; [SetAnimation] does nothing for the type the
    state has and otherwise gives the fresh state of the new type; an
    animation that has finished is not changed by [Update] any more; and
    the scale of a well-formed state lies between 0.7 and 1.2. *)
Theorem animation_stays_well_formed (a : AnimationState) (dt : R)
  (t : AnimationType) :
  anim_ok a ->
  anim_ok (Anim.Update a dt) /\
  anim_ok (Anim.SetAnimation a t) /\
  anim_ok (Anim.Reset a) /\
  anim_ok (Anim.NewAnimationState t) /\
  AnimType (Anim.Update a dt) = AnimType a /\
  AnimType (Anim.SetAnimation a t) = t /\
  (AnimType a = t -> Anim.SetAnimation a t = a) /\
  (AnimType a <> t -> Anim.SetAnimation a t = Anim.NewAnimationState t) /\
  (Finished a = true -> Anim.Update a dt = a) /\
  0.7 < Anim.GetScaleModifier a <= 1.2.
Proof.
  intros H.
  split; [now apply Anim_Update_ok|].
  split; [now apply SetAnimation_ok|].
  split.
  { destruct H as (Hf & Hi & Ht & Hd & Hfin). unfold anim_ok, in_int, Anim.Reset in *.
    cbn [Frame TotalFrames FrameTime FrameDuration Loop Finished].
    refine (conj _ (conj _ (conj _ (conj _ _)))); try lia; try lra;
      try assumption; discriminate. }
  split; [apply NewAnimationState_ok|].
  split; [apply Anim_Update_type|].
  split; [apply SetAnimation_type|].
  split.
  { intros E. destruct (SetAnimation_cases a t) as [[_ E']|[N _]];
      [exact E'|contradiction]. }
  split.
  { intros E. destruct (SetAnimation_cases a t) as [[E' _]|[_ E']];
      [contradiction|exact E']. }
  destruct H as (Hf & Hi & Ht & Hd & Hfin).
  split.
  { intros Hfi. unfold Anim.Update. rewrite Hfi.
    destruct (Hfin Hfi) as [-> _]. reflexivity. }
  unfold Anim.GetScaleModifier.
  destruct (AnimType a); try lra.
  - destruct (Frame a =? 1)%Z; lra.
  - assert (Hn : 0 < IZR (TotalFrames a)) by (apply IZR_lt; lia).
    assert (H0 : 0 <= IZR (Frame a)) by (apply IZR_le; lia).
    assert (H1 : IZR (Frame a) < IZR (TotalFrames a)) by (apply IZR_lt; lia).
    assert (Hq : 0 <= IZR (Frame a) / IZR (TotalFrames a) < 1).
    { split.
      - apply Rmult_le_pos; [exact H0|]. left. now apply Rinv_0_lt_compat.
      - apply (Rmult_lt_reg_r (IZR (TotalFrames a))); [exact Hn|].
        unfold Rdiv. rewrite Rmult_assoc, Rinv_l by lra. lra. }
    lra.
Qed.

Lemma animation_stays_well_formed_witness :
  anim_ok (Anim.Update (Anim.NewAnimationState AnimationAttack) 0.25).
Proof.
  refine (proj1 (animation_stays_well_formed
                   (Anim.NewAnimationState AnimationAttack) 0.25 AnimationIdle _)).
  unfold anim_ok, in_int. cbn. repeat split; try lia; try lra; discriminate.
Defined.

(** X23.  [Unit.Update] shows the animation of the state of the unit: the
    death animation for a dead unit, else the attack animation while more
    than 0.7 of the attack cooldown remains, else the walk animation while
    the unit is farther from its target than its collision radius, else
    the idle animation.  The animation stays well-formed, and a dead unit
    whose death animation has finished is not changed by [Update] at
    all. *)
Theorem Update_shows_state (u : Unit) (dt : R) :
  AnimType (Animation (UnitOps.Update u dt))
  = (if negb (IsAlive u) then AnimationDeath
     else if fgt (LastAttackTime (UnitOps.Update u dt)) (AttackCooldown u * 0.7)
          then AnimationAttack
     else if fgt (Vec.Distance (Position u) (Target u))
                 (UnitOps.GetCollisionRadius u)
          then AnimationWalk
     else AnimationIdle) /\
  (anim_ok (Animation u) -> anim_ok (Animation (UnitOps.Update u dt))) /\
  (IsAlive u = false -> AnimType (Animation u) = AnimationDeath ->
   Finished (Animation u) = true -> Loop (Animation u) = false ->
   UnitOps.Update u dt = u).
Proof.
  assert (T : forall a t,
            AnimType (if negb (AnimationType_eqb (AnimType a) t)
                      then Anim.SetAnimation a t else a) = t).
  { intros a t. destruct (AnimationType_eqb (AnimType a) t) eqn:E; cbn [negb].
    - destruct (AnimType a), t; try discriminate; reflexivity.
    - apply SetAnimation_type. }
  assert (K : forall a t, anim_ok a ->
            anim_ok (if negb (AnimationType_eqb (AnimType a) t)
                     then Anim.SetAnimation a t else a)).
  { intros a t H. destruct (negb _); [now apply SetAnimation_ok|exact H]. }
  split; [|split].
  - unfold UnitOps.Update. destruct (negb (IsAlive u)).
    + cbv zeta. cbn [Animation set_Animation].
      now rewrite Anim_Update_type, T.
    + cbv zeta.
      cbn [Animation set_Animation set_LastAttackTime LastAttackTime
           AttackCooldown Position Target].
      unfold UnitOps.GetCollisionRadius.
      cbn [Size set_LastAttackTime].
      destruct (fgt (Vec.Distance (Position u) (Target u)) (3 * Size u));
        cbn [Animation set_Animation set_Position LastAttackTime
             set_LastAttackTime];
        rewrite Anim_Update_type;
        destruct (fgt _ (AttackCooldown u * 0.7)); apply T.
  - intros H. unfold UnitOps.Update. destruct (negb (IsAlive u)).
    + cbv zeta. cbn [Animation set_Animation]. now apply Anim_Update_ok, K.
    + cbv zeta.
      destruct (fgt (Vec.Distance _ _) _);
        cbn [Animation set_Animation set_Position set_LastAttackTime];
        apply Anim_Update_ok;
        destruct (fgt _ _); now apply K.
  - intros Ha Ht Hf Hl. unfold UnitOps.Update. rewrite Ha. cbn [negb].
    rewrite Ht. cbn [AnimationType_eqb negb]. cbv zeta.
    unfold Anim.Update. rewrite Hf, Hl. cbn [negb andb]. now destruct u.
Qed.

(** ** Formations *)

Section FormationGeometry.

Lemma formationPos_distance (g : Group) (n i : nat) :
  Vec.Distance (targetPosition g) (GroupOps.formationPos g n i)
  = Rabs (Radius (GFormation g)).
Proof.
  unfold GroupOps.formationPos. cbv zeta.
  set (a := INR i * (2 * PI / INR n)).
  set (R0 := Radius (GFormation g)).
  unfold Vec.Distance, Vec.Add. cbn [X Y]. cbv zeta.
  rewrite <- sqrt_Rsqr_abs. f_equal. unfold Rsqr.
  pose proof (sin2_cos2 a) as H. unfold Rsqr in H.
  transitivity (R0 * R0 * (sin a * sin a + cos a * cos a)); [ring|].
  rewrite H. ring.
Qed.

End FormationGeometry.

(** X24.  The formation of a group whose leader lives sends the member at
    index [i] of the [n] members that are alive and not retreating to the
    slot at angle [i * 2 * pi / n] on the circle around the anchor: every
    slot lies at the distance of the formation radius from the anchor, the
    first one straight to the right of it.  Units outside that list are
    not touched, and without a living leader nothing is. *)
Theorem updateFormation_slots_on_circle (g : Group) (h : Heap) (i : nat)
  (m : UnitRef) :
  GroupOps.leaderAlive h g = true -> NoDup (Members g) ->
  nth_error (GroupOps.getAliveMembers h g) i = Some m ->
  let n := List.length (GroupOps.getAliveMembers h g) in
  let h' := GroupOps.updateFormation g h in
  h' m = set_Target (h m) (GroupOps.formationPos g n i) /\
  Vec.Distance (targetPosition g) (Target (h' m))
  = Rabs (Radius (GFormation g)) /\
  GroupOps.formationPos g n 0
  = Vec.Add (targetPosition g) (mkVector2D (Radius (GFormation g)) 0) /\
  (forall r, ~ In r (GroupOps.getAliveMembers h g) -> h' r = h r) /\
  (forall g0 h0, GroupOps.leaderAlive h0 g0 = false ->
                 GroupOps.updateFormation g0 h0 = h0).
Proof.
  intros Hl Hnd Hi. cbv zeta.
  assert (E : GroupOps.updateFormation g h
              = GroupOps.circleLoop g (List.length (GroupOps.getAliveMembers h g))
                  0 (GroupOps.getAliveMembers h g) h).
  { unfold GroupOps.updateFormation. rewrite Hl. cbn [negb].
    destruct (FormType (GFormation g)). unfold GroupOps.updateCircleFormation.
    cbv zeta. destruct (GroupOps.getAliveMembers h g); reflexivity. }
  assert (Hm : GroupOps.updateFormation g h m
               = set_Target (h m)
                   (GroupOps.formationPos g
                      (List.length (GroupOps.getAliveMembers h g)) i)).
  { rewrite E. rewrite (circleLoop_member g _ _ 0 i h m); [reflexivity| | |exact Hi].
    - unfold GroupOps.getAliveMembers. now apply NoDup_filter.
    - intros x Hx. apply getAliveMembers_spec in Hx. destruct Hx as [_ Hx].
      unfold active in Hx. apply andb_prop in Hx. destruct Hx as [_ Hx].
      now destruct (IsRetreating (h x)). }
  split; [exact Hm|]. split.
  { rewrite Hm. cbn [Target set_Target]. apply formationPos_distance. }
  split.
  { unfold GroupOps.formationPos. cbv zeta. cbn [INR].
    rewrite Rmult_0_l, cos_0, sin_0. f_equal. f_equal; ring. }
  split.
  { intros r Hr. rewrite E. now apply circleLoop_other. }
  intros g0 h0 H0. unfold GroupOps.updateFormation. now rewrite H0.
Qed.

Lemma updateFormation_slots_on_circle_witness :
  GroupOps.updateFormation Sample.squadGroup Sample.squad 1%nat
  = set_Target (Sample.squad 1%nat)
      (GroupOps.formationPos Sample.squadGroup 1 0).
Proof.
  refine (proj1 (updateFormation_slots_on_circle Sample.squadGroup Sample.squad
                   0 1%nat _ _ _)).
  - reflexivity.
  - cbn. repeat constructor; cbn; tauto.
  - reflexivity.
Defined.

(** X25.  The movement step of an army neither kills nor revives: it
    changes no unit outside the army, no hit points and no alive flag,
    never takes a retreat order back, and keeps the units of the army, so
    that the army is defeated after the step exactly when it was before.
    [AddGroup] appends: the units of the army are followed by those of the
    new group, and the army is then defeated exactly when it was and the
    group is. *)
Theorem Army_Update_keeps_the_living (a : Army) (h : Heap) (dt : R) (g : Group) :
  let a' := fst (ArmyOps.Update a h dt) in
  let h' := snd (ArmyOps.Update a h dt) in
  ArmyOps.GetAllUnits a' = ArmyOps.GetAllUnits a /\
  (forall r, ~ In r (ArmyOps.GetAllUnits a) -> h' r = h r) /\
  (forall r, IsAlive (h' r) = IsAlive (h r) /\ HP (h' r) = HP (h r) /\
             (IsRetreating (h r) = true -> IsRetreating (h' r) = true)) /\
  ArmyOps.IsDefeated h' a' = ArmyOps.IsDefeated h a /\
  ArmyOps.GetAllUnits (ArmyOps.AddGroup a g)
  = ArmyOps.GetAllUnits a ++ GroupOps.GetAllUnits g /\
  ArmyOps.IsDefeated h (ArmyOps.AddGroup a g)
  = (ArmyOps.IsDefeated h a && GroupOps.IsDefeated h g)%bool.
Proof.
  cbv zeta.
  assert (HU : ArmyOps.GetAllUnits (fst (ArmyOps.Update a h dt))
               = ArmyOps.GetAllUnits a) by apply Army_Update_GetAllUnits.
  assert (HR : forall r,
            IsAlive (snd (ArmyOps.Update a h dt) r) = IsAlive (h r) /\
            HP (snd (ArmyOps.Update a h dt) r) = HP (h r) /\
            (IsRetreating (h r) = true ->
             IsRetreating (snd (ArmyOps.Update a h dt) r) = true)).
  { intros r.
    apply (Army_Update_rel
             (fun u u' => IsAlive u' = IsAlive u /\ HP u' = HP u /\
                          (IsRetreating u = true -> IsRetreating u' = true))).
    - auto.
    - intros u v w (A1 & B1 & C1) (A2 & B2 & C2).
      repeat split; try congruence. auto.
    - intros u dt'.
      destruct (Unit_Update_fields u dt') as (E1 & _ & E3 & E4 & _).
      repeat split; try assumption. intros E. now rewrite E4.
    - intros u t. auto.
    - intros u e. cbn. auto. }
  split; [exact HU|]. split.
  { intros r Hr. unfold ArmyOps.Update.
    pose proof (updateGroups_other (Groups a) dt r Hr h) as H.
    destruct (ArmyOps.updateGroups (Groups a) h dt). exact H. }
  split; [exact HR|]. split.
  { apply eq_true_iff_eq. rewrite !Army_IsDefeated_iff, HU.
    split; intros H u Hu.
    - rewrite <- (proj1 (HR u)). now apply H.
    - rewrite (proj1 (HR u)). now apply H. }
  split.
  - unfold ArmyOps.AddGroup, ArmyOps.GetAllUnits. cbn [Groups set_Groups].
    rewrite flat_map_app. cbn. now rewrite app_nil_r.
  - unfold ArmyOps.AddGroup, ArmyOps.IsDefeated. cbn [Groups set_Groups].
    rewrite forallb_app. cbn. now rewrite andb_true_r.
Qed.

(** X26.  [MoveGroup] gives the order to the living leader only: the
    movement target of the leader becomes the given point and nothing else
    changes; a group without a living leader ignores the order.  On the
    next [Update] of the group the formation is anchored at the ordered
    point as long as the leader, after its own step, is more than 5 away
    from it, and at the leader's position otherwise. *)
Theorem MoveGroup_orders_the_leader (g : Group) (h : Heap) (l : UnitRef)
  (target : Vector2D) (dt : R) :
  Leader g = Some l -> IsAlive (h l) = true ->
  NoDup (GroupOps.GetAllUnits g) ->
  let h' := GroupOps.MoveGroup g h target in
  let leader' := UnitOps.Update (h' l) dt in
  h' l = set_Target (h l) target /\
  (forall r, r <> l -> h' r = h r) /\
  targetPosition (fst (GroupOps.Update g h' dt))
  = (if Rlt_dec 5 (Vec.Distance (Position leader') target)
     then target else Position leader') /\
  (forall g0 h0, GroupOps.leaderAlive h0 g0 = false ->
                 GroupOps.MoveGroup g0 h0 target = h0).
Proof.
  intros Hl Ha Hnd. cbv zeta.
  assert (E : GroupOps.MoveGroup g h target
              = modify h l (fun u => UnitOps.MoveTo u target)).
  { unfold GroupOps.MoveGroup. now rewrite Hl, Ha. }
  rewrite E. rewrite modify_same.
  split; [reflexivity|]. split.
  { intros r Hr. now apply modify_other. }
  split.
  - assert (Ha' : IsAlive (modify h l (fun u => UnitOps.MoveTo u target) l) = true).
    { rewrite modify_same. exact Ha. }
    destruct (Group_Update_alive g _ dt l Hl Ha' Hnd) as (Hg & _).
    rewrite Hg. cbn [targetPosition set_targetPosition].
    rewrite modify_same. unfold anchorOf.
    destruct (Unit_Update_fields (UnitOps.MoveTo (h l) target) dt)
      as (_ & _ & _ & _ & HT & _).
    rewrite HT. cbn [Target UnitOps.MoveTo set_Target].
    unfold fgt, flt. destruct (Rlt_dec 5 _); reflexivity.
  - intros g0 h0 H0. unfold GroupOps.MoveGroup, GroupOps.leaderAlive in *.
    destruct (Leader g0); [|reflexivity]. now rewrite H0.
Qed.

Lemma MoveGroup_orders_the_leader_witness :
  GroupOps.MoveGroup Sample.squadGroup Sample.squad (mkVector2D 300 40) 0%nat
  = set_Target (Sample.squad 0%nat) (mkVector2D 300 40).
Proof.
  refine (proj1 (MoveGroup_orders_the_leader Sample.squadGroup Sample.squad
                   0%nat (mkVector2D 300 40) 0.1 eq_refl eq_refl _)).
  cbn. repeat constructor; cbn; intuition discriminate.
Defined.

(** ** More on vectors and on animation effects *)

Section VectorAlgebra.

Lemma Length_Mul (v : Vector2D) (s : R) :
  Vec.Length (Vec.Mul v s) = Rabs s * Vec.Length v.
Proof.
  unfold Vec.Length, Vec.Mul. cbn [X Y].
  replace (X v * s * (X v * s) + Y v * s * (Y v * s))
    with (Rsqr s * (X v * X v + Y v * Y v)) by (unfold Rsqr; ring).
  rewrite sqrt_mult.
  - now rewrite sqrt_Rsqr_abs.
  - apply Rle_0_sqr.
  - pose proof (Rle_0_sqr (X v)). pose proof (Rle_0_sqr (Y v)).
    unfold Rsqr in *. lra.
Qed.

End VectorAlgebra.

(** X27.  Vector algebra as the engine uses it: [Add] and [Sub] undo each
    other, the dot product is symmetric, that of a vector with itself is
    the square of its length, and it is bounded by the product of the
    lengths; scaling multiplies the length by the absolute value of the
    factor; the distance of two points is the length of their difference
    and does not change when both are moved by the same vector. *)
Theorem vector_algebra (u v w : Vector2D) (s : R) :
  Vec.Sub (Vec.Add u v) v = u /\
  Vec.Add (Vec.Sub u v) v = u /\
  Vec.Dot u v = Vec.Dot v u /\
  Vec.Dot v v = Vec.Length v * Vec.Length v /\
  Rabs (Vec.Dot u v) <= Vec.Length u * Vec.Length v /\
  Vec.Length (Vec.Mul v s) = Rabs s * Vec.Length v /\
  Vec.Distance u v = Vec.Length (Vec.Sub u v) /\
  Vec.Distance (Vec.Add u w) (Vec.Add v w) = Vec.Distance u v.
Proof.
  split; [destruct u; unfold Vec.Sub, Vec.Add; cbn; f_equal; ring|].
  split; [destruct u; unfold Vec.Sub, Vec.Add; cbn; f_equal; ring|].
  split; [unfold Vec.Dot; ring|].
  split; [rewrite Length_sqr; reflexivity|].
  split.
  { pose proof (Cauchy_Schwarz u v) as H1.
    pose proof (Cauchy_Schwarz (Vec.Mul u (-1)) v) as H2.
    rewrite Length_Mul in H2.
    replace (Rabs (-1)) with 1 in H2
      by (unfold Rabs; destruct (Rcase_abs (-1)); lra).
    unfold Vec.Dot, Vec.Mul in *. cbn [X Y] in H2.
    unfold Rabs. destruct (Rcase_abs _); lra. }
  split; [apply Length_Mul|].
  split; [unfold Vec.Distance, Vec.Length, Vec.Sub; reflexivity|].
  unfold Vec.Distance, Vec.Add. cbn [X Y]. cbv zeta. f_equal. ring.
Qed.

(** X28.  The drawing effects of a well-formed animation are bounded: the
    horizontal offset is 0 or 3, and 3 only on frame 1 of an attack; the
    idle bob stays within 1 and the walk bounce within 2, upwards; a dying
    unit sinks by 2 per frame and turns by [pi / 8] per frame, both never
    negative; every other animation has no rotation. *)
Theorem animation_effects_bounded (a : AnimationState) :
  anim_ok a ->
  (fst (Anim.GetAnimationOffset a) = 0 \/
   (fst (Anim.GetAnimationOffset a) = 3 /\
    AnimType a = AnimationAttack /\ Frame a = 1%Z)) /\
  match AnimType a with
  | AnimationIdle => -1 <= snd (Anim.GetAnimationOffset a) <= 1
  | AnimationWalk => -2 <= snd (Anim.GetAnimationOffset a) <= 0
  | AnimationAttack => snd (Anim.GetAnimationOffset a) = 0
  | AnimationDeath =>
    snd (Anim.GetAnimationOffset a) = 2 * IZR (Frame a) /\
    0 <= snd (Anim.GetAnimationOffset a) <= 2 * IZR (TotalFrames a - 1)
  end /\
  0 <= Anim.GetRotationModifier a /\
  (AnimType a <> AnimationDeath -> Anim.GetRotationModifier a = 0).
Proof.
  intros (Hf & _). 
  assert (H0 : 0 <= IZR (Frame a)) by (apply IZR_le; lia).
  assert (H1 : IZR (Frame a) <= IZR (TotalFrames a - 1)) by (apply IZR_le; lia).
  unfold Anim.GetAnimationOffset, Anim.GetRotationModifier.
  destruct (AnimType a) eqn:E; cbv zeta; cbn [fst snd].
  - pose proof (SIN_bound (IZR (Frame a) * PI / 2)).
    repeat split; try lra; auto; try congruence.
  - pose proof (Rabs_pos (sin (IZR (Frame a) * PI / 2))).
    pose proof (SIN_bound (IZR (Frame a) * PI / 2)) as [Hs1 Hs2].
    assert (Rabs (sin (IZR (Frame a) * PI / 2)) <= 1)
      by (apply Rabs_le; lra).
    repeat split; try lra; auto; try congruence.
  - destruct (Z.eqb_spec (Frame a) 1); repeat split; try lra; auto;
      try congruence.
  - pose proof PI_RGT_0.
    assert (0 <= IZR (Frame a) * PI / 8).
    { unfold Rdiv. apply Rmult_le_pos; [|lra]. apply Rmult_le_pos; lra. }
    repeat split; try lra; auto; try congruence.
Qed.

Lemma animation_effects_bounded_witness :
  0 <= Anim.GetRotationModifier (Anim.NewAnimationState AnimationDeath).
Proof.
  refine (proj1 (proj2 (proj2 (animation_effects_bounded
                                 (Anim.NewAnimationState AnimationDeath) _)))).
  unfold anim_ok, in_int. cbn.
  refine (conj _ (conj _ (conj _ (conj _ _)))); try lia; try lra; discriminate.
Defined.
